(** * mc-sim-lab: the M/M/c Monte-Carlo simulation engine

    Source: src/lib/simulation.ts.

    A shallow embedding of [runSimulation], [parseCSV],
    [runSimulationFromDataset] and [computeResults], and the properties of
    the event stepper, the dataset adapter and the aggregator.  After the
    engine come the earlier version of [runSimulation], which computes its
    summary itself, and the handlers of the page that drives the engine,
    [SimulationApp].

    Numbers.  A JavaScript [number] is modelled by the type [number] below:
    the three special values NaN, +Infinity and -Infinity, and the finite
    values, which are exact rationals.  Rounding, overflow of finite values
    and the sign of zero are not modelled (a division by zero behaves as a
    division by +0).  The special values are needed to follow the code where
    it leaves the finite numbers: [Math.min()] of no argument, a read of
    index -1, [parseFloat] of a cell that is no number, [Math.log(0)].

    Strings are sequences of 8-bit characters ([string] of the standard
    library); the white space of [trim] and [parseFloat] is the ASCII one.

    Randomness.  [Math.random] is a stream of draws indexed by the number of
    calls made so far, and [Math.log] is a function of which only the sign on
    [0, 1) is assumed.  The [while] loop of [runSimulation] need not
    terminate, so its model takes fuel.

    The numbers of the specification (rates, durations, times) are real
    numbers.  The statements below name the special values where the code
    itself produces them, as the +Infinity that [parseCSV] accepts in a cell
    and the sample of a draw of 0; where an infinite time or a NaN breaks a
    statement, it is stated on the times that the run computes: on the
    entities whose arrival time is finite, or on a product that is finite. *)

From Stdlib Require Import QArith Qround Lqa Lia ZArith Ascii String.
From stdpp Require Import base decidable option list.

Local Open Scope Q_scope.

(** ** JavaScript numbers *)

Inductive number : Type :=
  | NaN
  | PInf
  | NInf
  | Fin (q : Q).

Declare Scope num_scope.
Delimit Scope num_scope with num.
Bind Scope num_scope with number.

Module Num.

Definition zero : number := Fin 0.
Definition of_Z (z : Z) : number := Fin (inject_Z z).
Definition of_nat (n : nat) : number := of_Z (Z.of_nat n).

Definition neg (x : number) : number :=
  match x with
  | NaN => NaN
  | PInf => NInf
  | NInf => PInf
  | Fin a => Fin (- a)
  end.

Definition add (x y : number) : number :=
  match x, y with
  | NaN, _ | _, NaN => NaN
  | PInf, NInf | NInf, PInf => NaN
  | PInf, _ | _, PInf => PInf
  | NInf, _ | _, NInf => NInf
  | Fin a, Fin b => Fin (a + b)
  end.

Definition sub (x y : number) : number := add x (neg y).

(** The sign of a number that is not NaN: [Lt] negative, [Eq] zero,
    [Gt] positive. *)
Definition sign (x : number) : comparison :=
  match x with
  | NaN => Eq
  | PInf => Gt
  | NInf => Lt
  | Fin a => a ?= 0
  end.

Definition inf_of_sign (s : comparison) : number :=
  match s with
  | Lt => NInf
  | _ => PInf
  end.

Definition sign_mul (s t : comparison) : comparison :=
  match s, t with
  | Eq, _ | _, Eq => Eq
  | Lt, Lt | Gt, Gt => Gt
  | _, _ => Lt
  end.

Definition mul (x y : number) : number :=
  match x, y with
  | NaN, _ | _, NaN => NaN
  | Fin a, Fin b => Fin (a * b)
  | _, _ =>
      match sign_mul (sign x) (sign y) with
      | Eq => NaN
      | s => inf_of_sign s
      end
  end.

(** A zero divisor is +0: [a / 0] is +Infinity for [a > 0], -Infinity
    for [a < 0] and NaN for [a = 0]. *)
Definition div (x y : number) : number :=
  match x, y with
  | NaN, _ | _, NaN => NaN
  | Fin a, Fin b =>
      match b ?= 0 with
      | Eq =>
          match a ?= 0 with
          | Eq => NaN
          | s => inf_of_sign s
          end
      | _ => Fin (a / b)
      end
  | Fin _, _ => Fin 0
  | _, Fin b =>
      match b ?= 0 with
      | Lt => neg x
      | _ => x
      end
  | _, _ => NaN
  end.

(** [x < y], [x <= y], [x > y], [x >= y] and [x === y]: every comparison
    with NaN is false. *)
Definition ltb (x y : number) : bool :=
  match x, y with
  | NaN, _ | _, NaN => false
  | _, NInf | PInf, _ => false
  | NInf, _ | _, PInf => true
  | Fin a, Fin b => negb (Qle_bool b a)
  end.

Definition eqb (x y : number) : bool :=
  match x, y with
  | PInf, PInf | NInf, NInf => true
  | Fin a, Fin b => Qeq_bool a b
  | _, _ => false
  end.

Definition leb (x y : number) : bool := ltb x y || eqb x y.
Definition gtb (x y : number) : bool := ltb y x.
Definition geb (x y : number) : bool := leb y x.

Definition isNaN (x : number) : bool :=
  match x with
  | NaN => true
  | _ => false
  end.

(** [Math.max(x, y)] and [Math.min(x, y)]: NaN as soon as one argument
    is. *)
Definition max2 (x y : number) : number :=
  match x, y with
  | NaN, _ | _, NaN => NaN
  | _, _ => if ltb x y then y else x
  end.

Definition min2 (x y : number) : number :=
  match x, y with
  | NaN, _ | _, NaN => NaN
  | _, _ => if ltb y x then y else x
  end.

(** [Math.max(...xs)] and [Math.min(...xs)]: -Infinity and +Infinity on
    no argument. *)
Definition Math_max (xs : list number) : number := foldl max2 NInf xs.
Definition Math_min (xs : list number) : number := foldl min2 PInf xs.

Definition finite (x : number) : Prop :=
  match x with
  | Fin _ => True
  | _ => False
  end.

(** The same value: the equality of [===], except that NaN is NaN. *)
Definition same (x y : number) : Prop :=
  match x, y with
  | NaN, NaN | PInf, PInf | NInf, NInf => True
  | Fin a, Fin b => a == b
  | _, _ => False
  end.

End Num.

Notation "x + y" := (Num.add x y) : num_scope.
Notation "x - y" := (Num.sub x y) : num_scope.
Notation "x * y" := (Num.mul x y) : num_scope.
Notation "x / y" := (Num.div x y) : num_scope.
Notation "- x" := (Num.neg x) : num_scope.
Notation "x <? y" := (Num.ltb x y) : num_scope.
Notation "x <=? y" := (Num.leb x y) : num_scope.
Notation "x >? y" := (Num.gtb x y) : num_scope.
Notation "x >=? y" := (Num.geb x y) : num_scope.
Notation "x === y" := (Num.eqb x y) (at level 70, no associativity) : num_scope.

(** [x <= y] and [x < y] as propositions: the comparison of the code
    answers [true]. *)
Definition num_le (x y : number) : Prop := Num.leb x y = true.
Definition num_lt (x y : number) : Prop := Num.ltb x y = true.
Notation "x <= y" := (num_le x y) : num_scope.
Notation "x < y" := (num_lt x y) : num_scope.

#[export] Instance number_equiv : Equiv number := Num.same.

(** ** Arrays of numbers

    [serverFinishTimes] is a JavaScript array of numbers.  Its elements are
    a list; [indexOf] answers -1 when the value is absent, and the code then
    reads and writes the key -1: the read gives [undefined] the first time and
    afterwards what the write of the iteration before stored under that key,
    which is NaN (the end of a service that starts at NaN); [Math.max] turns
    both into NaN.  The write creates a property that no element read,
    spread or [indexOf] sees. *)

Inductive outcome (A : Type) : Type :=
  | Normal (a : A)
  | RangeError.
Arguments Normal {A} a.
Arguments RangeError {A}.

(** [q] is an integer. *)
Definition Q_is_int (q : Q) : bool :=
  Z.eqb (Z.modulo (Qnum q) (Zpos (Qden q))) 0.

(** [new Array(len).fill(v)]: [len] must be an integer of [0, 2^32 - 1],
    otherwise the constructor throws a RangeError. *)
Definition new_Array_fill (len v : number) : outcome (list number) :=
  match len with
  | Fin q =>
      if Q_is_int q && Qle_bool 0 q && Qle_bool q (inject_Z (2 ^ 32 - 1))
      then Normal (replicate (Z.to_nat (Qnum q / Zpos (Qden q))) v)
      else RangeError
  | _ => RangeError
  end.

(** [xs.indexOf(x)]: the first index whose element is [=== x], or -1. *)
Definition indexOf (xs : list number) (x : number) : Z :=
  match list_find (λ y, Num.eqb y x = true) xs with
  | Some (i, _) => Z.of_nat i
  | None => (-1)%Z
  end.

(** [xs[i]] for an index that [indexOf] gave: [None] is [undefined]. *)
Definition array_get (xs : list number) (i : Z) : option number :=
  if (i <? 0)%Z then None else xs !! Z.to_nat i.

(** [xs[i] = v] for an index that [indexOf] gave: the elements are unchanged
    at -1. *)
Definition array_set (xs : list number) (i : Z) (v : number) : list number :=
  if (i <? 0)%Z then xs else <[Z.to_nat i := v]> xs.

(** [ToNumber]: [undefined] becomes NaN. *)
Definition ToNumber (o : option number) : number := default NaN o.

(** ** Records of the engine *)

Record SimulationParams : Type := {
  arrivalRate : number;
  serviceRate : number;
  numServers : number;
  duration : number;
}.

Record CustomerRecord : Type := {
  id : nat;
  randomIAT : number;
  randomST : number;
  interArrivalTime : number;
  arrivalTime : number;
  serviceTime : number;
  waitTime : number;
  startServiceTime : number;
  endServiceTime : number;
  serverAssigned : Z;
}.

Record SimulationResult : Type := {
  customers : list CustomerRecord;
  avgWaitTime : number;
  maxWaitTime : number;
  avgQueueLength : number;
  serverUtilization : number;
  totalCustomers : nat;
  customersServed : nat;
}.

Record DatasetRow : Type := {
  row_interArrivalTime : number;
  row_serviceTime : number;
}.

(** ** The aggregator: [computeResults] *)

Definition computeResults (customers : list CustomerRecord)
    (numServers duration arrivalRate : number) : SimulationResult :=
  let totalCustomers := length customers in
  if Nat.eqb totalCustomers 0 then
    {| customers := [];
       avgWaitTime := Num.zero;
       maxWaitTime := Num.zero;
       avgQueueLength := Num.zero;
       serverUtilization := Num.zero;
       totalCustomers := 0;
       customersServed := 0 |}
  else
    let avgWaitTime :=
      (foldl (λ sum c, sum + waitTime c) Num.zero customers
       / Num.of_nat totalCustomers)%num in
    let maxWaitTime := Num.Math_max (map waitTime customers) in
    let totalServiceTime :=
      foldl (λ sum c, sum + serviceTime c)%num Num.zero customers in
    let serverUtilization :=
      if (duration >? Num.zero)%num
      then (totalServiceTime / (numServers * duration) * Num.of_nat 100)%num
      else Num.zero in
    let avgQueueLength := (arrivalRate * avgWaitTime)%num in
    {| customers := customers;
       avgWaitTime := avgWaitTime;
       maxWaitTime := maxWaitTime;
       avgQueueLength := avgQueueLength;
       serverUtilization := Num.min2 serverUtilization (Num.of_nat 100);
       totalCustomers := totalCustomers;
       customersServed := totalCustomers |}.

(** ** The event stepper

    The server assignment that both loops inline (lines 70-79 of
    [runSimulation], lines 149-156 of [runSimulationFromDataset]). *)

Record Assignment : Type := {
  asg_servers : list number;
  asg_serverIndex : Z;
  asg_waitTime : number;
  asg_startServiceTime : number;
  asg_endServiceTime : number;
}.

Definition stepper (serverFinishTimes : list number)
    (currentTime serviceTime : number) : Assignment :=
  let earliestFinish := Num.Math_min serverFinishTimes in
  let serverIndex := indexOf serverFinishTimes earliestFinish in
  let startServiceTime :=
    Num.max2 currentTime (ToNumber (array_get serverFinishTimes serverIndex)) in
  let waitTime := (startServiceTime - currentTime)%num in
  let endServiceTime := (startServiceTime + serviceTime)%num in
  {| asg_servers := array_set serverFinishTimes serverIndex endServiceTime;
     asg_serverIndex := serverIndex;
     asg_waitTime := waitTime;
     asg_startServiceTime := startServiceTime;
     asg_endServiceTime := endServiceTime |}.

(** ** The dataset path: [runSimulationFromDataset] *)

(** The variables of the [for] loop. *)
Record LoopState : Type := {
  ls_servers : list number;
  ls_currentTime : number;
  ls_customers : list CustomerRecord;
}.

(** The body of the loop at index [i] on [row]. *)
Definition dataset_body (i : nat) (row : DatasetRow) (s : LoopState)
    : LoopState :=
  let interArrivalTime :=
    if Nat.eqb i 0 then Num.zero else row_interArrivalTime row in
  let currentTime := (ls_currentTime s + interArrivalTime)%num in
  let a := stepper (ls_servers s) currentTime (row_serviceTime row) in
  {| ls_servers := asg_servers a;
     ls_currentTime := currentTime;
     ls_customers :=
       ls_customers s ++
       [{| id := i + 1;
           randomIAT := Num.zero;
           randomST := Num.zero;
           interArrivalTime := interArrivalTime;
           arrivalTime := currentTime;
           serviceTime := row_serviceTime row;
           waitTime := asg_waitTime a;
           startServiceTime := asg_startServiceTime a;
           endServiceTime := asg_endServiceTime a;
           serverAssigned := asg_serverIndex a + 1 |}] |}.

(** The iterations [i], [i + 1], ... over the rows that remain. *)
Fixpoint dataset_loop (i : nat) (rows : list DatasetRow) (s : LoopState)
    : LoopState :=
  match rows with
  | [] => s
  | row :: rest => dataset_loop (S i) rest (dataset_body i row s)
  end.

Definition dataset_init (servers : list number) : LoopState :=
  {| ls_servers := servers; ls_currentTime := Num.zero; ls_customers := [] |}.

Definition runSimulationFromDataset (dataset : list DatasetRow)
    (numServers : number) : outcome SimulationResult :=
  match new_Array_fill numServers Num.zero with
  | RangeError => RangeError
  | Normal serverFinishTimes =>
      let s := dataset_loop 0 dataset (dataset_init serverFinishTimes) in
      let customers := ls_customers s in
      let duration :=
        match last customers with
        | Some c => endServiceTime c
        | None => Num.zero
        end in
      let avgIAT :=
        (foldl (λ s r, s + row_interArrivalTime r) Num.zero dataset
         / Num.of_nat (length dataset))%num in
      let arrivalRate :=
        if (avgIAT >? Num.zero)%num then (Num.of_nat 1 / avgIAT)%num
        else Num.of_nat 1 in
      Normal (computeResults customers numServers duration arrivalRate)
  end.

Definition row (iat st : Q) : DatasetRow :=
  {| row_interArrivalTime := Fin iat; row_serviceTime := Fin st |}.

(** ** The random-draw path: [runSimulation] *)

Record Draw : Type := {
  random : number;
  value : number;
}.

Inductive LoopStep (S : Type) : Type :=
  | Continue (s : S)
  | Break (s : S).
Arguments Continue {S} s.
Arguments Break {S} s.

(** The variables of the [while] loop, and the number of calls of
    [Math.random] made so far. *)
Record SimState : Type := {
  sim_calls : nat;
  sim_servers : list number;
  sim_currentTime : number;
  sim_customerId : nat;
  sim_customers : list CustomerRecord;
}.

Section RandomDraw.

(** [Math.log], and the value that the [n]-th call of [Math.random]
    returns (calls are counted from 0). *)
Variable Math_log : number → number.
Variable Math_random : nat → Q.

Definition exponentialRandom (rate : number) (calls : nat) : Draw * nat :=
  let R := Fin (Math_random calls) in
  let value := (- Math_log R / rate)%num in
  ({| random := R; value := value |}, S calls).

(** The body of the loop: [Break] at the [break] statement. *)
Definition sim_body (params : SimulationParams) (s : SimState)
    : LoopStep SimState :=
  let customerId := S (sim_customerId s) in
  let '(iat, calls) := exponentialRandom (arrivalRate params) (sim_calls s) in
  let interArrivalTime :=
    if Nat.eqb customerId 1 then Num.zero else value iat in
  let currentTime := (sim_currentTime s + interArrivalTime)%num in
  if (currentTime >=? duration params)%num then
    Break {| sim_calls := calls;
             sim_servers := sim_servers s;
             sim_currentTime := currentTime;
             sim_customerId := customerId;
             sim_customers := sim_customers s |}
  else
    let '(st, calls) := exponentialRandom (serviceRate params) calls in
    let a := stepper (sim_servers s) currentTime (value st) in
    Continue
      {| sim_calls := calls;
         sim_servers := asg_servers a;
         sim_currentTime := currentTime;
         sim_customerId := customerId;
         sim_customers :=
           sim_customers s ++
           [{| id := customerId;
               randomIAT := random iat;
               randomST := random st;
               interArrivalTime :=
                 if Nat.eqb customerId 1 then Num.zero else interArrivalTime;
               arrivalTime := currentTime;
               serviceTime := value st;
               waitTime := asg_waitTime a;
               startServiceTime := asg_startServiceTime a;
               endServiceTime := asg_endServiceTime a;
               serverAssigned := asg_serverIndex a + 1 |}] |}.

(** [while (currentTime < duration) { ... }]: [None] when the fuel runs
    out before the loop ends. *)
Fixpoint sim_loop (fuel : nat) (params : SimulationParams) (s : SimState)
    : option SimState :=
  if (sim_currentTime s <? duration params)%num then
    match fuel with
    | O => None
    | S fuel =>
        match sim_body params s with
        | Break s' => Some s'
        | Continue s' => sim_loop fuel params s'
        end
    end
  else Some s.

Definition sim_init (servers : list number) : SimState :=
  {| sim_calls := 0;
     sim_servers := servers;
     sim_currentTime := Num.zero;
     sim_customerId := 0;
     sim_customers := [] |}.

Definition runSimulation (fuel : nat) (params : SimulationParams)
    : option (outcome SimulationResult) :=
  match new_Array_fill (numServers params) Num.zero with
  | RangeError => Some RangeError
  | Normal serverFinishTimes =>
      s ← sim_loop fuel params (sim_init serverFinishTimes);
      Some (Normal (computeResults (sim_customers s) (numServers params)
                      (duration params) (arrivalRate params)))
  end.

End RandomDraw.

(** A stand-in for [Math.log] with the sign of the logarithm on [0, 1]:
    -Infinity at 0, negative below 1, zero at 1. *)
Definition log_standin (x : number) : number :=
  match x with
  | Fin q => if Qeq_bool q 0 then NInf else Fin (q - 1)
  | _ => NaN
  end.

Definition params (arrival service : Q) (servers : nat) (dur : Q)
    : SimulationParams :=
  {| arrivalRate := Fin arrival;
     serviceRate := Fin service;
     numServers := Num.of_nat servers;
     duration := Fin dur |}.

(** ** Strings: what [parseCSV] uses of them *)

Module Str.

Local Open Scope char_scope.
Local Open Scope string_scope.

Definition code (c : ascii) : nat := nat_of_ascii c.

(** White space: tab, line feed, vertical tab, form feed, carriage
    return, space. *)
Definition is_space (c : ascii) : bool :=
  (Nat.leb 9 (code c) && Nat.leb (code c) 13) || Nat.eqb (code c) 32.

Fixpoint trimStart (s : string) : string :=
  match s with
  | String c r => if is_space c then trimStart r else s
  | EmptyString => EmptyString
  end.

Fixpoint trimEnd (s : string) : string :=
  match s with
  | String c r =>
      match trimEnd r with
      | EmptyString => if is_space c then EmptyString else String c EmptyString
      | r' => String c r'
      end
  | EmptyString => EmptyString
  end.

Definition trim (s : string) : string := trimEnd (trimStart s).

Definition lower (c : ascii) : ascii :=
  if Nat.leb 65 (code c) && Nat.leb (code c) 90
  then ascii_of_nat (code c + 32) else c.

Fixpoint toLowerCase (s : string) : string :=
  match s with
  | String c r => String (lower c) (toLowerCase r)
  | EmptyString => EmptyString
  end.

(** [s.includes(sub)]. *)
Fixpoint includes (s sub : string) : bool :=
  String.prefix sub s ||
  match s with
  | String _ r => includes r sub
  | EmptyString => false
  end.

(** Puts [c] in front of the first piece of a split. *)
Definition cons_first (c : ascii) (pieces : list string) : list string :=
  match pieces with
  | p :: ps => String c p :: ps
  | [] => [String c EmptyString]
  end.

(** [s.split(/\r?\n/)]. *)
Fixpoint split_lines (s : string) : list string :=
  match s with
  | EmptyString => [EmptyString]
  | String c r =>
      if Ascii.eqb c "010" then EmptyString :: split_lines r
      else
        match r with
        | String c' r' =>
            if Ascii.eqb c "013" && Ascii.eqb c' "010"
            then EmptyString :: split_lines r'
            else cons_first c (split_lines r)
        | EmptyString => cons_first c (split_lines r)
        end
  end.

(** A comma, a semicolon or a tab. *)
Definition is_delimiter (c : ascii) : bool :=
  Ascii.eqb c "," || Ascii.eqb c ";" || Ascii.eqb c "009".

(** [s.split(/[,;\t]/)]. *)
Fixpoint split_cells (s : string) : list string :=
  match s with
  | EmptyString => [EmptyString]
  | String c r =>
      if is_delimiter c then EmptyString :: split_cells r
      else cons_first c (split_cells r)
  end.

Definition digit (c : ascii) : option Z :=
  if Nat.leb 48 (code c) && Nat.leb (code c) 57
  then Some (Z.of_nat (code c - 48)) else None.

(** The digits at the head of [s]: their value after [acc], how many they
    are, and the rest of [s]. *)
Fixpoint digits (s : string) (acc : Z) (n : nat) : Z * nat * string :=
  match s with
  | String c r =>
      match digit c with
      | Some d => digits r (10 * acc + d) (S n)
      | None => (acc, n, s)
      end
  | EmptyString => (acc, n, s)
  end.

(** The sign at the head of [s]: [true] for a minus. *)
Definition sign (s : string) : bool * string :=
  match s with
  | String c r =>
      if Ascii.eqb c "-" then (true, r)
      else if Ascii.eqb c "+" then (false, r)
      else (false, s)
  | EmptyString => (false, s)
  end.

(** The exponent part at the head of [s], 0 when there is none: an [e] or
    [E], a sign or none, and one digit at least. *)
Definition exponent (s : string) : Z :=
  match s with
  | String c r =>
      if Ascii.eqb c "e" || Ascii.eqb c "E" then
        let '(minus, r) := sign r in
        let '(e, n, _) := digits r 0 0 in
        if Nat.eqb n 0 then 0%Z else if minus then (- e)%Z else e
      else 0%Z
  | EmptyString => 0%Z
  end.

(** [parseFloat(s)]: the longest prefix of [s], after its leading white
    space, that is a decimal literal; NaN when there is none. *)
Definition parseFloat (s : string) : number :=
  let '(minus, s) := sign (trimStart s) in
  let signed (x : number) := if minus then Num.neg x else x in
  if String.prefix "Infinity" s then signed PInf
  else
    let '(int, n_int, s) := digits s 0 0 in
    let '(mant, n_frac, s) :=
      match s with
      | String c r =>
          if Ascii.eqb c "." then digits r int 0 else (int, O, s)
      | EmptyString => (int, O, s)
      end in
    if Nat.eqb (n_int + n_frac) 0 then NaN
    else
      signed (Fin (inject_Z mant / inject_Z (10 ^ Z.of_nat n_frac)
                   * Qpower 10 (exponent s))).

(** [xs.findIndex(p)]. *)
Definition findIndex {A} (p : A → bool) (xs : list A) : Z :=
  match list_find (λ x, p x = true) xs with
  | Some (i, _) => Z.of_nat i
  | None => (-1)%Z
  end.

(** [xs[i]] as a string: ["undefined"] outside the array. *)
Definition cell (xs : list string) (i : Z) : string :=
  if (i <? 0)%Z then "undefined" else default "undefined" (xs !! Z.to_nat i).

End Str.

(** ** The dataset adapter: [parseCSV] *)

Section ParseCSV.

Local Open Scope string_scope.

Definition is_iat_header (h : string) : bool :=
  Str.includes h "iat" || Str.includes h "inter_arrival"
  || Str.includes h "interarrival" || Str.includes h "inter-arrival".

Definition is_st_header (h : string) : bool :=
  Str.includes h "service" || Str.includes h "st"
  || Str.includes h "duration".

(** The columns that the header line selects. *)
Definition columns (header : string) : Z * Z :=
  let headers := Str.split_cells (Str.toLowerCase header) in
  let iatCol := Str.findIndex is_iat_header headers in
  let stCol := Str.findIndex is_st_header headers in
  let iatCol := if (iatCol =? -1)%Z then 0%Z else iatCol in
  let stCol :=
    if (stCol =? -1)%Z then Z.min 1 (Z.of_nat (length headers) - 1)
    else stCol in
  (iatCol, stCol).

(** The body of the loop over the data lines. *)
Definition parse_line (iatCol stCol : Z) (rows : list DatasetRow)
    (line : string) : list DatasetRow :=
  let cols := Str.split_cells line in
  let iat := Str.parseFloat (Str.cell cols iatCol) in
  let st := Str.parseFloat (Str.cell cols stCol) in
  if negb (Num.isNaN iat) && negb (Num.isNaN st)
     && (iat >=? Num.zero)%num && (st >? Num.zero)%num
  then rows ++ [{| row_interArrivalTime := iat; row_serviceTime := st |}]
  else rows.

Definition parseCSV (csvText : string) : list DatasetRow :=
  let lines := Str.split_lines (Str.trim csvText) in
  if Nat.ltb (length lines) 2 then []
  else
    match lines with
    | header :: data =>
        let '(iatCol, stCol) := columns header in
        foldl (parse_line iatCol stCol) [] data
    | [] => []
    end.

End ParseCSV.

Definition LF : string := String "010" EmptyString.
Definition CR : string := String "013" EmptyString.

(** * Predicates of the statements *)

(** ** Numbers *)

(** [x] is a number: it is not NaN. *)
Definition is_num (x : number) : Prop :=
  match x with
  | NaN => False
  | _ => True
  end.

(** [x] is finite or +Infinity. *)
Definition not_low (x : number) : Prop :=
  match x with
  | Fin _ | PInf => True
  | _ => False
  end.

#[export] Instance is_num_dec (x : number) : Decision (is_num x).
Proof. destruct x; cbn; apply _. Defined.

(** [m] is the larger of [x] and [y]. *)
Definition is_max (x y m : number) : Prop :=
  (x <= m)%num ∧ (y <= m)%num ∧ (m = x ∨ m = y).

(** [m] is the maximum of [xs]. *)
Definition is_maximum (m : number) (xs : list number) : Prop :=
  m ∈ xs ∧ Forall (λ x, (x <= m)%num) xs.

(** The value of a finite number, and the sum of a list of rationals. *)
Definition to_Q (x : number) : Q :=
  match x with
  | Fin q => q
  | _ => 0
  end.

Definition Qsum (qs : list Q) : Q := foldr Qplus 0 qs.

(** ** The inputs of the data model *)

(** A row of finite numbers. *)
Definition finite_row (r : DatasetRow) : Prop :=
  Num.finite (row_interArrivalTime r) ∧ Num.finite (row_serviceTime r).

(** A row of the data model: its inter-arrival time is not negative and its
    service time is positive. *)
Definition valid_row (r : DatasetRow) : Prop :=
  finite_row r
  ∧ (Fin 0 <= row_interArrivalTime r)%num ∧ (Fin 0 < row_serviceTime r)%num.

(** A row of finite numbers whose service time is not negative. *)
Definition nonneg_service_row (r : DatasetRow) : Prop :=
  finite_row r ∧ (Fin 0 <= row_serviceTime r)%num.

(** ** One assignment *)

(** Server [k], free at [next], is the earliest available one, and the
    first of those that are. *)
Definition earliest (servers : list number) (k : nat) (next : number) : Prop :=
  servers !! k = Some next ∧
  (∀ j y, servers !! j = Some y → (next <= y)%num) ∧
  (∀ j y, servers !! j = Some y → (j < k)%nat → (next < y)%num).

(** The assignment of entity [e], which finds the servers at [servers] and
    leaves them at [servers']. *)
Definition assigned (servers : list number) (e : CustomerRecord)
    (servers' : list number) : Prop :=
  ∃ k next,
    earliest servers k next ∧
    is_max (arrivalTime e) next (startServiceTime e) ∧
    waitTime e = (startServiceTime e - arrivalTime e)%num ∧
    endServiceTime e = (startServiceTime e + serviceTime e)%num ∧
    servers' = <[k := endServiceTime e]> servers ∧
    serverAssigned e = (Z.of_nat k + 1)%Z.

(** ** The loops, iteration by iteration *)

(** The variables of the loop of [runSimulationFromDataset] on [c] servers
    after [i] iterations. *)
Definition dataset_state (dataset : list DatasetRow) (c i : nat) : LoopState :=
  dataset_loop 0 (take i dataset) (dataset_init (replicate c Num.zero)).

(** The loop on finite rows: the servers stay [c] finite numbers, the
    clock stays finite and one entity is recorded per row. *)
Definition dataset_inv (c i : nat) (s : LoopState) : Prop :=
  length (ls_servers s) = c
  ∧ Forall Num.finite (ls_servers s)
  ∧ Num.finite (ls_currentTime s)
  ∧ length (ls_customers s) = i.

Section RandomStates.

Variable Math_log : number → number.
Variable Math_random : nat → Q.

(** The variables of the loop of [runSimulation] after [n] complete
    iterations from [s]: [None] when the loop has ended before. *)
Fixpoint sim_state_at (params : SimulationParams) (n : nat) (s : SimState)
    : option SimState :=
  match n with
  | O => Some s
  | S n =>
      if (sim_currentTime s <? duration params)%num then
        match sim_body Math_log Math_random params s with
        | Continue s' => sim_state_at params n s'
        | Break _ => None
        end
      else None
  end.

End RandomStates.

(** The loop of [runSimulation]: the servers stay [c] numbers that are
    finite or +Infinity, the clock stays finite and the [n] entities so far
    were numbered up to [n]. *)
Definition sim_inv (c n : nat) (s : SimState) : Prop :=
  length (sim_servers s) = c
  ∧ Forall not_low (sim_servers s)
  ∧ Num.finite (sim_currentTime s)
  ∧ sim_customerId s = n
  ∧ length (sim_customers s) = n.

(** ** The output sequence *)

(** The invariants of an output sequence: the ids are 1, 2, ... in order,
    the arrival times never decrease, no wait is negative and every
    service ends at its start plus the service time. *)
Definition sequence_ok (cs : list CustomerRecord) : Prop :=
  map id cs = seq 1 (length cs)
  ∧ (∀ i j e e', (i ≤ j)%nat → cs !! i = Some e → cs !! j = Some e' →
       (arrivalTime e <= arrivalTime e')%num)
  ∧ Forall (λ e, (Fin 0 <= waitTime e)%num
                 ∧ endServiceTime e = (startServiceTime e + serviceTime e)%num)
      cs.

(** The same during a loop whose clock is at [now]. *)
Definition sequence_inv (now : number) (cs : list CustomerRecord) : Prop :=
  sequence_ok cs ∧ Forall (λ e, (arrivalTime e <= now)%num) cs.



(** ** More servers *)

(** The number of the servers [xs] that are available at time [t], and
    servers [ys] that are at least as available as [xs] at every time. *)
Fixpoint free_at (t : number) (xs : list number) : nat :=
  match xs with
  | [] => 0
  | x :: xs => (if Num.leb x t then 1 else 0) + free_at t xs
  end.

Definition dominates (xs ys : list number) : Prop :=
  ∀ t : number, (free_at t xs ≤ free_at t ys)%nat.

(** ** The aggregator *)

(** The summary of no entity. *)
Definition zero_summary : SimulationResult :=
  {| customers := [];
     avgWaitTime := Fin 0;
     maxWaitTime := Fin 0;
     avgQueueLength := Fin 0;
     serverUtilization := Fin 0;
     totalCustomers := 0;
     customersServed := 0 |}.



(** ** The dataset adapter *)

(** The two cells of a data line that the header selects, parsed. *)
Definition selected (header line : string) : number * number :=
  let '(iatCol, stCol) := columns header in
  let cols := Str.split_cells line in
  (Str.parseFloat (Str.cell cols iatCol), Str.parseFloat (Str.cell cols stCol)).

(** A parsed pair is accepted when both cells are numbers, the inter-arrival
    time is 0 at least and the service time is more than 0. *)
Definition accepted (p : number * number) : Prop :=
  is_num p.1 ∧ is_num p.2 ∧ (Fin 0 <= p.1)%num ∧ (Fin 0 < p.2)%num.

Definition to_row (p : number * number) : DatasetRow :=
  {| row_interArrivalTime := p.1; row_serviceTime := p.2 |}.

#[export] Instance accepted_dec (p : number * number) : Decision (accepted p).
Proof. unfold accepted, num_le, num_lt. apply _. Defined.

(** ** Inputs of the examples *)

(** The dataset of the round trip, the rows (2, 3) and (4, 1), and its
    blob: the header and the two data lines. *)
Definition two_rows : list DatasetRow := [row 2 3; row 4 1].

Definition round_trip_blob : string :=
  ("iat,service" ++ LF ++ "2,3" ++ LF ++ "4,1")%string.

(** A blob with lines of every kind: two accepted ones, a negative
    inter-arrival time, a cell that is no number, a service time of 0 and a
    line with one cell. *)
Definition mixed_blob : string :=
  ("iat,service" ++ LF ++ "2,3" ++ LF ++ "-4,1" ++ LF ++ "abc,1" ++ LF
   ++ "4,0" ++ LF ++ "7" ++ LF ++ "1.5;2e1")%string.

(** The round trip with the line ends of a spreadsheet export, and a line
    end after the last line. *)
Definition crlf_blob : string :=
  ("iat,service" ++ CR ++ LF ++ "2,3" ++ CR ++ LF ++ "4,1" ++ CR ++ LF)%string.

(** Two customers, five minutes of service each, one minute apart. *)
Definition two_long_services : list DatasetRow := [row 0 5; row 1 5].

(** A service of 5 counted as negative, then a service of 3. *)
Definition negative_service : list DatasetRow := [row 0 (-5); row 0 3].


(** Draws that alternate between 1/2, for the arrivals, and 1/4, for the
    services. *)
Definition half_quarter (n : nat) : Q := if Nat.even n then 1 # 2 else 1 # 4.

(** A blob whose second data line has an infinite inter-arrival time. *)
Definition infinite_blob : string :=
  ("iat,service" ++ LF ++ "0,1" ++ LF ++ "Infinity,1")%string.

(** * The rest of the code *)

(** ** The earlier [runSimulation]

    The version of [runSimulation] that computes the summary itself.  Its
    loop is the loop above, line for line; its summary has no test of the
    duration. *)
Module Part000.

Definition runSimulation (Math_log : number → number) (Math_random : nat → Q)
    (fuel : nat) (params : SimulationParams)
    : option (outcome SimulationResult) :=
  match new_Array_fill (numServers params) Num.zero with
  | RangeError => Some RangeError
  | Normal serverFinishTimes =>
      s ← sim_loop Math_log Math_random fuel params
            (sim_init serverFinishTimes);
      let customers := sim_customers s in
      let totalCustomers := length customers in
      if Nat.eqb totalCustomers 0 then
        Some (Normal
          {| customers := [];
             avgWaitTime := Num.zero;
             maxWaitTime := Num.zero;
             avgQueueLength := Num.zero;
             serverUtilization := Num.zero;
             totalCustomers := 0;
             customersServed := 0 |})
      else
        let avgWaitTime :=
          (foldl (λ sum c, sum + waitTime c) Num.zero customers
           / Num.of_nat totalCustomers)%num in
        let maxWaitTime := Num.Math_max (map waitTime customers) in
        let totalServiceTime :=
          foldl (λ sum c, sum + serviceTime c)%num Num.zero customers in
        let serverUtilization :=
          (totalServiceTime / (numServers params * duration params)
           * Num.of_nat 100)%num in
        let avgQueueLength := (arrivalRate params * avgWaitTime)%num in
        Some (Normal
          {| customers := customers;
             avgWaitTime := avgWaitTime;
             maxWaitTime := maxWaitTime;
             avgQueueLength := avgQueueLength;
             serverUtilization := Num.min2 serverUtilization (Num.of_nat 100);
             totalCustomers := totalCustomers;
             customersServed := totalCustomers |})
  end.

End Part000.

(** ** The page: [SimulationApp]

    The state of one scenario of the page, the handlers of its inputs and
    the run that the button starts.  The page keeps two scenarios, A and
    B, with the same handlers and the same run under two names; the
    handlers are modelled as functions on the state of the scenario they
    are bound to.  The fields of the rates and of the duration are shown
    while the scenario has no dataset; their handlers are modelled for
    every state. *)
Module App.

Local Open Scope string_scope.

(** [x || 0] on numbers: 0 and NaN are the numbers that are falsy. *)
Definition or_zero (x : number) : number :=
  if Num.isNaN x || (x === Fin 0)%num then Fin 0 else x.

(** [Math.round]: the nearest integer, the upper one at a half. *)
Definition Math_round (x : number) : number :=
  match x with
  | Fin q => Fin (inject_Z (Qfloor (q + (1 # 2))))
  | _ => x
  end.

(** What [ParamInput] passes to its [onChange] for the text of the field:
    [parseFloat(e.target.value) || 0]. *)
Definition onChange (text : string) : number := or_zero (Str.parseFloat text).

(** [Math.max(1, Math.round(v))], as the handlers of the number of
    servers and of the duration set it. *)
Definition whole_at_least_1 (v : number) : number :=
  Num.max2 (Fin 1) (Math_round v).

(** [params], [dataset] (with [None] for null) and [datasetFileName]. *)
Record Scenario : Type := {
  sc_params : SimulationParams;
  sc_dataset : option (list DatasetRow);
  sc_fileName : string;
}.

Definition scenarioA : Scenario :=
  {| sc_params := {| arrivalRate := Fin 2; serviceRate := Fin (8 # 10);
                     numServers := Fin 2; duration := Fin 480 |};
     sc_dataset := None;
     sc_fileName := EmptyString |}.

Definition scenarioB : Scenario :=
  {| sc_params := {| arrivalRate := Fin 2; serviceRate := Fin (8 # 10);
                     numServers := Fin 4; duration := Fin 480 |};
     sc_dataset := None;
     sc_fileName := EmptyString |}.

(** The events of a scenario: a text typed in one of the four fields, a
    file read, with its name and its text, and the button that clears the
    dataset. *)
Inductive Event : Type :=
  | ArrivalRateField (text : string)
  | ServiceRateField (text : string)
  | DurationField (text : string)
  | NumServersField (text : string)
  | FileRead (name text : string)
  | ClearDataset.

Definition setParams (sc : Scenario) (p : SimulationParams) : Scenario :=
  {| sc_params := p; sc_dataset := sc_dataset sc;
     sc_fileName := sc_fileName sc |}.

(** [handleFileUpload], from the [onload] of the reader on. *)
Definition handleFileUpload (sc : Scenario) (name text : string) : Scenario :=
  let rows := parseCSV text in
  if Nat.eqb (length rows) 0 then sc
  else {| sc_params := sc_params sc; sc_dataset := Some rows;
          sc_fileName := name |}.

Definition handle (sc : Scenario) (ev : Event) : Scenario :=
  let p := sc_params sc in
  match ev with
  | ArrivalRateField text =>
      setParams sc {| arrivalRate := onChange text;
                      serviceRate := serviceRate p;
                      numServers := numServers p;
                      duration := duration p |}
  | ServiceRateField text =>
      setParams sc {| arrivalRate := arrivalRate p;
                      serviceRate := onChange text;
                      numServers := numServers p;
                      duration := duration p |}
  | DurationField text =>
      setParams sc {| arrivalRate := arrivalRate p;
                      serviceRate := serviceRate p;
                      numServers := numServers p;
                      duration := whole_at_least_1 (onChange text) |}
  | NumServersField text =>
      setParams sc {| arrivalRate := arrivalRate p;
                      serviceRate := serviceRate p;
                      numServers := whole_at_least_1 (onChange text);
                      duration := duration p |}
  | FileRead name text => handleFileUpload sc name text
  | ClearDataset =>
      {| sc_params := p; sc_dataset := None; sc_fileName := EmptyString |}
  end.

(** The status of a card of the results. *)
Inductive Status : Type := danger | warning | good.

Definition getWaitStatus (val : number) : Status :=
  if (val >? Fin 10)%num then danger
  else if (val >? Fin 5)%num then warning else good.

(** The run of one scenario in [runBothSimulations]: on the dataset when
    there is one, on random draws otherwise. *)
Definition run (Math_log : number → number) (Math_random : nat → Q)
    (fuel : nat) (sc : Scenario) : option (outcome SimulationResult) :=
  match sc_dataset sc with
  | Some dataset =>
      Some (runSimulationFromDataset dataset (numServers (sc_params sc)))
  | None => runSimulation Math_log Math_random fuel (sc_params sc)
  end.

End App.

(** * Predicates of the further statements *)

(** ** The dataset path *)

(** A row of finite numbers whose inter-arrival time is not negative. *)
Definition nonneg_arrival_row (r : DatasetRow) : Prop :=
  finite_row r ∧ (Fin 0 <= row_interArrivalTime r)%num.

(** A row of finite numbers of which none is negative. *)
Definition nonneg_row (r : DatasetRow) : Prop :=
  finite_row r
  ∧ (Fin 0 <= row_interArrivalTime r)%num ∧ (Fin 0 <= row_serviceTime r)%num.


(** The service starts of [cs] never decrease. *)
Definition starts_in_order (cs : list CustomerRecord) : Prop :=
  ∀ i j e e', (i ≤ j)%nat → cs !! i = Some e → cs !! j = Some e' →
    (startServiceTime e <= startServiceTime e')%num.

(** The services start in the order of the entities [cs], and none has
    started after the time at which a server of [servers] can take the
    entity that arrives at [now]. *)
Definition order_inv (now : number) (servers : list number)
    (cs : list CustomerRecord) : Prop :=
  starts_in_order cs
  ∧ ∀ e y, e ∈ cs → y ∈ servers →
      (startServiceTime e <= Num.max2 now y)%num.

(** The loop on [c] servers after [i] rows when no entity has had to
    wait: the clock is not negative, at least [c - i] servers have never
    been used and every entity that arrived at a finite time waited 0. *)
Definition idle_inv (c i : nat) (s : LoopState) : Prop :=
  (Fin 0 <= ls_currentTime s)%num
  ∧ (c - i ≤ free_at (Fin 0) (ls_servers s))%nat
  ∧ Forall (λ e, Num.finite (arrivalTime e) → waitTime e ≡ Fin 0)
      (ls_customers s).

(** Two entities of [cs] that were assigned to the same server are served
    one after the other: the later one starts when the earlier one has
    ended. *)
Definition served_apart (cs : list CustomerRecord) : Prop :=
  ∀ i j e e', (i < j)%nat → cs !! i = Some e → cs !! j = Some e' →
    serverAssigned e = serverAssigned e' →
    (endServiceTime e <= startServiceTime e')%num.

(** The same during a loop: every server is next available when the
    entities that were assigned to it have ended. *)
Definition busy_inv (servers : list number) (cs : list CustomerRecord)
    : Prop :=
  served_apart cs
  ∧ ∀ e y, e ∈ cs → servers !! Z.to_nat (serverAssigned e - 1) = Some y →
      (endServiceTime e <= y)%num.

(** Row [r2] arrives as long after the row before it as [r1] does, the
    two inter-arrival times being the same value, and asks for no longer a
    service. *)
Definition lighter (r1 r2 : DatasetRow) : Prop :=
  row_interArrivalTime r1 ≡ row_interArrivalTime r2
  ∧ (row_serviceTime r2 <= row_serviceTime r1)%num.

(** The sum of the service times of [cs]. *)
Definition busy_time (cs : list CustomerRecord) : Q :=
  Qsum (map (λ e, to_Q (serviceTime e)) cs).

(** A dataset on which the clamp of the utilization acts: on two servers
    the last entity ends at 1 while another one is served until 100. *)
Definition long_then_short : list DatasetRow := [row 0 100; row 0 1].

(** A finite number that is not negative. *)
Definition finite_nonneg (x : number) : Prop :=
  Num.finite x ∧ (Fin 0 <= x)%num.

(** An entity with a finite wait and a finite service time, neither
    negative, whose service ends at a finite time after 0. *)
Definition good_entity (e : CustomerRecord) : Prop :=
  finite_nonneg (waitTime e) ∧ finite_nonneg (serviceTime e)
  ∧ Num.finite (endServiceTime e) ∧ (Fin 0 < endServiceTime e)%num.

(** ** The random-draw path *)

(** The loop of [runSimulation] on [c] servers up to the horizon [d],
    after [n] iterations: the clock is not negative, every entity arrived
    at 0 or later and before [d], and the first one arrived at 0, without
    an inter-arrival time, and was served at once by server 1. *)
Definition horizon_inv (c : nat) (d : Q) (n : nat) (s : SimState) : Prop :=
  (n = 0%nat → s = sim_init (replicate c Num.zero))
  ∧ (Fin 0 <= sim_currentTime s)%num
  ∧ Forall (λ e, (Fin 0 <= arrivalTime e)%num ∧ (arrivalTime e < Fin d)%num)
      (sim_customers s)
  ∧ ∀ e, sim_customers s !! 0%nat = Some e →
      arrivalTime e = Fin 0 ∧ interArrivalTime e = Fin 0
      ∧ waitTime e ≡ Fin 0 ∧ serverAssigned e = 1%Z.

(** ** The dataset adapter *)

(** A row that [parseCSV] accepts. *)
Definition accepted_row (r : DatasetRow) : Prop :=
  accepted (row_interArrivalTime r, row_serviceTime r).

(** The loop on rows without NaN and -Infinity, as the accepted rows,
    which may hold +Infinity: the servers and the clock are never NaN or
    -Infinity, and every entity so far was assigned to one of the [c]
    servers. *)
Definition open_inv (c i : nat) (s : LoopState) : Prop :=
  length (ls_servers s) = c
  ∧ Forall not_low (ls_servers s)
  ∧ not_low (ls_currentTime s)
  ∧ length (ls_customers s) = i
  ∧ Forall (λ e, (1 ≤ serverAssigned e ≤ Z.of_nat c)%Z) (ls_customers s).

(** A text of white space only. *)
Fixpoint all_space (s : string) : bool :=
  match s with
  | String c r => Str.is_space c && all_space r
  | EmptyString => true
  end.

(** ** The page *)

(** +Infinity or an integer that is 1 at least. *)
Definition whole_or_infinite (x : number) : Prop :=
  x = PInf ∨ ∃ k : nat, (1 ≤ k)%nat ∧ x = Num.of_nat k.

(** The scenarios that the handlers keep: the number of servers and the
    duration are integers from 1 on, or +Infinity, no rate is NaN, and a
    dataset has a row at least, all as [parseCSV] accepts them; without a
    dataset there is no file name. *)
Definition scenario_ok (sc : App.Scenario) : Prop :=
  whole_or_infinite (numServers (App.sc_params sc))
  ∧ whole_or_infinite (duration (App.sc_params sc))
  ∧ is_num (arrivalRate (App.sc_params sc))
  ∧ is_num (serviceRate (App.sc_params sc))
  ∧ match App.sc_dataset sc with
    | Some rows => rows ≠ [] ∧ Forall accepted_row rows
    | None => App.sc_fileName sc = EmptyString
    end.

(** How alarming a status is. *)
Definition severity (s : App.Status) : nat :=
  match s with
  | App.danger => 2
  | App.warning => 1
  | App.good => 0
  end.

(** * Predicates of the statements outside the finite numbers

    The statements that a NaN or an infinite time breaks are stated on the
    runs without them: on rows that hold no NaN and no -Infinity, which
    include the rows with +Infinity that [parseCSV] accepts, and on the
    entities whose arrival time the run computed as a finite number. *)

(** [x] is finite or -Infinity. *)
Definition not_high (x : number) : Prop :=
  match x with
  | Fin _ | NInf => True
  | _ => False
  end.

(** A row without NaN and without -Infinity. *)
Definition open_row (r : DatasetRow) : Prop :=
  not_low (row_interArrivalTime r) ∧ not_low (row_serviceTime r).

(** A row of an entity that arrives after the one before it, or with it,
    or never: its inter-arrival time is 0 at least, +Infinity included, and
    its service time is no NaN and not -Infinity. *)
Definition arriving_row (r : DatasetRow) : Prop :=
  (Fin 0 <= row_interArrivalTime r)%num ∧ not_low (row_serviceTime r).


(** The values that a sample at the finite rate [rate] takes when the
    logarithm of the draw is negative: finite or +Infinity at a rate that
    is 0 or more, finite or -Infinity at a negative rate. *)
Definition sample_class (rate : Q) (x : number) : Prop :=
  if Qle_bool 0 rate then not_low x else not_high x.

(** The loop of [runSimulation] at finite rates of any sign: the servers
    stay [c] values of the samples at the service rate, the clock is a
    value of the samples at the arrival rate, and every entity so far was
    assigned to one of the [c] servers. *)
Definition rates_inv (lam mu : Q) (c n : nat) (s : SimState) : Prop :=
  length (sim_servers s) = c
  ∧ Forall (sample_class mu) (sim_servers s)
  ∧ sample_class lam (sim_currentTime s)
  ∧ length (sim_customers s) = n
  ∧ Forall (λ e, (1 ≤ serverAssigned e ≤ Z.of_nat c)%Z) (sim_customers s).

(** The invariants of an output sequence whose arrival times may reach
    +Infinity: the ids are 1, 2, ... in order, the arrival times never
    decrease, every service ends at its start plus the service time, no
    entity that arrives at a finite time has a negative wait, and the wait
    of an entity that arrives at +Infinity is NaN. *)
Definition sequence_open (cs : list CustomerRecord) : Prop :=
  map id cs = seq 1 (length cs)
  ∧ (∀ i j e e', (i ≤ j)%nat → cs !! i = Some e → cs !! j = Some e' →
       (arrivalTime e <= arrivalTime e')%num)
  ∧ Forall (λ e, endServiceTime e = (startServiceTime e + serviceTime e)%num
                 ∧ (Num.finite (arrivalTime e) → (Fin 0 <= waitTime e)%num)
                 ∧ (arrivalTime e = PInf → waitTime e = NaN))
      cs.

(** The same during a loop whose clock is at [now]. *)
Definition sequence_open_inv (now : number) (cs : list CustomerRecord)
    : Prop :=
  sequence_open cs ∧ Forall (λ e, (arrivalTime e <= now)%num) cs.

(** Every entity of [cs] arrived at a finite time. *)
Definition finite_arrivals (cs : list CustomerRecord) : Prop :=
  Forall (λ e, Num.finite (arrivalTime e)) cs.

(** Entity [e2] waits no longer than [e1], and neither wait is negative;
    both may be +Infinity, behind a service that never ends. *)
Definition waits_at_most (e1 e2 : CustomerRecord) : Prop :=
  (Fin 0 <= waitTime e2)%num ∧ (waitTime e2 <= waitTime e1)%num.

(** [totalServiceTime] of the aggregator: the service times added from
    the left. *)
Definition totalServiceTime (cs : list CustomerRecord) : number :=
  foldl (λ sum c, sum + serviceTime c)%num Num.zero cs.

(** ** Inputs of the examples *)

(** A service time that is no number, then a service of 1. *)
Definition nan_service : list DatasetRow :=
  [{| row_interArrivalTime := Fin 0; row_serviceTime := NaN |}; row 0 1].


(** Three customers at once for two servers: both servers are free for
    the first, and the third finds the first server free again before the
    second. *)
Definition three_at_once : list DatasetRow := [row 0 1; row 0 3; row 0 1].

(** A second customer who arrives at +Infinity. *)
Definition never_arrives : list DatasetRow :=
  [row 0 1; {| row_interArrivalTime := PInf; row_serviceTime := Fin 1 |}].

(** Two customers, five minutes of service each, one minute apart, and a
    third who arrives at +Infinity. *)
Definition late_arrival : list DatasetRow :=
  [row 0 5; row 1 5;
   {| row_interArrivalTime := PInf; row_serviceTime := Fin 1 |}].

(** * Properties *)

(** ** Comparisons and arithmetic of numbers *)

Lemma Qltb_true (a b : Q) : negb (Qle_bool b a) = true ↔ a < b.
Proof.
  rewrite negb_true_iff, <- not_true_iff_false, Qle_bool_iff.
  split; [apply Qnot_le_lt | apply Qlt_not_le].
Qed.

Lemma Qltb_false (a b : Q) : negb (Qle_bool b a) = false ↔ b <= a.
Proof. rewrite negb_false_iff. apply Qle_bool_iff. Qed.

Lemma Qeqb_false (a b : Q) : Qeq_bool a b = false ↔ ¬ a == b.
Proof. rewrite <- not_true_iff_false, Qeq_bool_iff. tauto. Qed.

Lemma Qcompare_cases (a b : Q) :
  ((a ?= b) = Lt ∧ a < b)
  ∨ ((a ?= b) = Eq ∧ a == b)
  ∨ ((a ?= b) = Gt ∧ b < a).
Proof.
  destruct (a ?= b) eqn:E.
  - right; left. split; [done|]. by apply Qeq_alt.
  - left. split; [done|]. by apply Qlt_alt.
  - right; right. split; [done|]. by apply Qgt_alt.
Qed.

(** Turns the boolean comparisons of rationals in the context and in the
    goal into propositions. *)
Ltac q_props :=
  repeat match goal with
  | H : negb (Qle_bool _ _) = true |- _ => apply Qltb_true in H
  | H : negb (Qle_bool _ _) = false |- _ => apply Qltb_false in H
  | H : Qle_bool _ _ = true |- _ => apply Qle_bool_iff in H
  | H : Qle_bool _ _ = false |- _ =>
      apply negb_true_iff in H; apply Qltb_true in H
  | H : Qeq_bool _ _ = true |- _ => apply Qeq_bool_iff in H
  | H : Qeq_bool _ _ = false |- _ => apply Qeqb_false in H
  | H : _ || _ = true |- _ => apply orb_true_iff in H; destruct H
  | H : _ || _ = false |- _ => apply orb_false_iff in H; destruct H
  | H : _ && _ = true |- _ => apply andb_true_iff in H; destruct H
  | |- negb (Qle_bool _ _) = true => apply Qltb_true
  | |- negb (Qle_bool _ _) = false => apply Qltb_false
  | |- Qle_bool _ _ = true => apply Qle_bool_iff
  | |- Qle_bool _ _ = false => apply negb_true_iff; apply Qltb_true
  | |- Qeq_bool _ _ = true => apply Qeq_bool_iff
  | |- Qeq_bool _ _ = false => apply Qeqb_false
  end.

Lemma ltb_Fin (a b : Q) : Num.ltb (Fin a) (Fin b) = true ↔ a < b.
Proof. apply Qltb_true. Qed.

Lemma ltb_Fin_false (a b : Q) : Num.ltb (Fin a) (Fin b) = false ↔ b <= a.
Proof. apply Qltb_false. Qed.

Lemma eqb_Fin (a b : Q) : Num.eqb (Fin a) (Fin b) = true ↔ a == b.
Proof. apply Qeq_bool_iff. Qed.

Lemma eqb_Fin_false (a b : Q) : Num.eqb (Fin a) (Fin b) = false ↔ ¬ a == b.
Proof. apply Qeqb_false. Qed.

Lemma leb_Fin (a b : Q) : Num.leb (Fin a) (Fin b) = true ↔ a <= b.
Proof.
  unfold Num.leb; cbn. rewrite orb_true_iff, Qltb_true, Qeq_bool_iff.
  split; [intros [?|?]; lra|intros]. destruct (Qlt_le_dec a b); [by left|].
  right; lra.
Qed.

Lemma leb_Fin_false (a b : Q) : Num.leb (Fin a) (Fin b) = false ↔ b < a.
Proof.
  rewrite <- not_true_iff_false, leb_Fin.
  split; [apply Qnot_le_lt | apply Qlt_not_le].
Qed.

(** Turns the comparisons of finite numbers into comparisons of rationals
    and computes the comparisons with a special value; to be used once the
    numbers at hand are constructors. *)
Ltac num_props :=
  unfold num_le, num_lt, Num.geb, Num.gtb, Num.sub, Num.zero,
    Num.of_nat, Num.of_Z in *;
  cbn [Num.add Num.neg Num.isNaN is_num not_low Num.finite] in *;
  repeat match goal with
  | H : Num.ltb (Fin _) (Fin _) = true |- _ => apply ltb_Fin in H
  | H : Num.ltb (Fin _) (Fin _) = false |- _ => apply ltb_Fin_false in H
  | H : Num.leb (Fin _) (Fin _) = true |- _ => apply leb_Fin in H
  | H : Num.leb (Fin _) (Fin _) = false |- _ => apply leb_Fin_false in H
  | H : Num.eqb (Fin _) (Fin _) = true |- _ => apply eqb_Fin in H
  | H : Num.eqb (Fin _) (Fin _) = false |- _ => apply eqb_Fin_false in H
  | |- Num.ltb (Fin _) (Fin _) = true => apply ltb_Fin
  | |- Num.ltb (Fin _) (Fin _) = false => apply ltb_Fin_false
  | |- Num.leb (Fin _) (Fin _) = true => apply leb_Fin
  | |- Num.leb (Fin _) (Fin _) = false => apply leb_Fin_false
  | |- Num.eqb (Fin _) (Fin _) = true => apply eqb_Fin
  | |- Num.eqb (Fin _) (Fin _) = false => apply eqb_Fin_false
  end;
  cbv [Num.leb Num.ltb Num.eqb orb] in *.

Ltac num_solve :=
  intros; unfold not in *; intros; num_props;
  try tauto; try discriminate; try lra.

Section NumberOrder.

Implicit Types x y z : number.

Lemma num_le_is_num_l x y : (x <= y)%num → is_num x.
Proof. destruct x, y; num_solve. Qed.

Lemma num_le_is_num_r x y : (x <= y)%num → is_num y.
Proof. destruct x, y; num_solve. Qed.

Lemma num_le_refl x : is_num x → (x <= x)%num.
Proof. destruct x; num_solve. Qed.

Lemma num_le_trans x y z : (x <= y)%num → (y <= z)%num → (x <= z)%num.
Proof. destruct x, y, z; num_solve. Qed.

Lemma num_lt_le x y : (x < y)%num → (x <= y)%num.
Proof. destruct x, y; num_solve. Qed.

Lemma num_lt_le_trans x y z : (x < y)%num → (y <= z)%num → (x < z)%num.
Proof. destruct x, y, z; num_solve. Qed.

Lemma num_le_lt_trans x y z : (x <= y)%num → (y < z)%num → (x < z)%num.
Proof. destruct x, y, z; num_solve. Qed.

Lemma num_lt_irrefl x : ¬ (x < x)%num.
Proof. destruct x; num_solve. Qed.

Lemma num_lt_not_le x y : (x < y)%num → ¬ (y <= x)%num.
Proof. destruct x, y; num_solve. Qed.

Lemma num_not_lt_le x y :
  is_num x → is_num y → Num.ltb x y = false → (y <= x)%num.
Proof. destruct x, y; num_solve. Qed.

Lemma num_not_le_lt x y :
  is_num x → is_num y → Num.leb x y = false → (y < x)%num.
Proof. destruct x, y; num_solve. Qed.

Lemma num_le_neq_lt x y : (x <= y)%num → Num.eqb y x = false → (x < y)%num.
Proof. destruct x, y; num_solve. Qed.

Lemma num_eqb_le x y : Num.eqb x y = true → (x <= y)%num.
Proof. destruct x, y; num_solve. Qed.

Lemma num_eqb_sym x y : Num.eqb x y = Num.eqb y x.
Proof.
  destruct x, y; try done. cbn.
  destruct (Qeq_bool q q0) eqn:E, (Qeq_bool q0 q) eqn:E'; q_props; try done;
    exfalso; lra.
Qed.

Lemma num_eqb_refl x : is_num x → Num.eqb x x = true.
Proof. destruct x; num_solve. Qed.

Lemma num_le_antisym x y : (x <= y)%num → (y <= x)%num → Num.eqb x y = true.
Proof. destruct x, y; num_solve. Qed.

End NumberOrder.

(** ** The minimum of the servers and its first index *)

Lemma min2_num (x y : number) :
  is_num x → is_num y → Num.min2 x y = if Num.ltb y x then y else x.
Proof. by destruct x, y. Qed.

Lemma max2_num (x y : number) :
  is_num x → is_num y → Num.max2 x y = if Num.ltb x y then y else x.
Proof. by destruct x, y. Qed.

Lemma min2_spec (x y : number) :
  is_num x → is_num y →
  is_num (Num.min2 x y) ∧ (Num.min2 x y <= x)%num ∧ (Num.min2 x y <= y)%num
  ∧ (Num.min2 x y = x ∨ Num.min2 x y = y).
Proof.
  intros Hx Hy. rewrite min2_num by done.
  destruct (Num.ltb y x) eqn:E; repeat split; auto;
    first [by apply num_le_refl | by apply num_lt_le | by apply num_not_lt_le].
Qed.

Lemma max2_spec (x y : number) :
  is_num x → is_num y → is_num (Num.max2 x y) ∧ is_max x y (Num.max2 x y).
Proof.
  intros Hx Hy. rewrite max2_num by done. unfold is_max.
  destruct (Num.ltb x y) eqn:E; repeat split; auto;
    first [by apply num_le_refl | by apply num_lt_le | by apply num_not_lt_le].
Qed.

Lemma foldl_min2_spec (xs : list number) (acc : number) :
  is_num acc → Forall is_num xs →
  let m := foldl Num.min2 acc xs in
  is_num m ∧ (m <= acc)%num ∧ Forall (λ x, (m <= x)%num) xs
  ∧ (m = acc ∨ m ∈ xs).
Proof.
  revert acc. induction xs as [|x xs IH]; intros acc Hacc Hxs; cbn.
  - repeat split; auto. by apply num_le_refl.
  - inversion Hxs as [|? ? Hx Hxs']; subst.
    destruct (min2_spec acc x Hacc Hx) as (Hm & Hma & Hmx & Hor).
    destruct (IH (Num.min2 acc x) Hm Hxs') as (Hn & Hle & Hall & Hin).
    repeat split; auto.
    + by eapply num_le_trans.
    + constructor; [by eapply num_le_trans|done].
    + destruct Hin as [->|Hin]; [|right; by right].
      destruct Hor as [->| ->]; [by left|right; by left].
Qed.

Lemma Math_min_spec (xs : list number) :
  xs ≠ [] → Forall is_num xs →
  Num.Math_min xs ∈ xs ∧ Forall (λ x, (Num.Math_min xs <= x)%num) xs.
Proof.
  intros Hne Hxs. unfold Num.Math_min.
  destruct (foldl_min2_spec xs PInf I Hxs) as (Hn & _ & Hall & Hin).
  split; [|done]. destruct Hin as [Heq|Hin]; [|done].
  destruct xs as [|x xs]; [done|]. rewrite Heq in Hall |- *.
  inversion Hall as [|? ? Hx _]; subst.
  destruct x; try done. by left.
Qed.

Lemma indexOf_first (xs : list number) (m : number) :
  m ∈ xs → is_num m →
  ∃ k next, indexOf xs m = Z.of_nat k ∧ xs !! k = Some next
    ∧ Num.eqb next m = true
    ∧ ∀ j y, xs !! j = Some y → (j < k)%nat → Num.eqb y m = false.
Proof.
  intros Hin Hm. unfold indexOf.
  destruct (list_find (λ y, Num.eqb y m = true) xs) as [[k next]|] eqn:E.
  - apply list_find_Some in E as (Hk & Heq & Hfirst).
    exists k, next. repeat split; auto.
    intros j y Hj Hlt. specialize (Hfirst j y Hj Hlt).
    by destruct (Num.eqb y m).
  - apply list_find_None in E. rewrite Forall_forall in E.
    destruct (E m Hin). by apply num_eqb_refl.
Qed.

Lemma earliest_min (xs : list number) :
  xs ≠ [] → Forall is_num xs →
  ∃ k next, indexOf xs (Num.Math_min xs) = Z.of_nat k ∧ earliest xs k next.
Proof.
  intros Hne Hxs. destruct (Math_min_spec xs Hne Hxs) as (Hin & Hall).
  assert (is_num (Num.Math_min xs)) as Hm.
  { rewrite Forall_forall in Hxs. by apply Hxs. }
  destruct (indexOf_first xs _ Hin Hm) as (k & next & Hidx & Hk & Heq & Hfirst).
  exists k, next. split; [done|]. rewrite Forall_forall in Hall.
  assert (∀ j y, xs !! j = Some y → (next <= y)%num) as Hle.
  { intros j y Hj. eapply num_le_trans; [by apply num_eqb_le|].
    apply Hall. by eapply list_elem_of_lookup_2. }
  repeat split; auto.
  intros j y Hj Hlt. apply num_le_neq_lt; [by eapply Hle|].
  specialize (Hfirst j y Hj Hlt).
  destruct (Num.eqb y next) eqn:E; [|done].
  rewrite <- Hfirst. symmetry.
  apply num_le_antisym.
  - eapply num_le_trans; [by apply num_eqb_le|by apply num_eqb_le].
  - apply Hall. by eapply list_elem_of_lookup_2.
Qed.

(** ** One assignment of the stepper *)

#[local] Arguments stepper : simpl never.

Lemma is_num_finite (x : number) : Num.finite x → is_num x.
Proof. by destruct x. Qed.

Lemma is_num_not_low (x : number) : not_low x → is_num x.
Proof. by destruct x. Qed.

Lemma not_low_finite (x : number) : Num.finite x → not_low x.
Proof. by destruct x. Qed.

Lemma Forall_is_num_finite (xs : list number) :
  Forall Num.finite xs → Forall is_num xs.
Proof. intros H. eapply Forall_impl; [done|apply is_num_finite]. Qed.

Lemma Forall_is_num_not_low (xs : list number) :
  Forall not_low xs → Forall is_num xs.
Proof. intros H. eapply Forall_impl; [done|apply is_num_not_low]. Qed.

Lemma earliest_lt_length (xs : list number) (k : nat) (next : number) :
  earliest xs k next → (k < length xs)%nat.
Proof. intros (Hk & _). by eapply lookup_lt_Some. Qed.

Lemma stepper_spec (servers : list number) (t s : number) :
  servers ≠ [] → Forall is_num servers → is_num t →
  ∃ k next,
    earliest servers k next
    ∧ asg_serverIndex (stepper servers t s) = Z.of_nat k
    ∧ asg_startServiceTime (stepper servers t s) = Num.max2 t next
    ∧ asg_waitTime (stepper servers t s) = (Num.max2 t next - t)%num
    ∧ asg_endServiceTime (stepper servers t s) = (Num.max2 t next + s)%num
    ∧ asg_servers (stepper servers t s)
      = <[k := (Num.max2 t next + s)%num]> servers.
Proof.
  intros Hne Hnum Ht.
  destruct (earliest_min servers Hne Hnum) as (k & next & Hidx & Hk).
  exists k, next. split; [done|].
  unfold stepper; cbn. rewrite Hidx. unfold array_get, array_set.
  assert ((Z.of_nat k <? 0)%Z = false) as -> by lia.
  rewrite Nat2Z.id. destruct Hk as (-> & _). done.
Qed.

Lemma stepper_length (servers : list number) (t s : number) :
  length (asg_servers (stepper servers t s)) = length servers.
Proof.
  unfold stepper, array_set; cbn. case_match; [done|]. by rewrite length_insert.
Qed.

(** The fields of the record that the loops build from an assignment. *)
Lemma stepper_assigned (servers : list number) (e : CustomerRecord) :
  servers ≠ [] → Forall is_num servers → is_num (arrivalTime e) →
  let a := stepper servers (arrivalTime e) (serviceTime e) in
  waitTime e = asg_waitTime a →
  startServiceTime e = asg_startServiceTime a →
  endServiceTime e = asg_endServiceTime a →
  serverAssigned e = (asg_serverIndex a + 1)%Z →
  assigned servers e (asg_servers a).
Proof.
  intros Hne Hnum Ht a Hw Hs He Hi. subst a.
  destruct (stepper_spec servers (arrivalTime e) (serviceTime e) Hne Hnum Ht)
    as (k & next & Hk & Hidx & Hstart & Hwait & Hend & Hsrv).
  exists k, next. rewrite Hw, Hs, He, Hi, Hidx, Hstart, Hwait, Hend, Hsrv.
  repeat split; try done; try apply Hk.
  all: destruct Hk as (Hk & _);
    assert (is_num next) as Hn
      by (rewrite Forall_forall in Hnum;
          eapply Hnum, list_elem_of_lookup_2, Hk);
    apply (max2_spec _ _ Ht Hn).
Qed.

(** Finite servers and a finite entity give finite times, and a wait that
    is not negative. *)
Lemma stepper_finite (servers : list number) (t s : number) :
  servers ≠ [] → Forall Num.finite servers → Num.finite t → Num.finite s →
  let a := stepper servers t s in
  Forall Num.finite (asg_servers a)
  ∧ Num.finite (asg_startServiceTime a)
  ∧ Num.finite (asg_endServiceTime a)
  ∧ Num.finite (asg_waitTime a)
  ∧ (Fin 0 <= asg_waitTime a)%num.
Proof.
  intros Hne Hfin Ht Hs a; subst a.
  destruct (stepper_spec servers t s Hne (Forall_is_num_finite _ Hfin)
              (is_num_finite _ Ht)) as (k & next & Hk & _ & -> & -> & -> & ->).
  destruct Hk as (Hk & _).
  assert (Num.finite next) as Hn.
  { rewrite Forall_forall in Hfin. eapply Hfin, list_elem_of_lookup_2, Hk. }
  assert (Num.finite (Num.max2 t next) ∧ (t <= Num.max2 t next)%num)
    as [Hm Hle].
  { destruct (max2_spec t next (is_num_finite _ Ht) (is_num_finite _ Hn))
      as (_ & Hle & _ & [E | E]); rewrite E in *; by split. }
  destruct (Num.max2 t next) as [| | |m]; try done.
  destruct t as [| | |t], s as [| | |s]; try done.
  repeat split; try done.
  - by apply Forall_insert.
  - num_solve.
Qed.

(** The same when the servers and the service time may be +Infinity, as
    after a draw of 0: no time is NaN or -Infinity. *)
Lemma stepper_not_low (servers : list number) (t s : number) :
  servers ≠ [] → Forall not_low servers → Num.finite t → not_low s →
  let a := stepper servers t s in
  Forall not_low (asg_servers a)
  ∧ not_low (asg_startServiceTime a)
  ∧ not_low (asg_endServiceTime a)
  ∧ (Fin 0 <= asg_waitTime a)%num.
Proof.
  intros Hne Hfin Ht Hs a; subst a.
  destruct (stepper_spec servers t s Hne (Forall_is_num_not_low _ Hfin)
              (is_num_finite _ Ht)) as (k & next & Hk & _ & -> & -> & -> & ->).
  destruct Hk as (Hk & _).
  assert (not_low next) as Hn.
  { rewrite Forall_forall in Hfin. eapply Hfin, list_elem_of_lookup_2, Hk. }
  assert (not_low (Num.max2 t next) ∧ (t <= Num.max2 t next)%num) as [Hm Hle].
  { destruct (max2_spec t next (is_num_finite _ Ht) (is_num_not_low _ Hn))
      as (_ & Hle & _ & [E | E]); rewrite E in *; split;
      auto using not_low_finite. }
  destruct (Num.max2 t next) as [| | |m]; try done;
  destruct t as [| | |t], s as [| | |s]; try done.
  all: repeat split; try done; try (by apply Forall_insert); num_solve.
Qed.

(** ** The loop of the dataset path *)

Lemma Q_is_int_inject_Z (z : Z) : Q_is_int (inject_Z z) = true.
Proof. unfold Q_is_int; cbn. by rewrite Z.mod_1_r. Qed.

Lemma new_Array_fill_of_nat (c : nat) (v : number) :
  new_Array_fill (Num.of_nat c) v =
  if (Z.of_nat c <? 2 ^ 32)%Z then Normal (replicate c v) else RangeError.
Proof.
  unfold new_Array_fill, Num.of_nat, Num.of_Z.
  rewrite Q_is_int_inject_Z. cbn [andb].
  assert (Qle_bool 0 (inject_Z (Z.of_nat c)) = true) as ->.
  { apply Qle_bool_iff. change 0 with (inject_Z 0). rewrite <- Zle_Qle. lia. }
  cbn [andb Qnum Qden inject_Z]. rewrite Z.div_1_r, Nat2Z.id.
  destruct (Z.of_nat c <? 2 ^ 32)%Z eqn:E.
  - assert (Qle_bool (inject_Z (Z.of_nat c)) (inject_Z (2 ^ 32 - 1)) = true)
      as ->; [|done].
    apply Qle_bool_iff. rewrite <- Zle_Qle. lia.
  - assert (Qle_bool (inject_Z (Z.of_nat c)) (inject_Z (2 ^ 32 - 1)) = false)
      as ->; [|done].
    apply not_true_iff_false. rewrite Qle_bool_iff, <- Zle_Qle. lia.
Qed.

Lemma computeResults_customers (cs : list CustomerRecord) (n d r : number) :
  customers (computeResults cs n d r) = cs.
Proof. unfold computeResults. by destruct cs. Qed.

Lemma dataset_loop_app (i : nat) (rows1 rows2 : list DatasetRow)
    (s : LoopState) :
  dataset_loop i (rows1 ++ rows2) s =
  dataset_loop (i + length rows1) rows2 (dataset_loop i rows1 s).
Proof.
  revert i s. induction rows1 as [|r rows1 IH]; intros i s; cbn.
  - by rewrite Nat.add_0_r.
  - rewrite IH. f_equal. lia.
Qed.

Lemma dataset_state_0 (dataset : list DatasetRow) (c : nat) :
  dataset_state dataset c 0 = dataset_init (replicate c Num.zero).
Proof. unfold dataset_state. by rewrite take_0. Qed.

Lemma dataset_state_S (dataset : list DatasetRow) (c i : nat) (r : DatasetRow) :
  dataset !! i = Some r →
  dataset_state dataset c (S i) = dataset_body i r (dataset_state dataset c i).
Proof.
  intros Hi. unfold dataset_state.
  rewrite (take_S_r _ _ _ Hi), dataset_loop_app. cbn.
  rewrite length_take_le; [done|]. apply lookup_lt_Some in Hi. lia.
Qed.

Lemma dataset_state_all (dataset : list DatasetRow) (c : nat) :
  dataset_state dataset c (length dataset) =
  dataset_loop 0 dataset (dataset_init (replicate c Num.zero)).
Proof. unfold dataset_state. by rewrite firstn_all. Qed.

(** What holds at the start and is kept by the body of the loop holds
    after every iteration. *)
Lemma dataset_state_ind (P : nat → LoopState → Prop)
    (dataset : list DatasetRow) (c : nat) :
  P 0%nat (dataset_init (replicate c Num.zero)) →
  (∀ i r s, dataset !! i = Some r → P i s → P (S i) (dataset_body i r s)) →
  ∀ i, (i ≤ length dataset)%nat → P i (dataset_state dataset c i).
Proof.
  intros H0 HS. induction i as [|i IH]; intros Hi.
  - by rewrite dataset_state_0.
  - destruct (lookup_lt_is_Some_2 dataset i) as [r Hr]; [lia|].
    rewrite (dataset_state_S _ _ _ _ Hr). apply (HS _ _ _ Hr), IH. lia.
Qed.

Lemma runSimulationFromDataset_Normal (dataset : list DatasetRow) (c : nat)
    (res : SimulationResult) :
  runSimulationFromDataset dataset (Num.of_nat c) = Normal res →
  (Z.of_nat c < 2 ^ 32)%Z
  ∧ customers res = ls_customers (dataset_state dataset c (length dataset)).
Proof.
  unfold runSimulationFromDataset. rewrite new_Array_fill_of_nat.
  destruct (Z.of_nat c <? 2 ^ 32)%Z eqn:E; [|done].
  intros [= <-]. split; [lia|].
  by rewrite computeResults_customers, dataset_state_all.
Qed.

(** The summary of the dataset path is the one of the aggregator on the
    entities of the loop, for the duration that ends with the last
    service. *)
Lemma runSimulationFromDataset_summary (dataset : list DatasetRow) (c : nat)
    (res : SimulationResult) :
  runSimulationFromDataset dataset (Num.of_nat c) = Normal res →
  ∃ r,
    res = computeResults
            (ls_customers (dataset_state dataset c (length dataset)))
            (Num.of_nat c)
            (match last (ls_customers
                           (dataset_state dataset c (length dataset)))
             with
             | Some e => endServiceTime e
             | None => Num.zero
             end) r.
Proof.
  unfold runSimulationFromDataset. rewrite new_Array_fill_of_nat.
  destruct (Z.of_nat c <? 2 ^ 32)%Z; [|done]. intros [= <-].
  rewrite <- dataset_state_all. by eexists.
Qed.

Lemma nonempty_length {A} (xs : list A) : (1 ≤ length xs)%nat → xs ≠ [].
Proof. destruct xs; cbn; [lia|done]. Qed.

Lemma dataset_body_clock_finite (i : nat) (r : DatasetRow) (s : LoopState) :
  finite_row r → Num.finite (ls_currentTime s) →
  Num.finite (ls_currentTime (dataset_body i r s)).
Proof.
  intros [Hr _] Ht. cbn. destruct (Nat.eqb i 0), (ls_currentTime s),
    (row_interArrivalTime r); done.
Qed.

Lemma dataset_body_inv (c i : nat) (r : DatasetRow) (s : LoopState) :
  (1 ≤ c)%nat → finite_row r →
  dataset_inv c i s → dataset_inv c (S i) (dataset_body i r s).
Proof.
  intros Hc Hr (Hlen & Hfin & Ht & Hn).
  pose proof (dataset_body_clock_finite i r s Hr Ht) as Ht'.
  destruct (stepper_finite (ls_servers s) (ls_currentTime (dataset_body i r s))
    (row_serviceTime r)) as (Hs & _); try done.
  { apply nonempty_length. lia. }
  { apply Hr. }
  repeat split; try done.
  - cbn. by rewrite stepper_length.
  - cbn. rewrite length_app. cbn. lia.
Qed.

Lemma dataset_state_inv (dataset : list DatasetRow) (c i : nat) :
  (1 ≤ c)%nat → Forall finite_row dataset → (i ≤ length dataset)%nat →
  dataset_inv c i (dataset_state dataset c i).
Proof.
  intros Hc Hrows. apply (dataset_state_ind (dataset_inv c)).
  - repeat split; cbn; try done.
    + by rewrite length_replicate.
    + by apply Forall_replicate.
  - intros j r s Hj. apply dataset_body_inv; [done|].
    rewrite Forall_forall in Hrows. by eapply Hrows, list_elem_of_lookup_2.
Qed.

(** The entities recorded after [i] iterations stay where they are. *)
Lemma dataset_state_customers_prefix (dataset : list DatasetRow) (c i j : nat) :
  (i ≤ j)%nat → (j ≤ length dataset)%nat →
  ls_customers (dataset_state dataset c i)
    `prefix_of` ls_customers (dataset_state dataset c j).
Proof.
  intros Hij. induction Hij as [|j Hij IH]; intros Hj; [done|].
  destruct (lookup_lt_is_Some_2 dataset j) as [r Hr]; [lia|].
  rewrite (dataset_state_S _ _ _ _ Hr). etrans; [apply IH; lia|].
  cbn. by apply prefix_app_r.
Qed.


(** ** The server that an assignment records *)

Lemma assigned_server_range (servers servers' : list number)
    (e : CustomerRecord) :
  assigned servers e servers' →
  (1 ≤ serverAssigned e ≤ Z.of_nat (length servers))%Z
  ∧ servers' !! Z.to_nat (serverAssigned e - 1) = Some (endServiceTime e).
Proof.
  intros (k & next & Hk & _ & _ & _ & -> & ->).
  apply earliest_lt_length in Hk. split; [lia|].
  replace (Z.to_nat (Z.of_nat k + 1 - 1)) with k by lia.
  by apply list_lookup_insert_eq.
Qed.

(** ** The invariants of the output sequence *)

Lemma add_nonneg_le (x y : number) :
  Num.finite x → (Fin 0 <= y)%num → (x <= x + y)%num.
Proof. destruct x, y; num_solve. Qed.

Lemma add_zero_le (x : number) : Num.finite x → (x <= x + Num.zero)%num.
Proof. destruct x; num_solve. Qed.

Lemma sequence_inv_nil (now : number) : sequence_inv now [].
Proof. by repeat split. Qed.

Lemma sequence_inv_snoc (now now' : number) (cs : list CustomerRecord)
    (e : CustomerRecord) :
  sequence_inv now cs →
  (now <= now')%num →
  id e = S (length cs) →
  arrivalTime e = now' →
  (Fin 0 <= waitTime e)%num →
  endServiceTime e = (startServiceTime e + serviceTime e)%num →
  sequence_inv now' (cs ++ [e]).
Proof.
  intros ((Hids & Hsort & Hall) & Hnow) Hle Hid Harr Hw Hend.
  pose proof (num_le_is_num_r _ _ Hle) as Hnum.
  assert (∀ x, (arrivalTime x <= now)%num → (arrivalTime x <= now')%num) as Hup.
  { intros x Hx. by eapply num_le_trans. }
  repeat split.
  - rewrite map_app, length_app, Hids. cbn. rewrite Hid.
    replace (length cs + 1)%nat with (S (length cs)) by lia.
    by rewrite seq_S.
  - intros i j x y Hij Hx Hy.
    destruct (decide (j < length cs)%nat) as [Hj|Hj].
    + rewrite lookup_app_l in Hx, Hy by lia. exact (Hsort i j x y Hij Hx Hy).
    + rewrite lookup_app_r in Hy by lia.
      destruct (j - length cs)%nat eqn:Ej; [|by destruct n].
      injection Hy as <-. rewrite Harr.
      destruct (decide (i < length cs)%nat) as [Hi|Hi].
      * rewrite lookup_app_l in Hx by lia. apply Hup.
        rewrite Forall_forall in Hnow. by eapply Hnow, list_elem_of_lookup_2.
      * rewrite lookup_app_r in Hx by lia.
        destruct (i - length cs)%nat eqn:Ei; [|by destruct n].
        injection Hx as <-. rewrite Harr. by apply num_le_refl.
  - apply Forall_app. split; [done|]. by repeat constructor.
  - apply Forall_app. split.
    + eapply Forall_impl; [apply Hnow|]. apply Hup.
    + repeat constructor. rewrite Harr. by apply num_le_refl.
Qed.

(** ** The servers that are available at a time *)

Lemma free_at_insert (t m e : number) (xs : list number) (k : nat) :
  xs !! k = Some m →
  (free_at t (<[k := e]> xs) + (if Num.leb m t then 1 else 0)
   = free_at t xs + (if Num.leb e t then 1 else 0))%nat.
Proof.
  revert k. induction xs as [|x xs IH]; intros k Hk; [done|].
  destruct k as [|k].
  - cbn -[Num.leb] in *. injection Hk as ->. clear IH.
    destruct (Num.leb e t), (Num.leb m t); lia.
  - specialize (IH k Hk).
    change (free_at t (<[S k:=e]> (x :: xs)))
      with ((if Num.leb x t then 1 else 0) + free_at t (<[k:=e]> xs))%nat.
    cbn [free_at].
    destruct (Num.leb e t), (Num.leb m t), (Num.leb x t); lia.
Qed.

Lemma free_at_replicate (t x : number) (c : nat) :
  free_at t (replicate c x) = if Num.leb x t then c else 0%nat.
Proof.
  induction c as [|c IH]; cbn; [by destruct (Num.leb x t)|].
  rewrite IH. by destruct (Num.leb x t).
Qed.

Lemma free_at_elem (t x : number) (xs : list number) :
  x ∈ xs → (x <= t)%num → (1 ≤ free_at t xs)%nat.
Proof.
  induction 1 as [x xs|x y xs Hin IH]; intros Hle; cbn.
  - rewrite Hle. lia.
  - specialize (IH Hle). lia.
Qed.

Lemma free_at_pos (t : number) (xs : list number) :
  (1 ≤ free_at t xs)%nat → ∃ x, x ∈ xs ∧ (x <= t)%num.
Proof.
  induction xs as [|x xs IH]; cbn; [lia|].
  destruct (Num.leb x t) eqn:E.
  - intros _. exists x. split; [by left|done].
  - intros H. destruct IH as (y & Hy & Hle); [lia|].
    exists y. split; [by right|done].
Qed.

Lemma free_at_none (t m : number) (xs : list number) :
  Forall (λ x, (m <= x)%num) xs → Num.leb m t = false → free_at t xs = 0%nat.
Proof.
  intros Hall Hm. destruct (free_at t xs) eqn:E; [done|].
  destruct (free_at_pos t xs) as (x & Hx & Hle); [lia|].
  rewrite Forall_forall in Hall.
  pose proof (num_le_trans _ _ _ (Hall x Hx) Hle) as Hmt.
  unfold num_le in Hmt. congruence.
Qed.

Lemma inject_Z_pos (n : nat) : (1 ≤ n)%nat → 0 < inject_Z (Z.of_nat n).
Proof. intros Hn. change 0 with (inject_Z 0). rewrite <- Zlt_Qlt. lia. Qed.

Lemma Qcompare_Gt (a : Q) : 0 < a → (a ?= 0) = Gt.
Proof.
  intros Ha. destruct (Qcompare_cases a 0) as [[E ?]|[[E ?]|[E ?]]];
    try done; lra.
Qed.

(** ** The sums and the maximum of the aggregator *)

Lemma max2_spec_l (x y : number) :
  is_num x → is_num y →
  is_num (Num.max2 x y) ∧ (x <= Num.max2 x y)%num ∧ (y <= Num.max2 x y)%num
  ∧ (Num.max2 x y = x ∨ Num.max2 x y = y).
Proof.
  intros Hx Hy. destruct (max2_spec x y Hx Hy) as (? & ? & ? & ?). auto.
Qed.

Lemma foldl_max2_spec (xs : list number) (acc : number) :
  is_num acc → Forall is_num xs →
  let m := foldl Num.max2 acc xs in
  is_num m ∧ (acc <= m)%num ∧ Forall (λ x, (x <= m)%num) xs
  ∧ (m = acc ∨ m ∈ xs).
Proof.
  revert acc. induction xs as [|x xs IH]; intros acc Hacc Hxs; cbn.
  - repeat split; auto. by apply num_le_refl.
  - inversion Hxs as [|? ? Hx Hxs']; subst.
    destruct (max2_spec_l acc x Hacc Hx) as (Hm & Hma & Hmx & Hor).
    destruct (IH (Num.max2 acc x) Hm Hxs') as (Hn & Hle & Hall & Hin).
    repeat split; auto.
    + by eapply num_le_trans.
    + constructor; [by eapply num_le_trans|done].
    + destruct Hin as [->|Hin]; [|right; by right].
      destruct Hor as [->| ->]; [by left|right; by left].
Qed.

Lemma Math_max_spec (xs : list number) :
  xs ≠ [] → Forall Num.finite xs → is_maximum (Num.Math_max xs) xs.
Proof.
  intros Hne Hxs. unfold Num.Math_max, is_maximum.
  destruct (foldl_max2_spec xs NInf I (Forall_is_num_finite _ Hxs))
    as (Hn & _ & Hall & Hin).
  split; [|done]. destruct Hin as [Heq|Hin]; [|done].
  destruct xs as [|x xs]; [done|]. rewrite Heq in Hall.
  inversion Hall as [|? ? Hx _]; subst.
  inversion Hxs as [|? ? Hfx _]; subst. by destruct x.
Qed.

(** The sum that [reduce] computes from the left is the sum of the list. *)
Lemma foldl_sum (f : CustomerRecord → number) (cs : list CustomerRecord)
    (a : Q) :
  Forall (λ e, Num.finite (f e)) cs →
  foldl (λ sum c, sum + f c)%num (Fin a) cs
    ≡ Fin (a + Qsum (map (λ e, to_Q (f e)) cs)).
Proof.
  intros Hall. revert a. unfold Qsum.
  induction Hall as [|e cs He Hall IH]; intros a; cbn.
  - unfold equiv, number_equiv; cbn. lra.
  - destruct (f e) as [| | |w] eqn:E; try done. cbn.
    specialize (IH (a + w)).
    destruct (foldl _ _ _); try done.
    unfold equiv, number_equiv in *; cbn in *. lra.
Qed.

(** ** The lines that [parseCSV] keeps *)

Lemma parse_line_accepted (header : string) (rows : list DatasetRow)
    (line : string) :
  parse_line (columns header).1 (columns header).2 rows line =
  rows ++ (if decide (accepted (selected header line))
           then [to_row (selected header line)] else []).
Proof.
  unfold parse_line, selected. destruct (columns header) as [iatCol stCol].
  cbn [fst snd].
  set (iat := Str.parseFloat _). set (st := Str.parseFloat _).
  destruct (decide (accepted (iat, st))) as [(H1 & H2 & H3 & H4)|Hn];
    cbn [fst snd] in *.
  - unfold num_le, num_lt in *. unfold Num.geb, Num.gtb, Num.zero.
    rewrite H3, H4. by destruct iat, st.
  - unfold accepted, num_le, num_lt in Hn. cbn [fst snd] in Hn.
    unfold Num.geb, Num.gtb, Num.zero.
    destruct (negb (Num.isNaN iat) && negb (Num.isNaN st)
              && Num.leb (Fin 0) iat && Num.ltb (Fin 0) st) eqn:E;
      [|by rewrite app_nil_r].
    destruct Hn. repeat (apply andb_true_iff in E as [E ?]).
    by destruct iat, st.
Qed.

Lemma foldl_parse_line (header : string) (data : list string)
    (rows : list DatasetRow) :
  foldl (parse_line (columns header).1 (columns header).2) rows data =
  rows ++ map to_row (filter accepted (map (selected header) data)).
Proof.
  revert rows. induction data as [|line data IH]; intros rows;
    cbn -[parse_line columns selected].
  - by rewrite app_nil_r.
  - rewrite IH, parse_line_accepted, <- app_assoc. f_equal.
    by destruct (decide (accepted _)).
Qed.

Lemma computeResults_counts (cs : list CustomerRecord) (n d r : number) :
  customersServed (computeResults cs n d r)
    = totalCustomers (computeResults cs n d r)
  ∧ totalCustomers (computeResults cs n d r)
    = length (customers (computeResults cs n d r)).
Proof. unfold computeResults. by destruct cs. Qed.


(** * The random-draw path *)

#[local] Arguments sim_body : simpl never.

Section RandomDraws.

Variable Math_log : number → number.
Variable Math_random : nat → Q.

(** [Math.log] is at most 0 on [0, 1), where -Infinity is at most 0, and
    [Math.random] draws from [0, 1). *)
Hypothesis log_sign :
  ∀ q : Q, 0 <= q → q < 1 → (Math_log (Fin q) <= Fin 0)%num.
Hypothesis random_range : ∀ n : nat, 0 <= Math_random n ∧ Math_random n < 1.

(** ** The loop *)

(** A sample at a positive rate is not negative; it is +Infinity when
    the logarithm of the draw is -Infinity, as at a draw of 0. *)
Lemma sample_not_low (rate : Q) (calls : nat) :
  0 < rate →
  not_low (value (exponentialRandom Math_log Math_random (Fin rate) calls).1)
  ∧ (Fin 0
     <= value (exponentialRandom Math_log Math_random (Fin rate) calls).1)%num.
Proof.
  intros Hrate. cbn.
  destruct (random_range calls) as [H0 H1].
  pose proof (log_sign _ H0 H1) as Hlog.
  destruct (Math_log (Fin (Math_random calls))) as [| | |l]; try done; cbn.
  - destruct (Qcompare_cases rate 0) as [[E ?]|[[E ?]|[E ?]]]; rewrite E;
      try lra. done.
  - destruct (Qcompare_cases rate 0) as [[E ?]|[[E ?]|[E ?]]]; rewrite E;
      try lra. split; [done|]. num_props.
    apply Qle_shift_div_l; lra.
Qed.

(** One more iteration after [n]. *)
Lemma sim_state_at_S (p : SimulationParams) (n : nat) (s0 : SimState) :
  sim_state_at Math_log Math_random p (S n) s0 =
  s ← sim_state_at Math_log Math_random p n s0;
  if (sim_currentTime s <? duration p)%num then
    match sim_body Math_log Math_random p s with
    | Continue s' => Some s'
    | Break _ => None
    end
  else None.
Proof.
  revert s0. induction n as [|n IH]; intros s0.
  - cbn. destruct (_ <? _)%num; [|done].
    by destruct (sim_body Math_log Math_random p s0).
  - change (sim_state_at Math_log Math_random p (S (S n)) s0) with
      (if (sim_currentTime s0 <? duration p)%num then
         match sim_body Math_log Math_random p s0 with
         | Continue s' => sim_state_at Math_log Math_random p (S n) s'
         | Break _ => None
         end
       else None).
    destruct (sim_currentTime s0 <? duration p)%num eqn:E.
    + destruct (sim_body Math_log Math_random p s0) as [s'|s'] eqn:Eb.
      * rewrite IH. cbn [sim_state_at]. by rewrite E, Eb.
      * cbn [sim_state_at]. by rewrite E, Eb.
    + cbn [sim_state_at]. by rewrite E.
Qed.

Lemma sim_state_at_S_inv (p : SimulationParams) (n : nat) (s0 s' : SimState) :
  sim_state_at Math_log Math_random p (S n) s0 = Some s' →
  ∃ s, sim_state_at Math_log Math_random p n s0 = Some s
    ∧ (sim_currentTime s <? duration p)%num = true
    ∧ sim_body Math_log Math_random p s = Continue s'.
Proof.
  rewrite sim_state_at_S.
  destruct (sim_state_at Math_log Math_random p n s0) as [s|]; [|done].
  cbn. destruct (_ <? _)%num eqn:E; [|done].
  destruct (sim_body Math_log Math_random p s) eqn:Eb; [|done].
  intros [= <-]. by exists s.
Qed.

(** What holds at the start and is kept by the iterations that go on
    holds after every iteration. *)
Lemma sim_state_at_ind (P : nat → SimState → Prop) (p : SimulationParams)
    (s0 : SimState) :
  P 0%nat s0 →
  (∀ n s s', P n s → (sim_currentTime s <? duration p)%num = true →
     sim_body Math_log Math_random p s = Continue s' → P (S n) s') →
  ∀ n s, sim_state_at Math_log Math_random p n s0 = Some s → P n s.
Proof.
  intros H0 HS. induction n as [|n IH]; intros s Hs.
  - by injection Hs as <-.
  - apply sim_state_at_S_inv in Hs as (s1 & Hs1 & Hg & Hb).
    eapply HS; eauto.
Qed.

Lemma sim_state_at_le (p : SimulationParams) (n m : nat) (s0 s : SimState) :
  (m ≤ n)%nat → sim_state_at Math_log Math_random p n s0 = Some s →
  ∃ s', sim_state_at Math_log Math_random p m s0 = Some s'
    ∧ sim_customers s' `prefix_of` sim_customers s.
Proof.
  intros Hmn. revert s. induction Hmn as [|n Hmn IH]; intros s Hs.
  - by exists s.
  - apply sim_state_at_S_inv in Hs as (s1 & Hs1 & Hg & Hb).
    destruct (IH _ Hs1) as (s' & Hs' & Hpre). exists s'. split; [done|].
    etrans; [done|]. unfold sim_body in Hb.
    destruct (exponentialRandom Math_log Math_random _ _) as [iat calls].
    destruct (_ >=? _)%num; [done|].
    destruct (exponentialRandom Math_log Math_random _ _) as [st calls'].
    injection Hb as <-. cbn. by apply prefix_app_r.
Qed.

(** The loop ends in the state of some iteration, up to the variables
    that the [break] leaves changed. *)
Lemma sim_loop_final (fuel : nat) (p : SimulationParams) (s0 sf : SimState) :
  sim_loop Math_log Math_random fuel p s0 = Some sf →
  ∃ n s,
    sim_state_at Math_log Math_random p n s0 = Some s
    ∧ sim_customers sf = sim_customers s.
Proof.
  revert s0. induction fuel as [|fuel IH]; intros s0; cbn.
  - destruct (_ <? _)%num; [done|]. intros [= <-]. by exists 0%nat, s0.
  - destruct (_ <? _)%num eqn:E; [|intros [= <-]; by exists 0%nat, s0].
    destruct (sim_body Math_log Math_random p s0) as [s'|s'] eqn:Eb.
    + intros Hl. destruct (IH _ Hl) as (n & s & Hs & Hc).
      exists (S n), s. split; [|done]. cbn. by rewrite E, Eb.
    + intros [= <-]. exists 0%nat, s0. split; [done|].
      unfold sim_body in Eb.
      destruct (exponentialRandom Math_log Math_random _ _) as [iat calls].
      destruct (_ >=? _)%num.
      * by injection Eb as <-.
      * by destruct (exponentialRandom Math_log Math_random _ _).
Qed.

(** An iteration that goes on appends one entity, built from two draws
    and the assignment of the stepper. *)
Lemma sim_body_Continue (p : SimulationParams) (s s' : SimState) :
  sim_body Math_log Math_random p s = Continue s' →
  ∃ e, sim_customers s' = sim_customers s ++ [e]
    ∧ sim_customerId s' = S (sim_customerId s)
    ∧ id e = S (sim_customerId s)
    ∧ arrivalTime e = sim_currentTime s'
    ∧ sim_currentTime s' =
        (sim_currentTime s +
         if Nat.eqb (S (sim_customerId s)) 1 then Num.zero
         else value (exponentialRandom Math_log Math_random (arrivalRate p)
                       (sim_calls s)).1)%num
    ∧ (sim_currentTime s' >=? duration p)%num = false
    ∧ serviceTime e =
        value (exponentialRandom Math_log Math_random (serviceRate p)
                 (S (sim_calls s))).1
    ∧ sim_servers s' =
        asg_servers (stepper (sim_servers s) (arrivalTime e) (serviceTime e))
    ∧ waitTime e =
        asg_waitTime (stepper (sim_servers s) (arrivalTime e) (serviceTime e))
    ∧ startServiceTime e =
        asg_startServiceTime
          (stepper (sim_servers s) (arrivalTime e) (serviceTime e))
    ∧ endServiceTime e =
        asg_endServiceTime
          (stepper (sim_servers s) (arrivalTime e) (serviceTime e))
    ∧ serverAssigned e =
        (asg_serverIndex
           (stepper (sim_servers s) (arrivalTime e) (serviceTime e)) + 1)%Z.
Proof.
  unfold sim_body. cbn [exponentialRandom].
  destruct (_ >=? _)%num eqn:E; [done|]. intros [= <-].
  eexists. cbn. repeat split; try done.
Qed.

Lemma sim_body_inv (lam mu d : Q) (c n : nat) (s s' : SimState) :
  0 < lam → 0 < mu → (1 ≤ c)%nat →
  sim_body Math_log Math_random (params lam mu c d) s = Continue s' →
  sim_inv c n s → sim_inv c (S n) s'.
Proof.
  intros Hlam Hmu Hc Hb (Hlen & Hsrv & Ht & Hid & Hn).
  apply sim_body_Continue in Hb
    as (e & Hcs & Hid' & _ & Harr & Hnow & Hge & Hst & Hsrv' & _).
  assert (Num.finite (sim_currentTime s')) as Ht'.
  { destruct (sample_not_low lam (sim_calls s) Hlam) as (Hv & _).
    rewrite Hnow in Hge |- *. cbn [arrivalRate params] in *.
    destruct (sim_currentTime s); try done.
    destruct (Nat.eqb _ 1); [done|].
    destruct (value _); done. }
  destruct (sample_not_low mu (S (sim_calls s)) Hmu) as (Hv & _).
  destruct (stepper_not_low (sim_servers s) (arrivalTime e) (serviceTime e))
    as (Hs & _).
  { apply nonempty_length. lia. }
  { done. }
  { by rewrite Harr. }
  { by rewrite Hst. }
  repeat split.
  - by rewrite Hsrv', stepper_length.
  - by rewrite Hsrv'.
  - done.
  - by rewrite Hid', Hid.
  - rewrite Hcs, length_app. cbn. lia.
Qed.

Lemma sim_init_inv (c : nat) : sim_inv c 0 (sim_init (replicate c Num.zero)).
Proof.
  repeat split; cbn; try done.
  - by rewrite length_replicate.
  - by apply Forall_replicate.
Qed.

Lemma sim_state_at_inv (lam mu d : Q) (c n : nat) (s : SimState) :
  0 < lam → 0 < mu → (1 ≤ c)%nat →
  sim_state_at Math_log Math_random (params lam mu c d) n
    (sim_init (replicate c Num.zero)) = Some s →
  sim_inv c n s.
Proof.
  intros Hlam Hmu Hc. apply (sim_state_at_ind (sim_inv c)).
  - apply sim_init_inv.
  - intros m s1 s2 Hinv _ Hb. by apply (sim_body_inv lam mu d c m s1 s2).
Qed.

Lemma runSimulation_Normal (fuel : nat) (lam mu d : Q) (c : nat)
    (res : SimulationResult) :
  runSimulation Math_log Math_random fuel (params lam mu c d)
    = Some (Normal res) →
  (Z.of_nat c < 2 ^ 32)%Z
  ∧ ∃ n s,
      sim_state_at Math_log Math_random (params lam mu c d) n
        (sim_init (replicate c Num.zero)) = Some s
      ∧ customers res = sim_customers s.
Proof.
  unfold runSimulation. cbn [numServers params].
  rewrite new_Array_fill_of_nat.
  destruct (Z.of_nat c <? 2 ^ 32)%Z eqn:E; [|done].
  destruct (sim_loop Math_log Math_random _ _ _) as [sf|] eqn:El; [|done].
  cbn. intros [= <-]. split; [lia|].
  apply sim_loop_final in El as (n & s & Hs & Hc).
  exists n, s. split; [done|]. by rewrite computeResults_customers.
Qed.

(** The entity of the output at index [i] is the one that iteration [i]
    appends. *)
Lemma sim_output_entity (fuel : nat) (lam mu d : Q) (c i : nat)
    (res : SimulationResult) (e : CustomerRecord) :
  0 < lam → 0 < mu → (1 ≤ c)%nat →
  runSimulation Math_log Math_random fuel (params lam mu c d)
    = Some (Normal res) →
  customers res !! i = Some e →
  ∃ s s',
    sim_state_at Math_log Math_random (params lam mu c d) i
      (sim_init (replicate c Num.zero)) = Some s
    ∧ sim_state_at Math_log Math_random (params lam mu c d) (S i)
        (sim_init (replicate c Num.zero))
      = Some s'
    ∧ sim_inv c i s
    ∧ sim_body Math_log Math_random (params lam mu c d) s = Continue s'
    ∧ sim_customers s' = sim_customers s ++ [e].
Proof.
  intros Hlam Hmu Hc Hrun He.
  apply runSimulation_Normal in Hrun as (_ & n & sn & Hsn & Hcs).
  rewrite Hcs in He.
  pose proof (sim_state_at_inv _ _ _ _ _ _ Hlam Hmu Hc Hsn)
    as (_ & _ & _ & _ & Hlen).
  pose proof (lookup_lt_Some _ _ _ He) as Hi. rewrite Hlen in Hi.
  destruct (sim_state_at_le _ n (S i) _ _ Hi Hsn) as (s' & Hs' & Hpre).
  destruct (sim_state_at_S_inv _ _ _ _ Hs') as (s & Hs & _ & Hb).
  pose proof (sim_state_at_inv _ _ _ _ _ _ Hlam Hmu Hc Hs) as Hinv.
  exists s, s'. repeat split; try done; try apply Hinv.
  destruct (sim_body_Continue _ _ _ Hb) as (e' & Hcs' & _).
  rewrite Hcs'. f_equal. f_equal.
  destruct Hinv as (_ & _ & _ & _ & Hlen').
  eapply (prefix_lookup_Some _ _ i e') in Hpre.
  - rewrite He in Hpre. by injection Hpre.
  - by rewrite Hcs', lookup_app_r, Hlen', Nat.sub_diag by lia.
Qed.

(** ** Its entities *)

Lemma sim_entity_assigned (fuel : nat) (lam mu d : Q) (c i : nat)
    (res : SimulationResult) (e : CustomerRecord) :
  0 < lam → 0 < mu → (1 ≤ c)%nat →
  runSimulation Math_log Math_random fuel (params lam mu c d)
    = Some (Normal res) →
  customers res !! i = Some e →
  ∃ s s',
    sim_state_at Math_log Math_random (params lam mu c d) i
      (sim_init (replicate c Num.zero)) = Some s
    ∧ sim_state_at Math_log Math_random (params lam mu c d) (S i)
        (sim_init (replicate c Num.zero)) = Some s'
    ∧ length (sim_servers s) = c
    ∧ assigned (sim_servers s) e (sim_servers s').
Proof.
  intros Hlam Hmu Hc Hrun He.
  destruct (sim_output_entity fuel lam mu d c i res e Hlam Hmu Hc Hrun He)
    as (s & s' & Hs & Hs' & Hinv & Hb & Hcs).
  exists s, s'. destruct Hinv as (Hlen & Hsrv & Ht & _).
  repeat split; try done.
  destruct (sim_body_Continue _ _ _ Hb)
    as (e' & Hcs' & _ & _ & Harr & Hnow & Hge & _ & -> & Hw & Hst & Hend
        & Hidx).
  rewrite Hcs in Hcs'. apply app_inv_head in Hcs'. injection Hcs' as <-.
  apply stepper_assigned; try done.
  - apply nonempty_length. lia.
  - by apply Forall_is_num_not_low.
  - apply is_num_finite. rewrite Harr.
    pose proof (sim_state_at_inv lam mu d c (S i) s' Hlam Hmu Hc Hs')
      as (_ & _ & Ht' & _).
    done.
Qed.

Lemma sim_body_sequence (lam mu d : Q) (c n : nat) (s s' : SimState) :
  0 < lam → 0 < mu → (1 ≤ c)%nat →
  sim_body Math_log Math_random (params lam mu c d) s = Continue s' →
  sim_inv c n s →
  sequence_inv (sim_currentTime s) (sim_customers s) →
  sequence_inv (sim_currentTime s') (sim_customers s').
Proof.
  intros Hlam Hmu Hc Hb Hinv Hseq.
  pose proof (sim_body_inv lam mu d c n s s' Hlam Hmu Hc Hb Hinv)
    as (_ & _ & Ht' & _).
  destruct Hinv as (Hlen & Hsrv & Ht & Hid & Hn).
  destruct (sim_body_Continue _ _ _ Hb)
    as (e & Hcs & _ & Hide & Harr & Hnow & _ & Hst & _ & Hw & Hstart & Hend
        & _).
  destruct (sample_not_low lam (sim_calls s) Hlam) as (_ & Hiat).
  destruct (sample_not_low mu (S (sim_calls s)) Hmu) as (Hv & _).
  cbn [serviceRate arrivalRate params] in *.
  destruct (stepper_not_low (sim_servers s) (arrivalTime e) (serviceTime e))
    as (_ & _ & _ & Hwait).
  { apply nonempty_length. lia. }
  { done. }
  { by rewrite Harr. }
  { by rewrite Hst. }
  rewrite Hcs. eapply sequence_inv_snoc; try done.
  - rewrite Hnow. destruct (Nat.eqb _ 1);
      [by apply add_zero_le|by apply add_nonneg_le].
  - by rewrite Hide, Hid, Hn.
  - by rewrite Hw.
  - by rewrite Hend, Hstart.
Qed.

Lemma sim_state_at_sequence (lam mu d : Q) (c n : nat) (s : SimState) :
  0 < lam → 0 < mu → (1 ≤ c)%nat →
  sim_state_at Math_log Math_random (params lam mu c d) n
    (sim_init (replicate c Num.zero)) = Some s →
  sequence_inv (sim_currentTime s) (sim_customers s).
Proof.
  intros Hlam Hmu Hc Hs.
  cut (sim_inv c n s ∧ sequence_inv (sim_currentTime s) (sim_customers s));
    [by intros []|].
  revert n s Hs.
  apply (sim_state_at_ind (λ n s, sim_inv c n s
                   ∧ sequence_inv (sim_currentTime s) (sim_customers s))).
  - split; [apply sim_init_inv|apply sequence_inv_nil].
  - intros n s s' [Hinv Hseq] _ Hb. split.
    + by apply (sim_body_inv lam mu d c n s s').
    + by apply (sim_body_sequence lam mu d c n s s').
Qed.


(** ** The counts of the summary *)

(** C9.  In the summary that either run returns, the served count, the
    total count and the length of the entity sequence are the same
    number. *)
Theorem served_equals_total :
  (∀ (dataset : list DatasetRow) (numServers : number)
     (res : SimulationResult),
     runSimulationFromDataset dataset numServers = Normal res →
     customersServed res = totalCustomers res
     ∧ totalCustomers res = length (customers res))
  ∧
  (∀ (fuel : nat) (params : SimulationParams) (res : SimulationResult),
     runSimulation Math_log Math_random fuel params = Some (Normal res) →
     customersServed res = totalCustomers res
     ∧ totalCustomers res = length (customers res)).
Proof.
  split.
  - intros dataset n res. unfold runSimulationFromDataset.
    destruct (new_Array_fill n Num.zero); [|done]. intros [= <-].
    apply computeResults_counts.
  - intros fuel p res. unfold runSimulation.
    destruct (new_Array_fill _ _); [|done].
    destruct (sim_loop _ _ _ _ _); [|done]. cbn. intros [= <-].
    apply computeResults_counts.
Qed.

End RandomDraws.

(** * The round trip, the aggregator and the dataset adapter *)

(** ** The examples' logarithm and draws *)

Lemma log_standin_sign (q : Q) :
  0 <= q → q < 1 → (log_standin (Fin q) <= Fin 0)%num.
Proof.
  intros H0 H1. unfold log_standin.
  destruct (Qeq_bool q 0); [done|]. num_solve.
Qed.

Lemma half_quarter_range (n : nat) : 0 <= half_quarter n ∧ half_quarter n < 1.
Proof. unfold half_quarter. destruct (Nat.even n); split; lra. Qed.

(** C4.  [parseCSV] on the header line [iat,service] and the data lines
    [2,3] and [4,1] returns the pairs (2, 3) and (4, 1), and
    [runSimulationFromDataset] on these pairs with one server gives an
    entity 1 with arrival 0, wait 0 and end of service 3, and an entity 2
    with arrival 4, start of service 4, wait 0 and end of service 5. *)
Theorem dataset_round_trip :
  parseCSV round_trip_blob = two_rows
  ∧ ∃ res e1 e2,
      runSimulationFromDataset two_rows (Num.of_nat 1) = Normal res
      ∧ customers res = [e1; e2]
      ∧ id e1 = 1%nat
      ∧ arrivalTime e1 = Fin 0
      ∧ waitTime e1 = Fin 0
      ∧ endServiceTime e1 = Fin 3
      ∧ id e2 = 2%nat
      ∧ arrivalTime e2 = Fin 4
      ∧ startServiceTime e2 = Fin 4
      ∧ waitTime e2 = Fin 0
      ∧ endServiceTime e2 = Fin 5.
Proof.
  split; [vm_compute; reflexivity|].
  eexists _, _, _. split; [vm_compute; reflexivity|].
  split; [vm_compute; reflexivity|]. by repeat split.
Qed.

(** C7 as stated fails: no parameter set is rejected for a zero duration,
    for no server, or for a zero or a negative rate.  The run returns the
    summary of no entity, a summary of NaN, or summaries with an infinite
    service, an infinite wait or a negative utilization. *)
Lemma invalid_parameters_are_not_rejected :
  runSimulation log_standin half_quarter 10 (params 1 1 1 0)
    = Some (Normal zero_summary)
  ∧ (∃ res,
       runSimulation log_standin half_quarter 10 (params 1 1 0 2)
         = Some (Normal res)
       ∧ avgWaitTime res = NaN)
  ∧ (∃ res,
       runSimulation log_standin half_quarter 10 (params 0 1 1 2)
         = Some (Normal res)
       ∧ totalCustomers res = 1%nat)
  ∧ (∃ res,
       runSimulation log_standin half_quarter 10 (params 1 0 1 2)
         = Some (Normal res)
       ∧ maxWaitTime res = PInf)
  ∧ (∃ res,
       runSimulation log_standin half_quarter 10 (params 1 (-1) 1 2)
         = Some (Normal res)
       ∧ (serverUtilization res < Fin 0)%num).
Proof.
  split; [vm_compute; reflexivity|].
  repeat split; eexists; (split; [vm_compute; reflexivity|]);
    vm_compute; reflexivity.
Qed.




(** The lines that are dropped, the blobs of fewer than 2 lines, and the
    line ends. *)
Example parseCSV_mixed_lines :
  parseCSV mixed_blob = [row 2 3; row 1.5 20]
  ∧ parseCSV "iat,service" = []
  ∧ parseCSV ("iat,service" ++ LF)%string = []
  ∧ parseCSV "" = []
  ∧ parseCSV crlf_blob = two_rows.
Proof. repeat split; vm_compute; reflexivity. Qed.

(** ** Outside the finite numbers *)

(** [parseFloat] reads [Infinity] as a number, and the comparisons of
    [parseCSV] accept it; the entity then arrives at +Infinity and its wait,
    Infinity - Infinity, is NaN. *)
Example infinite_inter_arrival_time :
  parseCSV infinite_blob
    = [row 0 1; {| row_interArrivalTime := PInf; row_serviceTime := Fin 1 |}]
  ∧ ∃ res e,
      runSimulationFromDataset (parseCSV infinite_blob) (Num.of_nat 1)
        = Normal res
      ∧ customers res !! 1%nat = Some e
      ∧ arrivalTime e = PInf
      ∧ waitTime e = NaN.
Proof.
  split; [vm_compute; reflexivity|].
  eexists _, _. split; [vm_compute; reflexivity|].
  split; [vm_compute; reflexivity|]. split; reflexivity.
Qed.

(** * Further properties of the dataset path *)

(** ** The output follows the rows *)

Lemma new_Array_fill_replicate (len v : number) (xs : list number) :
  new_Array_fill len v = Normal xs → ∃ n, xs = replicate n v.
Proof.
  unfold new_Array_fill. destruct len as [| | |q]; try done.
  destruct (_ && _); [|done]. intros [= <-]. by eexists.
Qed.

Lemma computeResults_totalCustomers (cs : list CustomerRecord)
    (n d r : number) :
  totalCustomers (computeResults cs n d r) = length cs.
Proof. unfold computeResults. by destruct cs. Qed.

(** The entities after [i] iterations, whatever the rows and the servers
    are: one per row, numbered from 1, with the service time of the row,
    no draw, and the inter-arrival time of the row but for the first. *)
Lemma dataset_state_mirror (dataset : list DatasetRow) (c i : nat) :
  (i ≤ length dataset)%nat →
  length (ls_customers (dataset_state dataset c i)) = i
  ∧ ∀ j r, dataset !! j = Some r → (j < i)%nat →
      ∃ e, ls_customers (dataset_state dataset c i) !! j = Some e
        ∧ id e = S j
        ∧ serviceTime e = row_serviceTime r
        ∧ randomIAT e = Fin 0
        ∧ randomST e = Fin 0
        ∧ interArrivalTime e
          = if Nat.eqb j 0 then Fin 0 else row_interArrivalTime r.
Proof.
  revert i.
  apply (dataset_state_ind
           (λ i s, length (ls_customers s) = i
                   ∧ ∀ j r, dataset !! j = Some r → (j < i)%nat →
                       ∃ e, ls_customers s !! j = Some e
                         ∧ id e = S j
                         ∧ serviceTime e = row_serviceTime r
                         ∧ randomIAT e = Fin 0
                         ∧ randomST e = Fin 0
                         ∧ interArrivalTime e
                           = if Nat.eqb j 0 then Fin 0
                             else row_interArrivalTime r)).
  - split; [done|]. intros j r _ Hj. lia.
  - intros i r s Hr [Hlen Hall]. split.
    + cbn. rewrite length_app. cbn. lia.
    + intros j r' Hr' Hj. cbn [dataset_body ls_customers].
      destruct (decide (j < i)%nat) as [Hlt|Hge].
      * destruct (Hall j r' Hr' Hlt) as (e & He & Hrest).
        exists e. split; [|done]. by rewrite lookup_app_l by lia.
      * assert (j = i) as -> by lia.
        rewrite Hr in Hr'. injection Hr' as <-.
        eexists. split.
        { by rewrite lookup_app_r, Hlen, Nat.sub_diag by lia. }
        cbn. repeat split; try done. lia.
Qed.

(** X1.  [runSimulationFromDataset] consumes every row, whatever the rows
    and the number of servers are: when it returns, the output has one
    entity per row, in the order of the rows and numbered from 1; each
    carries the service time of its row, 0 for both draws, and the
    inter-arrival time of its row, but for the first entity, whose
    inter-arrival time is 0. *)
Theorem dataset_output_follows_rows (dataset : list DatasetRow)
    (numServers : number) (res : SimulationResult) :
  runSimulationFromDataset dataset numServers = Normal res →
  length (customers res) = length dataset
  ∧ totalCustomers res = length dataset
  ∧ ∀ i r, dataset !! i = Some r →
      ∃ e, customers res !! i = Some e
        ∧ id e = S i
        ∧ serviceTime e = row_serviceTime r
        ∧ randomIAT e = Fin 0
        ∧ randomST e = Fin 0
        ∧ interArrivalTime e
          = if Nat.eqb i 0 then Fin 0 else row_interArrivalTime r.
Proof.
  unfold runSimulationFromDataset.
  destruct (new_Array_fill numServers Num.zero) as [servers|] eqn:E; [|done].
  apply new_Array_fill_replicate in E as [c ->]. intros [= <-].
  rewrite <- dataset_state_all.
  destruct (dataset_state_mirror dataset c (length dataset) (le_n _))
    as [Hlen Hall].
  rewrite computeResults_customers, computeResults_totalCustomers.
  repeat split.
  - done.
  - done.
  - intros i r Hr. apply (Hall i r Hr). by eapply lookup_lt_Some.
Qed.

Lemma dataset_output_follows_rows_witness :
  ∃ res,
    runSimulationFromDataset negative_service (Num.of_nat 2) = Normal res
    ∧ length (customers res) = 2%nat
    ∧ totalCustomers res = 2%nat
    ∧ ∀ i r, negative_service !! i = Some r →
        ∃ e, customers res !! i = Some e
          ∧ id e = S i
          ∧ serviceTime e = row_serviceTime r
          ∧ randomIAT e = Fin 0
          ∧ randomST e = Fin 0
          ∧ interArrivalTime e
            = if Nat.eqb i 0 then Fin 0 else row_interArrivalTime r.
Proof.
  eexists. split; [vm_compute; reflexivity|].
  apply (dataset_output_follows_rows negative_service (Num.of_nat 2)).
  vm_compute; reflexivity.
Defined.

(** ** Arrival times are running sums *)

Lemma Qsum_snoc (qs : list Q) (q : Q) : Qsum (qs ++ [q]) == Qsum qs + q.
Proof.
  unfold Qsum. induction qs as [|x qs IH]; cbn; [lra|]. rewrite IH. lra.
Qed.





(** ** Who waits, and for how long *)

Lemma le_max2_l (x y : number) :
  is_num x → is_num y → (x <= Num.max2 x y)%num.
Proof. intros Hx Hy. by destruct (max2_spec x y Hx Hy) as (_ & ? & _). Qed.

Lemma le_max2_r (x y : number) :
  is_num x → is_num y → (y <= Num.max2 x y)%num.
Proof. intros Hx Hy. by destruct (max2_spec x y Hx Hy) as (_ & _ & ? & _). Qed.

Lemma max2_lub (x y z : number) :
  is_num x → is_num y → (x <= z)%num → (y <= z)%num →
  (Num.max2 x y <= z)%num.
Proof.
  intros Hx Hy Hxz Hyz.
  destruct (max2_spec x y Hx Hy) as (_ & _ & _ & [-> | ->]); done.
Qed.

Lemma max2_mono_both (x x' y y' : number) :
  is_num x → is_num y → is_num x' → is_num y' →
  (x <= x')%num → (y <= y')%num →
  (Num.max2 x y <= Num.max2 x' y')%num.
Proof.
  intros Hx Hy Hx' Hy' Hxx Hyy. apply max2_lub; try done.
  - eapply num_le_trans; [done|]. by apply le_max2_l.
  - eapply num_le_trans; [done|]. by apply le_max2_r.
Qed.

(** X3.  An entity waits exactly when no server is free at its arrival:
    on servers with finite next-available times, the wait that the stepper
    computes is 0 if and only if some server is next available at the
    arrival time or before, and it is in every case the time from the
    arrival to the earliest next-available time, or 0 when that is
    negative. *)
Theorem stepper_waits_iff_no_server_free (servers : list number)
    (t s : number) :
  servers ≠ [] → Forall Num.finite servers → Num.finite t →
  ((asg_waitTime (stepper servers t s) === Fin 0)%num = true
   ↔ ∃ y, y ∈ servers ∧ (y <= t)%num)
  ∧ ∃ k next,
      earliest servers k next
      ∧ asg_waitTime (stepper servers t s)
        ≡ Num.max2 (Fin 0) (next - t)%num.
Proof.
  intros Hne Hfin Ht.
  destruct (stepper_spec servers t s Hne (Forall_is_num_finite _ Hfin)
              (is_num_finite _ Ht)) as (k & next & Hk & _ & _ & -> & _).
  pose proof Hk as (Hlook & Hmin & _).
  assert (Num.finite next) as Hn.
  { rewrite Forall_forall in Hfin. eapply Hfin, list_elem_of_lookup_2, Hlook. }
  destruct t as [| | |t]; try done. destruct next as [| | |n]; try done.
  rewrite (max2_num (Fin t) (Fin n)) by done.
  split.
  - split.
    + intros Hw. exists (Fin n). split; [by eapply list_elem_of_lookup_2|].
      destruct (Num.ltb (Fin t) (Fin n)) eqn:E; num_solve.
    + intros (y & Hy & Hle). apply list_elem_of_lookup_1 in Hy as [j Hj].
      pose proof (Hmin j y Hj) as Hny. destruct y as [| | |y]; try done.
      destruct (Num.ltb (Fin t) (Fin n)) eqn:E; num_solve.
  - exists k, (Fin n). split; [done|].
    rewrite (max2_num (Fin 0) (Fin n - Fin t)%num) by done.
    destruct (Num.ltb (Fin t) (Fin n)) eqn:E;
      destruct (Num.ltb (Fin 0) (Fin n - Fin t)%num) eqn:E';
      unfold equiv, number_equiv; cbn; num_props; lra.
Qed.

Lemma stepper_waits_iff_no_server_free_witness :
  ((asg_waitTime (stepper [Fin 5; Fin 3] (Fin 4) (Fin 1)) === Fin 0)%num = true
   ↔ ∃ y, y ∈ [Fin 5; Fin 3] ∧ (y <= Fin 4)%num)
  ∧ ∃ k next,
      earliest [Fin 5; Fin 3] k next
      ∧ asg_waitTime (stepper [Fin 5; Fin 3] (Fin 4) (Fin 1))
        ≡ Num.max2 (Fin 0) (next - Fin 4)%num.
Proof.
  apply (stepper_waits_iff_no_server_free [Fin 5; Fin 3] (Fin 4) (Fin 1)).
  - done.
  - by repeat constructor.
  - done.
Defined.

(** ** First come, first served *)

Lemma add_nonneg_le_not_low (x y : number) :
  not_low x → (Fin 0 <= y)%num → (x <= x + y)%num.
Proof. destruct x, y; num_solve. Qed.

Lemma max2_not_low (x y : number) :
  not_low x → not_low y → not_low (Num.max2 x y).
Proof.
  intros Hx Hy.
  destruct (max2_spec x y (is_num_not_low _ Hx) (is_num_not_low _ Hy))
    as (_ & _ & _ & [-> | ->]); done.
Qed.

(** One assignment keeps the starts in order, when the clock has not gone
    back and the service time is not negative. *)
Lemma stepper_keeps_order (servers : list number) (t t' s : number)
    (cs : list CustomerRecord) (e : CustomerRecord) :
  servers ≠ [] → Forall not_low servers → Num.finite t' →
  (t <= t')%num → (Fin 0 <= s)%num →
  order_inv t servers cs →
  startServiceTime e = asg_startServiceTime (stepper servers t' s) →
  order_inv t' (asg_servers (stepper servers t' s)) (cs ++ [e]).
Proof.
  intros Hne Hnl Ht' Hle Hs [Hsort Hbound] He.
  destruct (stepper_spec servers t' s Hne (Forall_is_num_not_low _ Hnl)
              (is_num_finite _ Ht')) as (k & next & Hk & _ & Hst & _ & _ & Hsrv).
  rewrite Hsrv. rewrite Hst in He. clear Hst Hsrv.
  pose proof Hk as (Hlook & Hmin & _).
  pose proof (list_elem_of_lookup_2 _ _ _ Hlook) as Hin.
  rewrite Forall_forall in Hnl.
  pose proof (num_le_is_num_l _ _ Hle) as Hnt.
  pose proof (is_num_finite _ Ht') as Hnt'.
  assert (∀ y, y ∈ servers → is_num y) as Hnum
    by (intros y Hy; apply is_num_not_low; auto).
  assert (∀ x, x ∈ cs → (startServiceTime x <= startServiceTime e)%num)
    as Hold.
  { intros x Hx. rewrite He.
    eapply num_le_trans; [apply (Hbound x next Hx Hin)|].
    apply max2_mono_both; auto. apply num_le_refl; auto. }
  assert (startServiceTime e <= Num.max2 t' next + s)%num as Hend.
  { rewrite He. apply add_nonneg_le_not_low; [|done].
    apply max2_not_low; auto using not_low_finite. }
  pose proof (num_le_is_num_r _ _ Hend) as Hnend.
  pose proof (num_le_is_num_l _ _ Hend) as Hnstart.
  split.
  - intros i j x y Hij Hx Hy.
    destruct (decide (j < length cs)%nat) as [Hj|Hj].
    + rewrite lookup_app_l in Hx, Hy by lia. exact (Hsort i j x y Hij Hx Hy).
    + rewrite lookup_app_r in Hy by lia.
      destruct (j - length cs)%nat eqn:Ej; [|by destruct n].
      injection Hy as <-.
      destruct (decide (i < length cs)%nat) as [Hi|Hi].
      * rewrite lookup_app_l in Hx by lia.
        by eapply Hold, list_elem_of_lookup_2.
      * rewrite lookup_app_r in Hx by lia.
        destruct (i - length cs)%nat eqn:Ei; [|by destruct n].
        injection Hx as <-. by apply num_le_refl.
  - intros x y Hx Hy. apply elem_of_app in Hx.
    apply list_elem_of_lookup_1 in Hy as [j Hj].
    apply list_lookup_insert_Some in Hj as [(-> & <- & _)|(_ & Hj)].
    + eapply num_le_trans; [|by apply le_max2_r].
      destruct Hx as [Hx | Hx%list_elem_of_singleton].
      * eapply num_le_trans; [by apply Hold|done].
      * by subst x.
    + pose proof (list_elem_of_lookup_2 _ _ _ Hj) as Hy.
      destruct Hx as [Hx | Hx%list_elem_of_singleton].
      * eapply num_le_trans; [apply (Hbound x y Hx Hy)|].
        apply max2_mono_both; auto. apply num_le_refl; auto.
      * subst x. rewrite He.
        apply max2_mono_both; auto; [by apply num_le_refl|by eapply Hmin].
Qed.

Lemma dataset_body_clock_le (i : nat) (r : DatasetRow) (s : LoopState) :
  nonneg_arrival_row r → Num.finite (ls_currentTime s) →
  (ls_currentTime s <= ls_currentTime (dataset_body i r s))%num.
Proof.
  intros [_ Hiat] Ht. cbn.
  destruct (Nat.eqb i 0); [by apply add_zero_le|by apply add_nonneg_le].
Qed.

Lemma dataset_state_order (dataset : list DatasetRow) (c i : nat) :
  (1 ≤ c)%nat → Forall nonneg_row dataset → (i ≤ length dataset)%nat →
  order_inv (ls_currentTime (dataset_state dataset c i))
    (ls_servers (dataset_state dataset c i))
    (ls_customers (dataset_state dataset c i)).
Proof.
  intros Hc Hrows Hi.
  assert (Forall finite_row dataset) as Hfin.
  { eapply Forall_impl; [done|]. by intros r (? & _). }
  cut (dataset_inv c i (dataset_state dataset c i)
       ∧ order_inv (ls_currentTime (dataset_state dataset c i))
           (ls_servers (dataset_state dataset c i))
           (ls_customers (dataset_state dataset c i))); [by intros []|].
  revert i Hi.
  apply (dataset_state_ind
           (λ i s, dataset_inv c i s
                   ∧ order_inv (ls_currentTime s) (ls_servers s)
                       (ls_customers s))).
  - split.
    + rewrite <- (dataset_state_0 dataset c).
      apply dataset_state_inv; [done|done|lia].
    + split; [by intros i j e e' _ Hx|]. by intros e y Hx%elem_of_nil.
  - intros i r s Hr [Hinv Hord].
    rewrite Forall_forall in Hrows, Hfin.
    pose proof (list_elem_of_lookup_2 _ _ _ Hr) as Hin.
    destruct (Hrows r Hin) as (Hfr & Hiat & Hst).
    split; [apply dataset_body_inv; auto|].
    destruct Hinv as (Hlen & Hsrv & Ht & _).
    pose proof (dataset_body_clock_finite i r s Hfr Ht) as Ht'.
    pose proof (dataset_body_clock_le i r s (conj Hfr Hiat) Ht) as Hle.
    cbn [dataset_body ls_customers ls_currentTime ls_servers] in *.
    eapply stepper_keeps_order; try done.
    + apply nonempty_length. lia.
    + eapply Forall_impl; [done|apply not_low_finite].
Qed.

(** X4.  First come, first served: on a dataset of finite rows whose
    inter-arrival and service times are not negative, run on at least one
    server, the services start in the order of the rows, so that no entity
    starts before one that arrived earlier. *)
Theorem dataset_no_overtaking (dataset : list DatasetRow) (c : nat)
    (res : SimulationResult) :
  (1 ≤ c)%nat → Forall nonneg_row dataset →
  runSimulationFromDataset dataset (Num.of_nat c) = Normal res →
  starts_in_order (customers res).
Proof.
  intros Hc Hrows Hrun.
  apply runSimulationFromDataset_Normal in Hrun as [_ ->].
  by destruct (dataset_state_order dataset c (length dataset) Hc Hrows).
Qed.

Lemma dataset_no_overtaking_witness :
  ∃ res, runSimulationFromDataset two_long_services (Num.of_nat 2) = Normal res
         ∧ starts_in_order (customers res).
Proof.
  eexists. split; [vm_compute; reflexivity|].
  apply (dataset_no_overtaking two_long_services 2).
  - lia.
  - repeat constructor.
  - vm_compute; reflexivity.
Defined.
(** ** Sums and maxima of finite numbers *)

Lemma foldl_waits_zero (cs : list CustomerRecord) (a : Q) :
  Forall (λ e, waitTime e ≡ Fin 0) cs → a == 0 →
  ∃ b, foldl (λ sum c, sum + waitTime c)%num (Fin a) cs = Fin b ∧ b == 0.
Proof.
  intros Hall. revert a.
  induction Hall as [|e cs He Hall IH]; intros a Ha; [by exists a|].
  cbn. destruct (waitTime e) as [| | |w]; try done. cbn.
  apply IH. unfold equiv, number_equiv in He; cbn in He. lra.
Qed.

Lemma Math_max_zero (xs : list number) :
  xs ≠ [] → Forall (λ x, x ≡ Fin 0) xs → Num.Math_max xs ≡ Fin 0.
Proof.
  intros Hne Hall.
  assert (Forall Num.finite xs) as Hfin.
  { eapply Forall_impl; [done|]. by intros []. }
  destruct (Math_max_spec xs Hne Hfin) as [Hin _].
  rewrite Forall_forall in Hall. by apply Hall.
Qed.

Lemma div_of_nat_finite (a : Q) (n : nat) :
  (1 ≤ n)%nat → (Fin a / Num.of_nat n)%num = Fin (a / inject_Z (Z.of_nat n)).
Proof.
  intros Hn. unfold Num.of_nat, Num.of_Z. cbn.
  by rewrite (Qcompare_Gt _ (inject_Z_pos n Hn)).
Qed.

(** ** One server *)

Lemma stepper_single (x t s : number) :
  Num.finite x → Num.finite t →
  asg_servers (stepper [x] t s) = [(Num.max2 t x + s)%num]
  ∧ asg_waitTime (stepper [x] t s) = (Num.max2 t x - t)%num.
Proof.
  intros Hx Ht.
  destruct (stepper_spec [x] t s) as (k & next & (Hk & _) & _ & _ & -> & _ & ->).
  - done.
  - repeat constructor. by apply is_num_finite.
  - by apply is_num_finite.
  - destruct k as [|k]; [|done]. by injection Hk as ->.
Qed.

(** * Further properties of the aggregator *)

Lemma inject_Z_S (n : nat) :
  inject_Z (Z.of_nat (S n)) == inject_Z (Z.of_nat n) + 1.
Proof. by rewrite Nat2Z.inj_succ, <- Z.add_1_r, inject_Z_plus. Qed.

Lemma foldl_waits_upper (cs : list CustomerRecord) (a m : Q) :
  Forall (λ e, Num.finite (waitTime e) ∧ (waitTime e <= Fin m)%num) cs →
  ∃ b, foldl (λ sum c, sum + waitTime c)%num (Fin a) cs = Fin b
       ∧ b <= a + inject_Z (Z.of_nat (length cs)) * m.
Proof.
  intros Hall. revert a.
  induction Hall as [|e cs [Hf Hle] Hall IH]; intros a.
  - exists a. split; [done|]. cbn [length].
    change (inject_Z (Z.of_nat 0)) with 0%Q. lra.
  - cbn [foldl length]. destruct (waitTime e) as [| | |w]; try done.
    destruct (IH (a + w)) as (b & Hb & Hle'). exists b. split; [done|].
    rewrite inject_Z_S. num_props.
    assert ((inject_Z (Z.of_nat (length cs)) + 1) * m
            == inject_Z (Z.of_nat (length cs)) * m + m) as E by ring.
    rewrite E. lra.
Qed.

(** The average of finite waits is at most the longest one. *)
Lemma computeResults_avg_le_max (cs : list CustomerRecord) (n d r : number) :
  Forall (λ e, Num.finite (waitTime e)) cs →
  (avgWaitTime (computeResults cs n d r)
   <= maxWaitTime (computeResults cs n d r))%num.
Proof.
  intros Hfin. unfold computeResults.
  destruct (Nat.eqb (length cs) 0) eqn:En; [done|].
  apply Nat.eqb_neq in En. cbn [avgWaitTime maxWaitTime].
  assert (0 < inject_Z (Z.of_nat (length cs))) as Hpos
    by (apply inject_Z_pos; lia).
  assert (Forall Num.finite (map waitTime cs)) as Hfin'
    by by apply Forall_map.
  destruct (Math_max_spec (map waitTime cs)) as [Hin Hall];
    [by destruct cs|done|].
  rewrite Forall_forall in Hfin'. pose proof (Hfin' _ Hin) as Hm.
  destruct (Num.Math_max (map waitTime cs)) as [| | |m]; try done.
  destruct (foldl_waits_upper cs 0 m) as (b & Hb & Hle).
  { apply Forall_map in Hall. rewrite Forall_forall in Hfin, Hall |- *.
    intros e He. split; [by apply Hfin|by apply Hall]. }
  change (Fin 0) with Num.zero in Hb. rewrite Hb.
  rewrite div_of_nat_finite by lia. num_props.
  apply Qle_shift_div_r; [done|]. lra.
Qed.

(** * Further properties of the dataset adapter *)

(** ** The columns that the header selects *)

Lemma cons_first_length (c : ascii) (pieces : list string) :
  (1 ≤ length (Str.cons_first c pieces))%nat.
Proof. destruct pieces; cbn; lia. Qed.

Lemma split_cells_length (s : string) : (1 ≤ length (Str.split_cells s))%nat.
Proof.
  destruct s as [|c r]; [cbn; lia|].
  change (Str.split_cells (String c r))
    with (if Str.is_delimiter c then EmptyString :: Str.split_cells r
          else Str.cons_first c (Str.split_cells r)).
  destruct (Str.is_delimiter c); [cbn; lia|apply cons_first_length].
Qed.

Lemma findIndex_spec {A} (p : A → bool) (xs : list A) :
  (Str.findIndex p xs = (-1)%Z ∧ Forall (λ x, p x = false) xs)
  ∨ ∃ i x, Str.findIndex p xs = Z.of_nat i ∧ xs !! i = Some x ∧ p x = true
           ∧ ∀ j y, xs !! j = Some y → (j < i)%nat → p y = false.
Proof.
  unfold Str.findIndex.
  destruct (list_find (λ x, p x = true) xs) as [[i x]|] eqn:E.
  - right. apply list_find_Some in E as (Hi & Hp & Hfirst).
    exists i, x. repeat split; try done.
    intros j y Hj Hlt. specialize (Hfirst j y Hj Hlt). by destruct (p y).
  - left. split; [done|]. apply list_find_None in E.
    eapply Forall_impl; [done|]. intros x Hx. by apply not_true_is_false.
Qed.

(** X9.  The columns that [parseCSV] reads are columns of the header line:
    both indices are at least 0 and less than the number of header cells.
    The inter-arrival column is the first header cell that is recognised
    as such and column 0 when there is none; the service column is the
    first header cell that is recognised as such and, when there is none,
    column 1, or column 0 for a header of one cell. *)
Theorem columns_are_header_columns (header : string) :
  let headers := Str.split_cells (Str.toLowerCase header) in
  let n := Z.of_nat (length headers) in
  (0 ≤ (columns header).1 < n)%Z
  ∧ (0 ≤ (columns header).2 < n)%Z
  ∧ (∀ i h, headers !! i = Some h → is_iat_header h = true →
       (∀ j h', headers !! j = Some h' → (j < i)%nat →
          is_iat_header h' = false) →
       (columns header).1 = Z.of_nat i)
  ∧ (∀ i h, headers !! i = Some h → is_st_header h = true →
       (∀ j h', headers !! j = Some h' → (j < i)%nat →
          is_st_header h' = false) →
       (columns header).2 = Z.of_nat i)
  ∧ (Forall (λ h, is_iat_header h = false) headers → (columns header).1 = 0%Z)
  ∧ (Forall (λ h, is_st_header h = false) headers →
     (columns header).2 = if decide (length headers = 1%nat) then 0%Z else 1%Z).
Proof.
  intros headers n. unfold columns. fold headers. cbn [fst snd].
  pose proof (split_cells_length (Str.toLowerCase header)) as Hlen.
  fold headers in Hlen.
  assert (∀ (p : string → bool) i h,
            headers !! i = Some h → p h = true →
            (∀ j h', headers !! j = Some h' → (j < i)%nat → p h' = false) →
            Str.findIndex p headers = Z.of_nat i) as Hfirst.
  { intros p i h Hi Hp Hbefore.
    destruct (findIndex_spec p headers) as [[_ Hnone]|(k & x & -> & Hk & Hx & Hb)].
    - rewrite Forall_forall in Hnone.
      rewrite (Hnone h (list_elem_of_lookup_2 _ _ _ Hi)) in Hp. done.
    - f_equal. destruct (Nat.lt_trichotomy i k) as [Hlt|[->|Hlt]]; [|done|].
      + rewrite (Hb i h Hi Hlt) in Hp. done.
      + rewrite (Hbefore k x Hk Hlt) in Hx. done. }
  assert (∀ p : string → bool,
            Forall (λ h, p h = false) headers →
            Str.findIndex p headers = (-1)%Z) as Hnone.
  { intros p Hall.
    destruct (findIndex_spec p headers) as [[E _]|(k & x & _ & Hk & Hx & _)];
      [done|].
    rewrite Forall_forall in Hall.
    rewrite (Hall x (list_elem_of_lookup_2 _ _ _ Hk)) in Hx. done. }
  repeat split.
  - destruct (findIndex_spec is_iat_header headers)
      as [[-> _]|(k & x & -> & _)]; cbn; [lia|].
    destruct (Z.of_nat k =? -1)%Z; lia.
  - destruct (findIndex_spec is_iat_header headers)
      as [[-> _]|(k & x & -> & Hk & _)]; cbn; [lia|].
    apply lookup_lt_Some in Hk. destruct (Z.of_nat k =? -1)%Z; lia.
  - destruct (findIndex_spec is_st_header headers)
      as [[-> _]|(k & x & -> & _)]; cbn; [lia|].
    destruct (Z.of_nat k =? -1)%Z; lia.
  - destruct (findIndex_spec is_st_header headers)
      as [[-> _]|(k & x & -> & Hk & _)]; cbn; [lia|].
    apply lookup_lt_Some in Hk. destruct (Z.of_nat k =? -1)%Z; lia.
  - intros i h Hi Hp Hb. rewrite (Hfirst _ i h Hi Hp Hb).
    destruct (Z.of_nat i =? -1)%Z eqn:E; [lia|done].
  - intros i h Hi Hp Hb. rewrite (Hfirst _ i h Hi Hp Hb).
    destruct (Z.of_nat i =? -1)%Z eqn:E; [lia|done].
  - intros Hall. by rewrite (Hnone _ Hall).
  - intros Hall. rewrite (Hnone _ Hall). cbn.
    destruct (decide (length headers = 1%nat)); lia.
Qed.

(** A header cell is recognised by a substring: [customer] contains [st],
    so that a first column of that name is read as the service column. *)
Example columns_customer_header :
  columns "Customer;IAT;Service" = (1%Z, 0%Z)
  ∧ parseCSV ("Customer;IAT;Service" ++ LF ++ "7;2;3")%string = [row 2 7].
Proof. split; vm_compute; reflexivity. Qed.

(** ** From the blob to the run *)

Lemma parseCSV_accepted (csvText : string) :
  Forall accepted_row (parseCSV csvText).
Proof.
  unfold parseCSV.
  destruct (Nat.ltb _ 2); [constructor|].
  destruct (Str.split_lines (Str.trim csvText)) as [|header data];
    [constructor|].
  pose proof (foldl_parse_line header data []) as H.
  destruct (columns header) as [iatCol stCol]. cbn [fst snd] in H.
  rewrite H. cbn [app]. apply Forall_map, Forall_forall.
  intros p Hp. apply list_elem_of_filter in Hp. apply Hp.
Qed.

Lemma accepted_row_not_low (r : DatasetRow) :
  accepted_row r →
  not_low (row_interArrivalTime r) ∧ not_low (row_serviceTime r)
  ∧ (Fin 0 <= row_interArrivalTime r)%num ∧ (Fin 0 < row_serviceTime r)%num.
Proof.
  unfold accepted_row, accepted. cbn [fst snd].
  destruct (row_interArrivalTime r), (row_serviceTime r); num_solve.
Qed.

Lemma add_not_low (x y : number) : not_low x → not_low y → not_low (x + y)%num.
Proof. by destruct x, y. Qed.

(** A row that [parseCSV] accepts holds no NaN and no -Infinity. *)
Lemma accepted_row_open (r : DatasetRow) : accepted_row r → open_row r.
Proof. intros (? & ? & _)%accepted_row_not_low. by split. Qed.

Lemma Forall_accepted_row_open (dataset : list DatasetRow) :
  Forall accepted_row dataset → Forall open_row dataset.
Proof. intros H. eapply Forall_impl; [done|apply accepted_row_open]. Qed.

Lemma dataset_body_open (c i : nat) (r : DatasetRow) (s : LoopState) :
  (1 ≤ c)%nat → open_row r →
  open_inv c i s → open_inv c (S i) (dataset_body i r s).
Proof.
  intros Hc (Hiat & Hst) (Hlen & Hsrv & Ht & Hn & Hall).
  assert (not_low (ls_currentTime (dataset_body i r s))) as Ht'.
  { cbn. apply add_not_low; [done|]. by destruct (Nat.eqb i 0). }
  assert (ls_servers s ≠ []) as Hne by (apply nonempty_length; lia).
  destruct (stepper_spec (ls_servers s) (ls_currentTime (dataset_body i r s))
              (row_serviceTime r) Hne (Forall_is_num_not_low _ Hsrv)
              (is_num_not_low _ Ht'))
    as (k & next & Hk & Hidx & _ & _ & _ & Hsrv').
  pose proof (earliest_lt_length _ _ _ Hk) as Hlt.
  destruct Hk as (Hlook & _).
  assert (not_low next) as Hnext.
  { rewrite Forall_forall in Hsrv. eapply Hsrv, list_elem_of_lookup_2, Hlook. }
  unfold open_inv.
  cbn [dataset_body ls_customers ls_currentTime ls_servers] in *.
  repeat split.
  - by rewrite stepper_length.
  - rewrite Hsrv'. apply Forall_insert; [done|].
    apply add_not_low; [|done]. by apply max2_not_low.
  - done.
  - rewrite length_app. cbn. lia.
  - apply Forall_app. split; [done|]. repeat constructor; cbn; lia.
Qed.

Lemma dataset_state_open (dataset : list DatasetRow) (c i : nat) :
  (1 ≤ c)%nat → Forall open_row dataset → (i ≤ length dataset)%nat →
  open_inv c i (dataset_state dataset c i).
Proof.
  intros Hc Hrows. apply (dataset_state_ind (open_inv c)).
  - repeat split; cbn; try done.
    + by rewrite length_replicate.
    + by apply Forall_replicate.
  - intros j r s Hj. apply dataset_body_open; [done|].
    rewrite Forall_forall in Hrows. by eapply Hrows, list_elem_of_lookup_2.
Qed.

(** * Further properties of the random-draw path *)

Section RandomRuns.

Variable Math_log : number → number.
Variable Math_random : nat → Q.

Hypothesis log_sign :
  ∀ q : Q, 0 <= q → q < 1 → (Math_log (Fin q) <= Fin 0)%num.
Hypothesis random_range : ∀ n : nat, 0 <= Math_random n ∧ Math_random n < 1.

(** ** The draws of an iteration *)

Lemma sim_body_Break (p : SimulationParams) (s s' : SimState) :
  sim_body Math_log Math_random p s = Break s' →
  sim_customers s' = sim_customers s.
Proof.
  unfold sim_body.
  destruct (exponentialRandom Math_log Math_random _ _) as [iat calls].
  destruct (_ >=? _)%num.
  - by intros [= <-].
  - by destruct (exponentialRandom Math_log Math_random _ _).
Qed.

(** An iteration that goes on makes two draws, the first for the
    inter-arrival time and the second for the service time. *)
Lemma sim_body_draws (p : SimulationParams) (s s' : SimState) :
  sim_body Math_log Math_random p s = Continue s' →
  ∃ e, sim_customers s' = sim_customers s ++ [e]
    ∧ sim_calls s' = S (S (sim_calls s))
    ∧ randomIAT e = Fin (Math_random (sim_calls s))
    ∧ randomST e = Fin (Math_random (S (sim_calls s)))
    ∧ serviceTime e = (- Math_log (randomST e) / serviceRate p)%num
    ∧ interArrivalTime e =
        (if Nat.eqb (sim_customerId s) 0 then Num.zero
         else (- Math_log (randomIAT e) / arrivalRate p)%num)
    ∧ arrivalTime e = (sim_currentTime s + interArrivalTime e)%num
    ∧ sim_currentTime s' = arrivalTime e.
Proof.
  unfold sim_body. cbn [exponentialRandom].
  destruct (_ >=? _)%num eqn:E; [done|]. intros [= <-].
  eexists. cbn. repeat split; try done; by destruct (sim_customerId s).
Qed.

Lemma sim_loop_prefix (fuel : nat) (p : SimulationParams) (s sf : SimState) :
  sim_loop Math_log Math_random fuel p s = Some sf →
  sim_customers s `prefix_of` sim_customers sf.
Proof.
  intros Hl. apply sim_loop_final in Hl as (n & sn & Hsn & ->).
  destruct (sim_state_at_le Math_log Math_random p n 0 s sn)
    as (s0 & Hs0 & Hpre); [lia|done|].
  by injection Hs0 as <-.
Qed.

(** ** The horizon *)

(** The first iteration of a run with a positive duration goes on. *)
Lemma sim_body_first (p : SimulationParams) (servers : list number) :
  (Fin 0 <? duration p)%num = true →
  ∃ s', sim_body Math_log Math_random p (sim_init servers) = Continue s'
        ∧ length (sim_customers s') = 1%nat.
Proof.
  intros Hd. unfold sim_body. cbn [exponentialRandom sim_init sim_customerId
    sim_currentTime sim_calls sim_servers sim_customers Nat.eqb].
  assert ((Num.zero + Num.zero >=? duration p)%num = false) as ->.
  { destruct (duration p) as [| | |d]; try done. num_solve. }
  by eexists.
Qed.

Lemma earliest_replicate (c k : nat) (x next : number) :
  is_num x → earliest (replicate c x) k next → k = 0%nat ∧ next = x.
Proof.
  intros Hx (Hk & _ & Hfirst).
  apply lookup_replicate in Hk as [-> Hlt]. split; [|done].
  destruct k as [|k]; [done|].
  assert (replicate c x !! 0%nat = Some x) as H0
    by (apply lookup_replicate; split; [done|lia]).
  specialize (Hfirst 0%nat x H0 ltac:(lia)).
  by apply num_lt_irrefl in Hfirst.
Qed.

Lemma sim_body_horizon (lam mu d : Q) (c n : nat) (s s' : SimState) :
  0 < lam → 0 < mu → (1 ≤ c)%nat →
  sim_body Math_log Math_random (params lam mu c d) s = Continue s' →
  sim_inv c n s → horizon_inv c d n s → horizon_inv c d (S n) s'.
Proof.
  intros Hlam Hmu Hc Hb Hinv (H0 & Hpos & Hall & Hfirst).
  pose proof (sim_body_inv Math_log Math_random log_sign random_range
                lam mu d c n s s' Hlam Hmu Hc Hb Hinv) as (_ & _ & Ht' & _).
  destruct Hinv as (Hlen & Hsrv & Ht & Hid & Hn).
  destruct (sim_body_draws _ _ _ Hb)
    as (e & Hcs & _ & _ & _ & _ & Hiat & Harr & Hnow).
  apply sim_body_Continue in Hb
    as (e' & Hcs' & _ & _ & _ & Hnow' & Hge & _ & _ & Hw & _ & _ & Hidx).
  rewrite Hcs in Hcs'. apply app_inv_head in Hcs'. injection Hcs' as <-.
  cbn [duration arrivalRate params] in *.
  destruct (sample_not_low Math_log Math_random log_sign random_range
              lam (sim_calls s) Hlam) as (_ & Hv).
  assert (Fin 0 <= sim_currentTime s')%num as Hpos'.
  { rewrite Hnow' in Ht' |- *.
    destruct (Nat.eqb (S (sim_customerId s)) 1),
      (sim_currentTime s) as [| | |t]; try done; [num_solve|].
    destruct (value _); try done. num_solve. }
  assert (sim_currentTime s' < Fin d)%num as Hlt.
  { destruct (sim_currentTime s'); try done. num_solve. }
  repeat split.
  - done.
  - done.
  - rewrite Hcs. apply Forall_app. split; [done|].
    repeat constructor; by rewrite <- Hnow.
  - destruct n as [|n].
    + rewrite (H0 eq_refl) in *. cbn in Hcs. rewrite Hcs in H.
      injection H as <-. rewrite Hiat in Harr. cbn in Harr, Hiat. done.
    + apply Hfirst. rewrite Hcs in H.
      rewrite lookup_app_l in H; [done|]. rewrite Hn. lia.
  - destruct n as [|n].
    + rewrite (H0 eq_refl) in *. cbn in Hcs. rewrite Hcs in H.
      by injection H as <-.
    + apply Hfirst. rewrite Hcs in H.
      rewrite lookup_app_l in H; [done|]. rewrite Hn. lia.
  - destruct n as [|n].
    + rewrite (H0 eq_refl) in *. cbn in Hcs. rewrite Hcs in H.
      injection H as <-. rewrite Hw. rewrite Hiat in Harr. cbn in Harr.
      rewrite Harr. cbn [sim_init sim_servers].
      change (Fin (0 + 0)) with (Fin 0).
      destruct (stepper_spec (replicate c Num.zero) (Fin 0) (serviceTime e))
        as (k & next & Hk & _ & _ & -> & _).
      { apply nonempty_length. rewrite length_replicate. lia. }
      { by apply Forall_replicate. }
      { done. }
      apply earliest_replicate in Hk as [_ ->]; done.
    + apply Hfirst. rewrite Hcs in H.
      rewrite lookup_app_l in H; [done|]. rewrite Hn. lia.
  - destruct n as [|n].
    + rewrite (H0 eq_refl) in *. cbn in Hcs. rewrite Hcs in H.
      injection H as <-. rewrite Hidx. rewrite Hiat in Harr. cbn in Harr.
      rewrite Harr. cbn [sim_init sim_servers].
      change (Fin (0 + 0)) with (Fin 0).
      destruct (stepper_spec (replicate c Num.zero) (Fin 0) (serviceTime e))
        as (k & next & Hk & -> & _).
      { apply nonempty_length. rewrite length_replicate. lia. }
      { by apply Forall_replicate. }
      { done. }
      apply earliest_replicate in Hk as [-> _]; done.
    + apply Hfirst. rewrite Hcs in H.
      rewrite lookup_app_l in H; [done|]. rewrite Hn. lia.
Qed.

Lemma sim_state_at_horizon (lam mu d : Q) (c n : nat) (s : SimState) :
  0 < lam → 0 < mu → (1 ≤ c)%nat →
  sim_state_at Math_log Math_random (params lam mu c d) n
    (sim_init (replicate c Num.zero)) = Some s →
  horizon_inv c d n s.
Proof.
  intros Hlam Hmu Hc.
  cut (sim_state_at Math_log Math_random (params lam mu c d) n
         (sim_init (replicate c Num.zero)) = Some s →
       sim_inv c n s ∧ horizon_inv c d n s); [by intros H ?; apply H|].
  revert n s.
  apply (sim_state_at_ind Math_log Math_random
           (λ n s, sim_inv c n s ∧ horizon_inv c d n s)).
  - split; [apply sim_init_inv|]. repeat split; try done.
  - intros n s1 s2 [Hinv Hh] _ Hb. split.
    + by apply (sim_body_inv Math_log Math_random log_sign random_range
                  lam mu d c n s1 s2).
    + by apply (sim_body_horizon lam mu d c n s1 s2).
Qed.

(** X11.  The entities of a run arrive inside the horizon: for positive
    rates and at least one server, every entity of the run arrives at 0 or
    later and before [duration]; the first entity arrives at 0, with an
    inter-arrival time of 0, and is served at once by server 1; and a run
    with a positive duration has one entity at least. *)
Theorem arrivals_inside_the_horizon (fuel : nat) (lam mu d : Q) (c : nat)
    (res : SimulationResult) :
  0 < lam → 0 < mu → (1 ≤ c)%nat →
  runSimulation Math_log Math_random fuel (params lam mu c d)
    = Some (Normal res) →
  Forall (λ e, (Fin 0 <= arrivalTime e)%num ∧ (arrivalTime e < Fin d)%num)
    (customers res)
  ∧ (∀ e, customers res !! 0%nat = Some e →
       arrivalTime e = Fin 0 ∧ interArrivalTime e = Fin 0
       ∧ waitTime e ≡ Fin 0 ∧ serverAssigned e = 1%Z)
  ∧ (0 < d → (1 ≤ totalCustomers res)%nat).
Proof.
  intros Hlam Hmu Hc Hrun.
  pose proof Hrun as Hrun'.
  apply runSimulation_Normal in Hrun' as (_ & n & s & Hs & ->).
  destruct (sim_state_at_horizon lam mu d c n s Hlam Hmu Hc Hs)
    as (_ & _ & Hall & Hfirst).
  split; [done|]. split; [done|]. intros Hd.
  revert Hrun. unfold runSimulation. cbn [numServers params].
  rewrite new_Array_fill_of_nat.
  destruct (Z.of_nat c <? 2 ^ 32)%Z; [|done].
  destruct (sim_loop _ _ _ _ _) as [sf|] eqn:El; [|done].
  cbn. intros [= <-]. rewrite computeResults_totalCustomers.
  assert ((Num.zero <? Fin d)%num = true) as E by num_solve.
  destruct (sim_body_first (params lam mu c d) (replicate c Num.zero) E)
    as (s1 & Hb & Hlen).
  destruct fuel as [|fuel]; cbn [sim_loop] in El.
  - cbn [sim_init sim_currentTime duration params] in El.
    by rewrite E in El.
  - cbn [sim_init sim_currentTime duration params] in El.
    rewrite E in El. fold (sim_init (replicate c Num.zero)) in El.
    rewrite Hb in El. apply sim_loop_prefix, prefix_length in El. lia.
Qed.

End RandomRuns.

Lemma arrivals_inside_the_horizon_witness :
  ∃ res,
    runSimulation log_standin half_quarter 10 (params 1 1 1 2)
      = Some (Normal res)
    ∧ totalCustomers res = 4%nat
    ∧ Forall (λ e, (Fin 0 <= arrivalTime e)%num ∧ (arrivalTime e < Fin 2)%num)
        (customers res)
    ∧ (∀ e, customers res !! 0%nat = Some e →
         arrivalTime e = Fin 0 ∧ interArrivalTime e = Fin 0
         ∧ waitTime e ≡ Fin 0 ∧ serverAssigned e = 1%Z)
    ∧ (0 < 2 → (1 ≤ totalCustomers res)%nat).
Proof.
  eexists. split; [vm_compute; reflexivity|].
  split; [vm_compute; reflexivity|].
  apply (arrivals_inside_the_horizon log_standin half_quarter
           log_standin_sign half_quarter_range 10 1 1 2 1).
  - lra.
  - lra.
  - lia.
  - vm_compute; reflexivity.
Defined.

(** ** The draws that a run records *)

Section RandomAudit.

Variable Math_log : number → number.
Variable Math_random : nat → Q.

Lemma sim_state_at_counts (p : SimulationParams) (servers : list number)
    (n : nat) (s : SimState) :
  sim_state_at Math_log Math_random p n (sim_init servers) = Some s →
  sim_customerId s = n ∧ length (sim_customers s) = n
  ∧ sim_calls s = (2 * n)%nat.
Proof.
  revert n s.
  apply (sim_state_at_ind Math_log Math_random
           (λ n s, sim_customerId s = n ∧ length (sim_customers s) = n
                   ∧ sim_calls s = (2 * n)%nat)); [done|].
  intros n s s' (Hid & Hlen & Hcalls) _ Hb.
  destruct (sim_body_draws Math_log Math_random _ _ _ Hb)
    as (e & Hcs & Hcalls' & _).
  apply sim_body_Continue in Hb as (_ & _ & Hid' & _).
  rewrite Hid', Hid, Hcs, length_app, Hlen, Hcalls', Hcalls. cbn. lia.
Qed.

Lemma runSimulation_states (fuel : nat) (p : SimulationParams)
    (res : SimulationResult) :
  runSimulation Math_log Math_random fuel p = Some (Normal res) →
  ∃ servers n sn,
    sim_state_at Math_log Math_random p n (sim_init servers) = Some sn
    ∧ customers res = sim_customers sn.
Proof.
  unfold runSimulation.
  destruct (new_Array_fill _ _) as [servers|]; [|done].
  destruct (sim_loop Math_log Math_random _ _ _) as [sf|] eqn:El; [|done].
  cbn. intros [= <-].
  apply sim_loop_final in El as (n & s & Hs & Hc).
  exists servers, n, s. split; [done|]. by rewrite computeResults_customers.
Qed.

(** The entity at index [i] is the one that iteration [i] appends. *)
Lemma sim_entity_at (p : SimulationParams) (servers : list number)
    (n i : nat) (sn : SimState) (e : CustomerRecord) :
  sim_state_at Math_log Math_random p n (sim_init servers) = Some sn →
  sim_customers sn !! i = Some e →
  ∃ s s',
    sim_state_at Math_log Math_random p i (sim_init servers) = Some s
    ∧ sim_state_at Math_log Math_random p (S i) (sim_init servers) = Some s'
    ∧ sim_body Math_log Math_random p s = Continue s'
    ∧ sim_customers s' = sim_customers s ++ [e].
Proof.
  intros Hsn He.
  destruct (sim_state_at_counts _ _ _ _ Hsn) as (_ & Hlen & _).
  pose proof (lookup_lt_Some _ _ _ He) as Hi. rewrite Hlen in Hi.
  destruct (sim_state_at_le Math_log Math_random _ n (S i) _ _ Hi Hsn)
    as (s' & Hs' & Hpre).
  destruct (sim_state_at_S_inv Math_log Math_random _ _ _ _ Hs')
    as (s & Hs & _ & Hb).
  exists s, s'. repeat split; try done.
  destruct (sim_body_Continue Math_log Math_random _ _ _ Hb)
    as (e' & Hcs' & _).
  rewrite Hcs'. f_equal. f_equal.
  destruct (sim_state_at_counts _ _ _ _ Hs) as (_ & Hlen' & _).
  eapply (prefix_lookup_Some _ _ i e') in Hpre.
  - rewrite He in Hpre. by injection Hpre.
  - by rewrite Hcs', lookup_app_r, Hlen', Nat.sub_diag by lia.
Qed.

(** X13.  The draws that a run records reproduce its samples, whatever
    the parameters are: entity [i] (from 0) has id [i + 1] and records the
    draws number [2 i] and [2 i + 1] of the run; its service time is
    [-log(randomST) / serviceRate] and its inter-arrival time is
    [-log(randomIAT) / arrivalRate], except for the first entity, whose
    draw is made and not used; and every entity arrives its inter-arrival
    time after the entity before it. *)
Theorem recorded_draws_reproduce_samples (fuel : nat) (p : SimulationParams)
    (res : SimulationResult) :
  runSimulation Math_log Math_random fuel p = Some (Normal res) →
  (∀ i e, customers res !! i = Some e →
     id e = S i
     ∧ randomIAT e = Fin (Math_random (2 * i))
     ∧ randomST e = Fin (Math_random (2 * i + 1))
     ∧ serviceTime e = (- Math_log (randomST e) / serviceRate p)%num
     ∧ interArrivalTime e =
         if Nat.eqb i 0 then Fin 0
         else (- Math_log (randomIAT e) / arrivalRate p)%num)
  ∧ (∀ i e e', customers res !! i = Some e → customers res !! S i = Some e' →
       arrivalTime e' = (arrivalTime e + interArrivalTime e')%num).
Proof.
  intros Hrun.
  apply runSimulation_states in Hrun as (servers & n & sn & Hsn & ->).
  split.
  - intros i e He.
    destruct (sim_entity_at _ _ _ _ _ _ Hsn He) as (s & s' & Hs & _ & Hb & Hcs).
    destruct (sim_state_at_counts _ _ _ _ Hs) as (Hid & _ & Hcalls).
    destruct (sim_body_draws Math_log Math_random _ _ _ Hb)
      as (e1 & Hcs1 & _ & Hr1 & Hr2 & Hst & Hiat & _).
    apply sim_body_Continue in Hb as (e2 & Hcs2 & _ & Hid2 & _).
    rewrite Hcs in Hcs1, Hcs2. apply app_inv_head in Hcs1, Hcs2.
    injection Hcs1 as <-. injection Hcs2 as <-.
    rewrite Hid in Hid2, Hiat. rewrite Hcalls in Hr1, Hr2.
    repeat split; try done.
    by replace (2 * i + 1)%nat with (S (2 * i)) by lia.
  - intros i e e' He He'.
    destruct (sim_entity_at _ _ _ _ _ _ Hsn He) as (s & s1 & _ & Hs1 & Hb & Hcs).
    destruct (sim_entity_at _ _ _ _ _ _ Hsn He')
      as (s1' & s2 & Hs1' & _ & Hb' & Hcs').
    rewrite Hs1 in Hs1'. injection Hs1' as <-.
    destruct (sim_body_draws Math_log Math_random _ _ _ Hb)
      as (e1 & Hcs1 & _ & _ & _ & _ & _ & _ & Hnow).
    destruct (sim_body_draws Math_log Math_random _ _ _ Hb')
      as (e2 & Hcs2 & _ & _ & _ & _ & _ & Harr & _).
    rewrite Hcs in Hcs1. rewrite Hcs' in Hcs2.
    apply app_inv_head in Hcs1, Hcs2.
    injection Hcs1 as <-. injection Hcs2 as <-.
    by rewrite Harr, Hnow.
Qed.

End RandomAudit.

Lemma recorded_draws_reproduce_samples_witness :
  ∃ res,
    runSimulation log_standin half_quarter 10 (params 1 1 1 2)
      = Some (Normal res)
    ∧ (∀ i e, customers res !! i = Some e →
         id e = S i
         ∧ randomIAT e = Fin (half_quarter (2 * i))
         ∧ randomST e = Fin (half_quarter (2 * i + 1))
         ∧ serviceTime e = (- log_standin (randomST e) / Fin 1)%num
         ∧ interArrivalTime e =
             if Nat.eqb i 0 then Fin 0
             else (- log_standin (randomIAT e) / Fin 1)%num)
    ∧ (∀ i e e', customers res !! i = Some e →
         customers res !! S i = Some e' →
         arrivalTime e' = (arrivalTime e + interArrivalTime e')%num).
Proof.
  eexists. split; [vm_compute; reflexivity|].
  apply (recorded_draws_reproduce_samples log_standin half_quarter 10
           (params 1 1 1 2)).
  vm_compute; reflexivity.
Defined.

(** ** The two versions of [runSimulation] *)

Lemma sim_loop_entities_duration (Math_log : number → number)
    (Math_random : nat → Q) (fuel : nat) (p : SimulationParams)
    (servers : list number) (sf : SimState) :
  sim_loop Math_log Math_random fuel p (sim_init servers) = Some sf →
  sim_customers sf ≠ [] → (duration p >? Num.zero)%num = true.
Proof.
  intros Hl Hne. unfold Num.gtb.
  destruct (Num.zero <? duration p)%num eqn:E; [done|].
  destruct fuel; cbn [sim_loop sim_init sim_currentTime] in Hl;
    rewrite E in Hl; injection Hl as <-; done.
Qed.

(** X14.  The earlier version of [runSimulation], which computes the
    summary itself and does not test the duration, and the version that
    calls [computeResults] return the same on every parameter set, for
    the same draws: in a run with an entity the duration is more than 0,
    so that the test of [computeResults] never decides. *)
Theorem runSimulation_versions_agree (Math_log : number → number)
    (Math_random : nat → Q) (fuel : nat) (p : SimulationParams) :
  Part000.runSimulation Math_log Math_random fuel p
  = runSimulation Math_log Math_random fuel p.
Proof.
  unfold Part000.runSimulation, runSimulation.
  destruct (new_Array_fill _ _) as [servers|]; [|done].
  destruct (sim_loop Math_log Math_random fuel p (sim_init servers))
    as [sf|] eqn:El; [|done].
  cbn [mbind option_bind]. unfold computeResults.
  destruct (Nat.eqb (length (sim_customers sf)) 0) eqn:En; [done|].
  rewrite (sim_loop_entities_duration _ _ _ _ _ _ El); [done|].
  intros E. by rewrite E in En.
Qed.

(** ** First come, first served *)

Section RandomOrder.

Variable Math_log : number → number.
Variable Math_random : nat → Q.

Hypothesis log_sign :
  ∀ q : Q, 0 <= q → q < 1 → (Math_log (Fin q) <= Fin 0)%num.
Hypothesis random_range : ∀ n : nat, 0 <= Math_random n ∧ Math_random n < 1.

Lemma sim_body_order (lam mu d : Q) (c n : nat) (s s' : SimState) :
  0 < lam → 0 < mu → (1 ≤ c)%nat →
  sim_body Math_log Math_random (params lam mu c d) s = Continue s' →
  sim_inv c n s →
  order_inv (sim_currentTime s) (sim_servers s) (sim_customers s) →
  order_inv (sim_currentTime s') (sim_servers s') (sim_customers s').
Proof.
  intros Hlam Hmu Hc Hb Hinv Hord.
  pose proof (sim_body_inv Math_log Math_random log_sign random_range
                lam mu d c n s s' Hlam Hmu Hc Hb Hinv) as (_ & _ & Ht' & _).
  destruct Hinv as (Hlen & Hsrv & Ht & Hid & Hn).
  apply sim_body_Continue in Hb
    as (e & Hcs & _ & _ & Harr & Hnow & _ & Hst & Hsrv' & _ & Hstart & _).
  cbn [arrivalRate serviceRate params] in *.
  destruct (sample_not_low Math_log Math_random log_sign random_range
              lam (sim_calls s) Hlam) as (_ & Hv).
  destruct (sample_not_low Math_log Math_random log_sign random_range
              mu (S (sim_calls s)) Hmu) as (_ & Hv').
  rewrite Hcs, Hsrv', Harr.
  apply stepper_keeps_order with (t := sim_currentTime s); try done.
  - apply nonempty_length. lia.
  - rewrite Hnow in Ht' |- *.
    destruct (Nat.eqb (S (sim_customerId s)) 1),
      (sim_currentTime s) as [| | |t]; try done; [num_solve|].
    destruct (value _); try done. num_solve.
  - by rewrite Hst.
  - by rewrite <- Harr.
Qed.

(** X15.  First come, first served, also on the random-draw path: for
    positive rates and at least one server, the services of a run start in
    the order of the arrivals. *)
Theorem random_no_overtaking (fuel : nat) (lam mu d : Q) (c : nat)
    (res : SimulationResult) :
  0 < lam → 0 < mu → (1 ≤ c)%nat →
  runSimulation Math_log Math_random fuel (params lam mu c d)
    = Some (Normal res) →
  starts_in_order (customers res).
Proof.
  intros Hlam Hmu Hc Hrun.
  apply runSimulation_Normal in Hrun as (_ & n & s & Hs & ->).
  cut (sim_inv c n s
       ∧ order_inv (sim_currentTime s) (sim_servers s) (sim_customers s));
    [by intros [_ []]|].
  revert n s Hs.
  apply (sim_state_at_ind Math_log Math_random
           (λ n s, sim_inv c n s
                   ∧ order_inv (sim_currentTime s) (sim_servers s)
                       (sim_customers s))).
  - split; [apply sim_init_inv|].
    split; [by intros i j e e' _ Hx|]. by intros e y Hx%elem_of_nil.
  - intros n s1 s2 [Hinv Hord] _ Hb. split.
    + by apply (sim_body_inv Math_log Math_random log_sign random_range
                  lam mu d c n s1 s2).
    + by apply (sim_body_order lam mu d c n s1 s2).
Qed.

End RandomOrder.

Lemma random_no_overtaking_witness :
  ∃ res,
    runSimulation log_standin half_quarter 10 (params 1 1 2 2)
      = Some (Normal res)
    ∧ starts_in_order (customers res).
Proof.
  eexists. split; [vm_compute; reflexivity|].
  apply (random_no_overtaking log_standin half_quarter
           log_standin_sign half_quarter_range 10 1 1 2 2).
  - lra.
  - lra.
  - lia.
  - vm_compute; reflexivity.
Defined.

(** * The page *)

(** ** The fields of the parameters *)

Lemma or_zero_is_num (x : number) : is_num (App.or_zero x).
Proof.
  unfold App.or_zero.
  by destruct x as [| | |q]; cbn; try destruct (Qeq_bool q 0).
Qed.

Lemma Qfloor_half (z : Z) : Qfloor (inject_Z z + (1 # 2)) = z.
Proof.
  pose proof (Qfloor_le (inject_Z z + (1 # 2))) as Hle.
  pose proof (Qlt_floor (inject_Z z + (1 # 2))) as Hlt.
  set (f := Qfloor _) in *. rewrite inject_Z_plus in Hlt.
  change (inject_Z 1) with 1%Q in Hlt.
  assert (inject_Z f < inject_Z (z + 1)) as H1.
  { rewrite inject_Z_plus. change (inject_Z 1) with 1%Q. lra. }
  assert (inject_Z z < inject_Z (f + 1)) as H2.
  { rewrite inject_Z_plus. change (inject_Z 1) with 1%Q. lra. }
  rewrite <- Zlt_Qlt in H1, H2. lia.
Qed.

Lemma whole_at_least_1_spec (v : number) :
  is_num v → whole_or_infinite (App.whole_at_least_1 v).
Proof.
  intros Hv. unfold App.whole_at_least_1.
  destruct v as [| | |q]; cbn [App.Math_round]; [done|by left| |].
  - right. exists 1%nat. by split.
  - right. set (z := Qfloor (q + (1 # 2))).
    rewrite (max2_num (Fin 1) (Fin (inject_Z z))) by done.
    destruct (Num.ltb (Fin 1) (Fin (inject_Z z))) eqn:E.
    + apply ltb_Fin in E. change 1%Q with (inject_Z 1) in E.
      rewrite <- Zlt_Qlt in E.
      exists (Z.to_nat z). split; [lia|].
      unfold Num.of_nat. by rewrite Z2Nat.id by lia.
    + exists 1%nat. by split.
Qed.

(** X16.  The fields of the number of servers and of the duration never
    store a value below 1, a fraction or NaN: whatever text is typed, the
    value that the handler stores, [Math.max(1, Math.round(parseFloat(text)
    || 0))], is an integer that is 1 at least, or +Infinity.  A text that
    reads as an integer from 1 to 2^53, in whatever notation, is stored as
    that integer, and a text that is no number is stored as 1. *)
Theorem whole_fields_store_integers (text : string) :
  let v := App.whole_at_least_1 (App.onChange text) in
  whole_or_infinite v
  ∧ (∀ k : nat, (1 ≤ k)%nat → (Z.of_nat k ≤ 2 ^ 53)%Z →
       Str.parseFloat text ≡ Num.of_nat k → v = Num.of_nat k)
  ∧ (Str.parseFloat text = NaN → v = Num.of_nat 1).
Proof.
  intros v. subst v. split; [|split].
  - apply whole_at_least_1_spec, or_zero_is_num.
  - intros k Hk _ E. unfold App.onChange.
    destruct (Str.parseFloat text) as [| | |q]; try done.
    change (q == inject_Z (Z.of_nat k)) in E.
    assert (1 <= q) as Hq.
    { rewrite E. change 1%Q with (inject_Z 1). rewrite <- Zle_Qle. lia. }
    unfold App.or_zero. cbn [Num.isNaN orb].
    assert ((Fin q === Fin 0)%num = false) as -> by (apply eqb_Fin_false; lra).
    unfold App.whole_at_least_1. cbn [App.Math_round].
    assert (Qfloor (q + (1 # 2)) = Z.of_nat k) as ->.
    { rewrite E. apply Qfloor_half. }
    unfold Num.of_nat, Num.of_Z.
    rewrite (max2_num (Fin 1) (Fin (inject_Z (Z.of_nat k)))) by done.
    destruct (Num.ltb (Fin 1) (Fin (inject_Z (Z.of_nat k)))) eqn:E'; [done|].
    apply ltb_Fin_false in E'. change 1%Q with (inject_Z 1) in E'.
    rewrite <- Zle_Qle in E'. by replace k with 1%nat by lia.
  - intros E. unfold App.onChange. by rewrite E.
Qed.

(** Texts that are rounded, raised to 1 and kept, and three notations of
    twelve. *)
Lemma whole_fields_store_integers_witness :
  App.whole_at_least_1 (App.onChange "2.5") = Num.of_nat 3
  ∧ App.whole_at_least_1 (App.onChange "-4") = Num.of_nat 1
  ∧ App.whole_at_least_1 (App.onChange "Infinity") = PInf
  ∧ App.whole_at_least_1 (App.onChange "12") = Num.of_nat 12
  ∧ App.whole_at_least_1 (App.onChange "12.0") = Num.of_nat 12
  ∧ App.whole_at_least_1 (App.onChange "1.2e1") = Num.of_nat 12.
Proof.
  split; [vm_compute; reflexivity|]. split; [vm_compute; reflexivity|].
  split; [vm_compute; reflexivity|].
  split; [|split].
  - destruct (whole_fields_store_integers "12") as (_ & H & _).
    apply (H 12%nat); [lia|lia|]. vm_compute; reflexivity.
  - destruct (whole_fields_store_integers "12.0") as (_ & H & _).
    apply (H 12%nat); [lia|lia|]. vm_compute; reflexivity.
  - destruct (whole_fields_store_integers "1.2e1") as (_ & H & _).
    apply (H 12%nat); [lia|lia|]. vm_compute; reflexivity.
Defined.

(** ** The scenarios that the page reaches *)

Lemma handle_ok (sc : App.Scenario) (ev : App.Event) :
  scenario_ok sc → scenario_ok (App.handle sc ev).
Proof.
  intros (Hn & Hd & Hlam & Hmu & Hdata).
  destruct ev as [text|text|text|text|name text|]; unfold scenario_ok;
    cbn [App.handle App.setParams App.sc_params App.sc_dataset App.sc_fileName
         numServers duration arrivalRate serviceRate].
  - repeat split; try done. apply or_zero_is_num.
  - repeat split; try done. apply or_zero_is_num.
  - repeat split; try done. apply whole_at_least_1_spec, or_zero_is_num.
  - repeat split; try done. apply whole_at_least_1_spec, or_zero_is_num.
  - unfold App.handleFileUpload.
    destruct (Nat.eqb (length (parseCSV text)) 0) eqn:E; [done|].
    cbn [App.sc_params App.sc_dataset]. repeat split; try done.
    + intros E'. by rewrite E' in E.
    + apply parseCSV_accepted.
  - done.
Qed.

Lemma foldl_handle_ok (events : list App.Event) (sc : App.Scenario) :
  scenario_ok sc → scenario_ok (foldl App.handle sc events).
Proof.
  revert sc. induction events as [|ev events IH]; intros sc Hsc; [done|].
  cbn [foldl]. by apply IH, handle_ok.
Qed.

Lemma scenarioA_ok : scenario_ok App.scenarioA.
Proof.
  repeat split; try done; right;
    [exists 2%nat|exists 480%nat]; (split; [lia|reflexivity]).
Qed.

Lemma scenarioB_ok : scenario_ok App.scenarioB.
Proof.
  repeat split; try done; right;
    [exists 4%nat|exists 480%nat]; (split; [lia|reflexivity]).
Qed.

(** X17.  Whatever is typed, read and cleared on the page, in any order,
    the scenario keeps a number of servers and a duration that are
    integers from 1 on, or +Infinity, rates that are not NaN, and a
    dataset that is absent or has a row at least, all accepted by
    [parseCSV].  The run of a scenario with a dataset throws the
    RangeError of the array constructor when the number of servers is
    +Infinity or 2^32 and more; and when it returns a summary, the number
    of servers is an integer from 1 on and the summary has one entity per
    row, each assigned to one of the servers. *)
Theorem page_scenarios_run (Math_log : number → number)
    (Math_random : nat → Q) (fuel : nat) (sc0 : App.Scenario)
    (events : list App.Event) (rows : list DatasetRow) :
  sc0 = App.scenarioA ∨ sc0 = App.scenarioB →
  let sc := foldl App.handle sc0 events in
  scenario_ok sc
  ∧ (App.sc_dataset sc = Some rows →
     (1 ≤ length rows)%nat
     ∧ ((numServers (App.sc_params sc) = PInf
         ∨ ∃ k : nat, (2 ^ 32 ≤ Z.of_nat k)%Z
                      ∧ numServers (App.sc_params sc) = Num.of_nat k) →
        App.run Math_log Math_random fuel sc = Some RangeError)
     ∧ (∀ res, App.run Math_log Math_random fuel sc = Some (Normal res) →
          ∃ k : nat,
            (1 ≤ k)%nat
            ∧ numServers (App.sc_params sc) = Num.of_nat k
            ∧ totalCustomers res = length rows
            ∧ Forall (λ e, (1 ≤ serverAssigned e ≤ Z.of_nat k)%Z)
                (customers res))).
Proof.
  intros H0 sc.
  assert (scenario_ok sc) as Hok.
  { apply foldl_handle_ok.
    destruct H0 as [-> | ->]; [apply scenarioA_ok|apply scenarioB_ok]. }
  split; [done|]. intros Hrows.
  destruct Hok as (Hn & _ & _ & _ & Hdata). rewrite Hrows in Hdata.
  destruct Hdata as [Hne Hacc].
  split; [destruct rows; [done|cbn; lia]|].
  unfold App.run. rewrite Hrows. split.
  - intros [E|(k & Hk & E)]; rewrite E; [done|].
    unfold runSimulationFromDataset. rewrite new_Array_fill_of_nat.
    by assert ((Z.of_nat k <? 2 ^ 32)%Z = false) as -> by lia.
  - intros res [= Hres].
    destruct Hn as [E|(k & Hk & E)]; rewrite E in Hres; [done|].
    exists k. split; [done|]. split; [done|].
    pose proof (dataset_state_open rows k (length rows) Hk
                  (Forall_accepted_row_open _ Hacc) (le_n _))
      as (_ & _ & _ & Hlen & Hall).
    apply runSimulationFromDataset_summary in Hres as [r ->].
    by rewrite computeResults_totalCustomers, computeResults_customers.
Qed.

(** A file of two rows is read, and 3 is typed for the servers. *)
Lemma page_scenarios_run_witness :
  let sc := foldl App.handle App.scenarioA
              [App.FileRead "rows.csv" round_trip_blob;
               App.NumServersField "3"] in
  App.sc_dataset sc = Some two_rows
  ∧ (∃ res, App.run log_standin half_quarter 0 sc = Some (Normal res))
  ∧ scenario_ok sc
  ∧ (App.sc_dataset sc = Some two_rows →
     (1 ≤ length two_rows)%nat
     ∧ ((numServers (App.sc_params sc) = PInf
         ∨ ∃ k : nat, (2 ^ 32 ≤ Z.of_nat k)%Z
                      ∧ numServers (App.sc_params sc) = Num.of_nat k) →
        App.run log_standin half_quarter 0 sc = Some RangeError)
     ∧ (∀ res, App.run log_standin half_quarter 0 sc = Some (Normal res) →
          ∃ k : nat,
            (1 ≤ k)%nat
            ∧ numServers (App.sc_params sc) = Num.of_nat k
            ∧ totalCustomers res = length two_rows
            ∧ Forall (λ e, (1 ≤ serverAssigned e ≤ Z.of_nat k)%Z)
                (customers res))).
Proof.
  split; [vm_compute; reflexivity|].
  split; [eexists; vm_compute; reflexivity|].
  apply (page_scenarios_run log_standin half_quarter 0 App.scenarioA
           [App.FileRead "rows.csv" round_trip_blob; App.NumServersField "3"]
           two_rows).
  by left.
Defined.

(** A number of servers of 2^32 passes the field and stops the run. *)
Example page_run_throws :
  let sc := foldl App.handle App.scenarioA
              [App.FileRead "rows.csv" round_trip_blob;
               App.NumServersField "4294967296"] in
  App.run log_standin half_quarter 0 sc = Some RangeError.
Proof. vm_compute; reflexivity. Qed.

(** * One entity at a time on a server *)

Lemma stepper_keeps_apart (servers : list number) (t s : number)
    (cs : list CustomerRecord) (e : CustomerRecord) :
  servers ≠ [] → Forall not_low servers → Num.finite t →
  (Fin 0 <= s)%num →
  busy_inv servers cs →
  startServiceTime e = asg_startServiceTime (stepper servers t s) →
  endServiceTime e = asg_endServiceTime (stepper servers t s) →
  serverAssigned e = (asg_serverIndex (stepper servers t s) + 1)%Z →
  busy_inv (asg_servers (stepper servers t s)) (cs ++ [e]).
Proof.
  intros Hne Hnl Ht Hs [Hapart Hbusy] Hstart Hend Hidx.
  destruct (stepper_spec servers t s Hne (Forall_is_num_not_low _ Hnl)
              (is_num_finite _ Ht))
    as (k & next & Hk & Hi & Hst & _ & Hen & Hsrv).
  rewrite Hsrv. rewrite Hst in Hstart. rewrite Hen in Hend.
  rewrite Hi in Hidx. clear Hst Hen Hsrv Hi.
  destruct Hk as (Hlook & _).
  assert (not_low next) as Hn.
  { rewrite Forall_forall in Hnl. eapply Hnl, list_elem_of_lookup_2, Hlook. }
  assert (Z.to_nat (serverAssigned e - 1) = k) as Hke.
  { rewrite Hidx, Z.add_simpl_r. apply Nat2Z.id. }
  assert (next <= startServiceTime e)%num as Hns.
  { rewrite Hstart. apply le_max2_r; [by apply is_num_finite|].
    by apply is_num_not_low. }
  assert (startServiceTime e <= endServiceTime e)%num as Hse.
  { rewrite Hstart, Hend. apply add_nonneg_le_not_low; [|done].
    apply max2_not_low; auto using not_low_finite. }
  assert (∀ x, x ∈ cs → Z.to_nat (serverAssigned x - 1) = k →
            (endServiceTime x <= next)%num) as Hold.
  { intros x Hx Hsame. apply (Hbusy x next Hx). by rewrite Hsame. }
  split.
  - intros i j x y Hij Hx Hy Hsame.
    destruct (decide (j < length cs)%nat) as [Hj|Hj].
    + rewrite lookup_app_l in Hx, Hy by lia.
      exact (Hapart i j x y Hij Hx Hy Hsame).
    + rewrite lookup_app_r in Hy by lia.
      destruct (j - length cs)%nat eqn:Ej; [|by destruct n].
      injection Hy as <-. rewrite lookup_app_l in Hx by lia.
      eapply num_le_trans; [|done].
      apply Hold; [by eapply list_elem_of_lookup_2|by rewrite Hsame].
  - intros x y Hx Hy. rewrite <- Hend in Hy.
    apply list_lookup_insert_Some in Hy as [(Hkx & <- & _)|(Hkx & Hy)].
    + apply elem_of_app in Hx as [Hx | Hx%list_elem_of_singleton].
      * eapply num_le_trans; [apply Hold; [done|done]|].
        by eapply num_le_trans.
      * subst x. apply num_le_refl. by eapply num_le_is_num_r.
    + apply elem_of_app in Hx as [Hx | Hx%list_elem_of_singleton].
      * by apply Hbusy.
      * subst x. by rewrite Hke in Hkx.
Qed.

Lemma busy_inv_nil (servers : list number) : busy_inv servers [].
Proof. split; [by intros i j e e' _ Hx|]. by intros e y Hx%elem_of_nil. Qed.

Lemma dataset_state_apart (dataset : list DatasetRow) (c i : nat) :
  (1 ≤ c)%nat → Forall nonneg_service_row dataset →
  (i ≤ length dataset)%nat →
  busy_inv (ls_servers (dataset_state dataset c i))
    (ls_customers (dataset_state dataset c i)).
Proof.
  intros Hc Hrows Hi.
  assert (Forall finite_row dataset) as Hfin.
  { eapply Forall_impl; [done|]. by intros r (? & _). }
  cut (dataset_inv c i (dataset_state dataset c i)
       ∧ busy_inv (ls_servers (dataset_state dataset c i))
           (ls_customers (dataset_state dataset c i))); [by intros []|].
  revert i Hi.
  apply (dataset_state_ind
           (λ i s, dataset_inv c i s
                   ∧ busy_inv (ls_servers s) (ls_customers s))).
  - split; [|apply busy_inv_nil].
    rewrite <- (dataset_state_0 dataset c).
    apply dataset_state_inv; [done|done|lia].
  - intros i r s Hr [Hinv Hbusy].
    rewrite Forall_forall in Hrows, Hfin.
    pose proof (list_elem_of_lookup_2 _ _ _ Hr) as Hin.
    destruct (Hrows r Hin) as [Hfr Hst].
    split; [apply dataset_body_inv; auto|].
    destruct Hinv as (Hlen & Hsrv & Ht & _).
    pose proof (dataset_body_clock_finite i r s Hfr Ht) as Ht'.
    cbn [dataset_body ls_customers ls_currentTime ls_servers] in *.
    apply stepper_keeps_apart; try done.
    + apply nonempty_length. lia.
    + eapply Forall_impl; [done|apply not_low_finite].
Qed.

Section RandomServers.

Variable Math_log : number → number.
Variable Math_random : nat → Q.

Hypothesis log_sign :
  ∀ q : Q, 0 <= q → q < 1 → (Math_log (Fin q) <= Fin 0)%num.
Hypothesis random_range : ∀ n : nat, 0 <= Math_random n ∧ Math_random n < 1.

Lemma sim_state_at_apart (lam mu d : Q) (c n : nat) (s : SimState) :
  0 < lam → 0 < mu → (1 ≤ c)%nat →
  sim_state_at Math_log Math_random (params lam mu c d) n
    (sim_init (replicate c Num.zero)) = Some s →
  busy_inv (sim_servers s) (sim_customers s).
Proof.
  intros Hlam Hmu Hc Hs.
  cut (sim_inv c n s ∧ busy_inv (sim_servers s) (sim_customers s));
    [by intros []|].
  revert n s Hs.
  apply (sim_state_at_ind Math_log Math_random
           (λ n s, sim_inv c n s
                   ∧ busy_inv (sim_servers s) (sim_customers s))).
  - split; [apply sim_init_inv|apply busy_inv_nil].
  - intros n s1 s2 [Hinv Hbusy] _ Hb.
    pose proof (sim_body_inv Math_log Math_random log_sign random_range
                  lam mu d c n s1 s2 Hlam Hmu Hc Hb Hinv) as Hinv'.
    split; [done|].
    destruct Hinv' as (_ & _ & Ht' & _).
    destruct Hinv as (Hlen & Hsrv & _).
    apply sim_body_Continue in Hb
      as (e & Hcs & _ & _ & Harr & _ & _ & Hst & Hsrv' & _ & Hstart & Hend
          & Hidx).
    cbn [serviceRate params] in Hst.
    destruct (sample_not_low Math_log Math_random log_sign random_range
                mu (S (sim_calls s1)) Hmu) as (_ & Hv).
    rewrite Hcs, Hsrv'. apply stepper_keeps_apart; try done.
    + apply nonempty_length. lia.
    + by rewrite Harr.
    + by rewrite Hst.
Qed.

(** X18.  No server serves two entities at once.  On the dataset path, for
    finite rows whose service times are not negative, and on the
    random-draw path, for positive rates, both with at least one server:
    of two entities of a run that were assigned to the same server, the
    later one starts its service when the earlier one has ended, or
    later. *)
Theorem no_server_serves_two_at_once :
  (∀ (dataset : list DatasetRow) (c : nat) (res : SimulationResult),
     (1 ≤ c)%nat → Forall nonneg_service_row dataset →
     runSimulationFromDataset dataset (Num.of_nat c) = Normal res →
     served_apart (customers res))
  ∧
  (∀ (fuel : nat) (lam mu d : Q) (c : nat) (res : SimulationResult),
     0 < lam → 0 < mu → (1 ≤ c)%nat →
     runSimulation Math_log Math_random fuel (params lam mu c d)
       = Some (Normal res) →
     served_apart (customers res)).
Proof.
  split.
  - intros dataset c res Hc Hrows Hrun.
    apply runSimulationFromDataset_Normal in Hrun as [_ ->].
    by destruct (dataset_state_apart dataset c (length dataset) Hc Hrows).
  - intros fuel lam mu d c res Hlam Hmu Hc Hrun.
    apply runSimulation_Normal in Hrun as (_ & n & s & Hs & ->).
    by destruct (sim_state_at_apart lam mu d c n s Hlam Hmu Hc Hs).
Qed.

End RandomServers.

Lemma no_server_serves_two_at_once_witness :
  (∃ res,
     runSimulationFromDataset two_long_services (Num.of_nat 1) = Normal res
     ∧ served_apart (customers res))
  ∧
  (∃ res,
     runSimulation log_standin half_quarter 10 (params 1 1 1 2)
       = Some (Normal res)
     ∧ served_apart (customers res)).
Proof.
  destruct (no_server_serves_two_at_once log_standin half_quarter
              log_standin_sign half_quarter_range) as [Hdata Hrand].
  split.
  - eexists. split; [vm_compute; reflexivity|].
    apply (Hdata two_long_services 1%nat).
    + lia.
    + repeat constructor.
    + vm_compute; reflexivity.
  - eexists. split; [vm_compute; reflexivity|].
    apply (Hrand 10%nat 1 1 2 1%nat).
    + lra.
    + lra.
    + lia.
    + vm_compute; reflexivity.
Defined.

(** * The entities of a valid dataset *)

Lemma stepper_good (servers : list number) (t s : number) :
  servers ≠ [] → Forall Num.finite servers →
  Num.finite t → (Fin 0 <= t)%num → Num.finite s → (Fin 0 < s)%num →
  finite_nonneg (asg_waitTime (stepper servers t s))
  ∧ Num.finite (asg_endServiceTime (stepper servers t s))
  ∧ (Fin 0 < asg_endServiceTime (stepper servers t s))%num.
Proof.
  intros Hne Hfin Ht Ht0 Hs Hs0.
  destruct (stepper_spec servers t s Hne (Forall_is_num_finite _ Hfin)
              (is_num_finite _ Ht)) as (k & next & Hk & _ & _ & -> & -> & _).
  destruct Hk as (Hk & _).
  assert (Num.finite next) as Hn.
  { rewrite Forall_forall in Hfin. eapply Hfin, list_elem_of_lookup_2, Hk. }
  destruct t as [| | |a]; try done. destruct next as [| | |n]; try done.
  destruct s as [| | |sv]; try done.
  rewrite (max2_num (Fin a) (Fin n)) by done.
  destruct (Num.ltb (Fin a) (Fin n)) eqn:E; repeat split; num_solve.
Qed.

Lemma dataset_state_good (dataset : list DatasetRow) (c i : nat) :
  (1 ≤ c)%nat → Forall valid_row dataset → (i ≤ length dataset)%nat →
  Forall good_entity (ls_customers (dataset_state dataset c i)).
Proof.
  intros Hc Hrows Hi.
  assert (Forall finite_row dataset) as Hfin.
  { eapply Forall_impl; [done|]. by intros r (? & _). }
  cut (dataset_inv c i (dataset_state dataset c i)
       ∧ (Fin 0 <= ls_currentTime (dataset_state dataset c i))%num
       ∧ Forall good_entity (ls_customers (dataset_state dataset c i)));
    [by intros (_ & _ & ?)|].
  revert i Hi.
  apply (dataset_state_ind
           (λ i s, dataset_inv c i s
                   ∧ (Fin 0 <= ls_currentTime s)%num
                   ∧ Forall good_entity (ls_customers s))).
  - split; [|by split].
    rewrite <- (dataset_state_0 dataset c).
    apply dataset_state_inv; [done|done|lia].
  - intros i r s Hr (Hinv & Hpos & Hall).
    rewrite Forall_forall in Hrows, Hfin.
    pose proof (list_elem_of_lookup_2 _ _ _ Hr) as Hin.
    destruct (Hrows r Hin) as (Hfr & Hiat & Hst).
    split; [apply dataset_body_inv; auto|].
    destruct Hinv as (Hlen & Hsrv & Ht & _).
    pose proof (dataset_body_clock_finite i r s Hfr Ht) as Ht'.
    pose proof (dataset_body_clock_le i r s (conj Hfr Hiat) Ht) as Hle.
    pose proof (num_le_trans _ _ _ Hpos Hle) as Hpos'.
    destruct (stepper_good (ls_servers s)
                (ls_currentTime (dataset_body i r s)) (row_serviceTime r))
      as (Hw & Hend & Hend0); try done.
    { apply nonempty_length. lia. }
    { apply Hfr. }
    split; [done|].
    cbn [dataset_body ls_customers]. apply Forall_app. split; [done|].
    repeat constructor; cbn; try done; try apply Hw; try apply Hfr.
    by apply num_lt_le.
Qed.

(** * White space around the blob *)

Lemma trimStart_blank (s : string) :
  all_space s = true → Str.trimStart s = EmptyString.
Proof.
  induction s as [|c r IH]; [done|]. cbn.
  destruct (Str.is_space c); [|done]. apply IH.
Qed.

Lemma trimEnd_blank (s : string) :
  all_space s = true → Str.trimEnd s = EmptyString.
Proof.
  induction s as [|c r IH]; [done|]. cbn.
  destruct (Str.is_space c); [|done]. intros H. by rewrite (IH H).
Qed.

Lemma trimStart_app_blank (pre s : string) :
  all_space pre = true → Str.trimStart (pre ++ s)%string = Str.trimStart s.
Proof.
  induction pre as [|c r IH]; [done|]. cbn.
  destruct (Str.is_space c); [|done]. apply IH.
Qed.

Lemma trimEnd_app_blank (s post : string) :
  all_space post = true → Str.trimEnd (s ++ post)%string = Str.trimEnd s.
Proof.
  intros Hpost. induction s as [|c r IH]; cbn.
  - by apply trimEnd_blank.
  - by rewrite IH.
Qed.

Lemma trimStart_app (s post : string) :
  Str.trimStart (s ++ post)%string
  = if all_space s then Str.trimStart post
    else (Str.trimStart s ++ post)%string.
Proof.
  induction s as [|c r IH]; [done|]. cbn.
  destruct (Str.is_space c); [|done]. apply IH.
Qed.

Lemma trim_blank_around (pre s post : string) :
  all_space pre = true → all_space post = true →
  Str.trim (pre ++ s ++ post)%string = Str.trim s.
Proof.
  intros Hpre Hpost. unfold Str.trim.
  rewrite trimStart_app_blank, trimStart_app by done.
  destruct (all_space s) eqn:E.
  - by rewrite (trimStart_blank post Hpost), (trimStart_blank s E).
  - by apply trimEnd_app_blank.
Qed.

(** X20.  White space around the blob does not count: [parseCSV] returns
    the same rows when the text is put between two texts of white space
    (spaces, tabs, line ends), so that blank lines before the header and a
    line end after the last data line change nothing. *)
Theorem parseCSV_ignores_blank_margins (pre csvText post : string) :
  all_space pre = true → all_space post = true →
  parseCSV (pre ++ csvText ++ post)%string = parseCSV csvText.
Proof.
  intros Hpre Hpost. unfold parseCSV.
  by rewrite (trim_blank_around pre csvText post Hpre Hpost).
Qed.

Lemma parseCSV_ignores_blank_margins_witness :
  all_space LF = true ∧ all_space (CR ++ LF)%string = true
  ∧ parseCSV (LF ++ round_trip_blob ++ (CR ++ LF))%string
    = parseCSV round_trip_blob.
Proof.
  split; [reflexivity|]. split; [reflexivity|].
  apply (parseCSV_ignores_blank_margins LF round_trip_blob (CR ++ LF)%string);
    reflexivity.
Defined.

(** * The utilization of one server *)

Lemma stepper_single_end (x t s : number) :
  Num.finite x → Num.finite t →
  asg_endServiceTime (stepper [x] t s) = (Num.max2 t x + s)%num.
Proof.
  intros Hx Ht.
  destruct (stepper_spec [x] t s) as (k & next & (Hk & _) & _ & _ & _ & -> & _).
  - done.
  - repeat constructor. by apply is_num_finite.
  - by apply is_num_finite.
  - destruct k as [|k]; [|done]. by injection Hk as ->.
Qed.

Lemma busy_time_snoc (cs : list CustomerRecord) (e : CustomerRecord) :
  busy_time (cs ++ [e]) == busy_time cs + to_Q (serviceTime e).
Proof. unfold busy_time. rewrite map_app. cbn [map]. apply Qsum_snoc. Qed.

(** The loop on one server: the server is next available when the last
    entity ends, which is no earlier than the busy time so far. *)
Lemma dataset_state_busy (dataset : list DatasetRow) (i : nat) :
  Forall finite_row dataset → (i ≤ length dataset)%nat →
  ∃ x, ls_servers (dataset_state dataset 1 i) = [Fin x]
    ∧ busy_time (ls_customers (dataset_state dataset 1 i)) <= x
    ∧ Forall (λ e, Num.finite (serviceTime e))
        (ls_customers (dataset_state dataset 1 i))
    ∧ ∀ e, last (ls_customers (dataset_state dataset 1 i)) = Some e →
        endServiceTime e = Fin x.
Proof.
  intros Hrows Hi.
  cut (dataset_inv 1 i (dataset_state dataset 1 i)
       ∧ ∃ x, ls_servers (dataset_state dataset 1 i) = [Fin x]
           ∧ busy_time (ls_customers (dataset_state dataset 1 i)) <= x
           ∧ Forall (λ e, Num.finite (serviceTime e))
               (ls_customers (dataset_state dataset 1 i))
           ∧ ∀ e, last (ls_customers (dataset_state dataset 1 i)) = Some e →
               endServiceTime e = Fin x); [by intros []|].
  revert i Hi.
  apply (dataset_state_ind
           (λ i s, dataset_inv 1 i s
                   ∧ ∃ x, ls_servers s = [Fin x]
                       ∧ busy_time (ls_customers s) <= x
                       ∧ Forall (λ e, Num.finite (serviceTime e))
                           (ls_customers s)
                       ∧ ∀ e, last (ls_customers s) = Some e →
                           endServiceTime e = Fin x)).
  - split.
    + rewrite <- (dataset_state_0 dataset 1).
      apply dataset_state_inv; [done|done|lia].
    + exists 0. cbn. repeat split; try done; unfold busy_time; cbn; lra.
  - intros i r s Hr (Hinv & x & Hsrv & Hbusy & Hfin & _).
    rewrite Forall_forall in Hrows.
    pose proof (Hrows r (list_elem_of_lookup_2 _ _ _ Hr)) as Hfr.
    split; [by apply dataset_body_inv|].
    destruct Hinv as (_ & _ & Ht & _).
    pose proof (dataset_body_clock_finite i r s Hfr Ht) as Ht'.
    cbn [dataset_body ls_customers ls_currentTime ls_servers] in *.
    rewrite Hsrv.
    set (t := (ls_currentTime s
               + (if Nat.eqb i 0 then Num.zero else row_interArrivalTime r))%num)
      in *.
    destruct (stepper_single (Fin x) t (row_serviceTime r) I Ht') as [-> _].
    rewrite (stepper_single_end (Fin x) t (row_serviceTime r) I Ht').
    destruct Hfr as [_ Hst].
    destruct t as [| | |a]; try done.
    destruct (row_serviceTime r) as [| | |sv] eqn:Esv; try done.
    rewrite (max2_num (Fin a) (Fin x)) by done.
    destruct (Num.ltb (Fin a) (Fin x)) eqn:E; cbn [Num.add].
    + exists (x + sv). split; [done|]. split; [|split].
      * rewrite busy_time_snoc. cbn [serviceTime to_Q]. lra.
      * apply Forall_app. split; [done|]. by repeat constructor.
      * intros e He. rewrite last_snoc in He. by injection He as <-.
    + exists (a + sv). split; [done|]. split; [|split].
      * rewrite busy_time_snoc. cbn [serviceTime to_Q]. num_props. lra.
      * apply Forall_app. split; [done|]. by repeat constructor.
      * intros e He. rewrite last_snoc in He. by injection He as <-.
Qed.

(** X22.  On one server the clamp of the utilization does not act: for a
    dataset of valid rows that is not empty, the total of the service
    times is at most the time at which the last entity ends, and the
    utilization of the summary is that total over that time, in percent,
    as the formula gives it before the clamp at 100. *)
Theorem single_server_utilization (dataset : list DatasetRow)
    (res : SimulationResult) :
  Forall valid_row dataset → dataset ≠ [] →
  runSimulationFromDataset dataset (Num.of_nat 1) = Normal res →
  ∃ e, last (customers res) = Some e
    ∧ (totalServiceTime (customers res) <= endServiceTime e)%num
    ∧ serverUtilization res
      = (totalServiceTime (customers res)
         / (Num.of_nat 1 * endServiceTime e) * Num.of_nat 100)%num.
Proof.
  intros Hrows Hne Hrun.
  assert (Forall finite_row dataset) as Hfinr.
  { eapply Forall_impl; [done|]. by intros r (? & _). }
  pose proof (dataset_state_good dataset 1 (length dataset) (le_n _) Hrows
                (le_n _)) as Hgood.
  destruct (dataset_state_busy dataset (length dataset) Hfinr (le_n _))
    as (x & _ & Hbusy & Hfin & Hlast).
  assert (length (ls_customers (dataset_state dataset 1 (length dataset)))
          = length dataset) as Hlen.
  { by destruct (dataset_state_mirror dataset 1 (length dataset) (le_n _)). }
  unfold runSimulationFromDataset in Hrun.
  rewrite new_Array_fill_of_nat in Hrun.
  destruct (Z.of_nat 1 <? 2 ^ 32)%Z; [|done].
  rewrite <- dataset_state_all in Hrun. injection Hrun as <-.
  set (cs := ls_customers (dataset_state dataset 1 (length dataset))) in *.
  rewrite computeResults_customers.
  destruct (last cs) as [e|] eqn:El.
  2:{ apply last_None in El. rewrite El in Hlen. by destruct dataset. }
  exists e. split; [done|].
  pose proof (Hlast e eq_refl) as Hend. rewrite Hend.
  rewrite Forall_forall in Hgood.
  destruct (Hgood e (last_Some_elem_of _ _ El)) as (_ & _ & _ & Hpos).
  rewrite Hend in Hpos.
  unfold computeResults.
  destruct (Nat.eqb (length cs) 0) eqn:En.
  { apply Nat.eqb_eq in En. rewrite Hlen in En. by destruct dataset. }
  cbn [serverUtilization]. fold (totalServiceTime cs).
  pose proof (foldl_sum serviceTime cs 0 Hfin) as Hsum.
  fold (busy_time cs) in Hsum.
  change (foldl (λ sum c, sum + serviceTime c)%num (Fin 0) cs)
    with (totalServiceTime cs) in Hsum.
  destruct (totalServiceTime cs) as [| | |T]; try done.
  change (T == 0 + busy_time cs) in Hsum.
  assert (0 < x) as Hx by num_solve.
  split; [num_props; lra|].
  assert ((Fin x >? Num.zero)%num = true) as -> by num_solve.
  unfold Num.of_nat, Num.of_Z. cbn [Num.mul Num.div].
  change (inject_Z (Z.of_nat 1)) with 1%Q.
  change (inject_Z (Z.of_nat 100)) with 100%Q.
  assert (0 < 1 * x) as H1x by lra.
  rewrite (Qcompare_Gt _ H1x). cbn [Num.mul].
  set (u := T / (1 * x) * 100).
  assert (u == busy_time cs / x * 100) as Hu.
  { unfold u. rewrite Hsum. field. lra. }
  assert (u <= 100) as Hu100.
  { rewrite Hu. unfold Qdiv.
    assert (busy_time cs * / x <= 1); [|lra].
    apply Qle_shift_div_r; lra. }
  rewrite (min2_num (Fin u) (Fin 100)) by done.
  by assert (Num.ltb (Fin 100) (Fin u) = false) as -> by num_solve.
Qed.

(** The round trip: services of 3 and 1 until the time 5. *)
Lemma single_server_utilization_witness :
  ∃ res,
    runSimulationFromDataset two_rows (Num.of_nat 1) = Normal res
    ∧ serverUtilization res ≡ Fin 80
    ∧ ∃ e, last (customers res) = Some e
        ∧ endServiceTime e ≡ Fin 5
        ∧ (totalServiceTime (customers res) <= endServiceTime e)%num
        ∧ serverUtilization res
          = (totalServiceTime (customers res)
             / (Num.of_nat 1 * endServiceTime e) * Num.of_nat 100)%num.
Proof.
  eexists. split; [vm_compute; reflexivity|].
  split; [vm_compute; reflexivity|].
  destruct (single_server_utilization two_rows _ ltac:(repeat constructor)
              ltac:(done) eq_refl) as (e & He & Hle & Hu).
  exists e. split; [done|]. split; [|done].
  vm_compute in He. injection He as <-. vm_compute. reflexivity.
Defined.

(** On two servers the clamp acts: the utilization before the clamp is
    5050, since the run ends for the summary when the last entity does. *)
Example clamp_acts_on_two_servers :
  ∃ res,
    runSimulationFromDataset long_then_short (Num.of_nat 2) = Normal res
    ∧ serverUtilization res ≡ Fin 100
    ∧ busy_time (customers res) == 101
    ∧ (∃ e, last (customers res) = Some e ∧ endServiceTime e ≡ Fin 1).
Proof.
  eexists. split; [vm_compute; reflexivity|].
  split; [vm_compute; reflexivity|]. split; [vm_compute; reflexivity|].
  eexists. split; vm_compute; reflexivity.
Qed.

(** * Longer inputs *)

Lemma dataset_state_take (dataset : list DatasetRow) (c n i : nat) :
  (i ≤ n)%nat →
  dataset_state (take n dataset) c i = dataset_state dataset c i.
Proof.
  intros Hi. unfold dataset_state. by rewrite take_take, Nat.min_l.
Qed.

(** X24.  Later rows do not change earlier entities: the entities that
    [runSimulationFromDataset] returns for the first [n] rows of a dataset
    are the first [n] entities that it returns for the whole dataset,
    whatever the rows and the number of servers are. *)
Theorem entities_do_not_depend_on_later_rows (dataset : list DatasetRow)
    (numServers : number) (n : nat) (res res' : SimulationResult) :
  runSimulationFromDataset dataset numServers = Normal res →
  runSimulationFromDataset (take n dataset) numServers = Normal res' →
  customers res' = take n (customers res).
Proof.
  unfold runSimulationFromDataset.
  destruct (new_Array_fill numServers Num.zero) as [servers|] eqn:E; [|done].
  apply new_Array_fill_replicate in E as [c ->]. intros [= <-] [= <-].
  rewrite <- !dataset_state_all, !computeResults_customers.
  destruct (decide (n ≤ length dataset)%nat) as [Hn|Hn].
  - rewrite length_take, Nat.min_l by done.
    rewrite dataset_state_take by done.
    destruct (dataset_state_customers_prefix dataset c n (length dataset) Hn
                (le_n _)) as [rest Hrest].
    rewrite Hrest.
    destruct (dataset_state_mirror dataset c n Hn) as [Hlen _].
    by rewrite take_app_length' by done.
  - rewrite take_ge by lia.
    destruct (dataset_state_mirror dataset c (length dataset) (le_n _))
      as [Hlen _].
    rewrite take_ge; [done|]. lia.
Qed.

Lemma entities_do_not_depend_on_later_rows_witness :
  ∃ res res',
    runSimulationFromDataset two_long_services (Num.of_nat 1) = Normal res
    ∧ runSimulationFromDataset (take 1 two_long_services) (Num.of_nat 1)
      = Normal res'
    ∧ customers res' = take 1 (customers res).
Proof.
  eexists _, _. split; [vm_compute; reflexivity|].
  split; [vm_compute; reflexivity|].
  apply (entities_do_not_depend_on_later_rows two_long_services
           (Num.of_nat 1) 1); vm_compute; reflexivity.
Defined.

Section LongerHorizon.

Variable Math_log : number → number.
Variable Math_random : nat → Q.

(** The loop ends after some number of complete iterations, and makes no
    further one. *)
Lemma sim_loop_last (fuel : nat) (p : SimulationParams) (s0 sf : SimState) :
  sim_loop Math_log Math_random fuel p s0 = Some sf →
  ∃ n s,
    sim_state_at Math_log Math_random p n s0 = Some s
    ∧ sim_customers sf = sim_customers s
    ∧ sim_state_at Math_log Math_random p (S n) s0 = None.
Proof.
  revert s0. induction fuel as [|fuel IH]; intros s0; cbn [sim_loop].
  - destruct (_ <? _)%num eqn:E; [done|]. intros [= <-].
    exists 0%nat, s0. repeat split. cbn. by rewrite E.
  - destruct (_ <? _)%num eqn:E.
    2:{ intros [= <-]. exists 0%nat, s0. repeat split. cbn. by rewrite E. }
    destruct (sim_body Math_log Math_random p s0) as [s'|s'] eqn:Eb.
    + intros Hl. destruct (IH _ Hl) as (n & s & Hs & Hc & Hnone).
      exists (S n), s. split; [cbn; by rewrite E, Eb|]. split; [done|].
      change (sim_state_at Math_log Math_random p (S (S n)) s0)
        with (if (sim_currentTime s0 <? duration p)%num then
                match sim_body Math_log Math_random p s0 with
                | Continue s' => sim_state_at Math_log Math_random p (S n) s'
                | Break _ => None
                end
              else None).
      by rewrite E, Eb.
    + intros [= <-]. exists 0%nat, s0. split; [done|].
      split; [by apply (sim_body_Break Math_log Math_random p s0 s')|].
      cbn. by rewrite E, Eb.
Qed.

(** The iterations of a run are iterations of the run with a longer
    duration. *)
Lemma sim_state_at_longer (lam mu ns : number) (d1 d2 : Q) (n : nat)
    (s0 s : SimState) :
  d1 <= d2 →
  sim_state_at Math_log Math_random
    {| arrivalRate := lam; serviceRate := mu; numServers := ns;
       duration := Fin d1 |} n s0 = Some s →
  sim_state_at Math_log Math_random
    {| arrivalRate := lam; serviceRate := mu; numServers := ns;
       duration := Fin d2 |} n s0 = Some s.
Proof.
  intros Hd. revert s0. induction n as [|n IH]; intros s0; [done|].
  cbn [sim_state_at duration].
  destruct (sim_currentTime s0 <? Fin d1)%num eqn:E1; [|done].
  assert ((sim_currentTime s0 <? Fin d2)%num = true) as ->.
  { destruct (sim_currentTime s0); try done. num_solve. }
  unfold sim_body.
  cbn [exponentialRandom arrivalRate serviceRate duration fst snd].
  set (t := (sim_currentTime s0 + _)%num).
  destruct (t >=? Fin d1)%num eqn:E; [done|].
  assert ((t >=? Fin d2)%num = false) as ->.
  { destruct t; try done. num_solve. }
  apply IH.
Qed.

(** X25.  A longer horizon only appends entities: for the same rates,
    servers and draws, whatever they are, the entities of a run with
    duration [d1] are the first entities of the run with a duration
    [d2 >= d1]. *)
Theorem longer_horizon_appends_entities (fuel1 fuel2 : nat)
    (lam mu ns : number) (d1 d2 : Q) (res1 res2 : SimulationResult) :
  d1 <= d2 →
  runSimulation Math_log Math_random fuel1
    {| arrivalRate := lam; serviceRate := mu; numServers := ns;
       duration := Fin d1 |} = Some (Normal res1) →
  runSimulation Math_log Math_random fuel2
    {| arrivalRate := lam; serviceRate := mu; numServers := ns;
       duration := Fin d2 |} = Some (Normal res2) →
  customers res1 `prefix_of` customers res2.
Proof.
  intros Hd. unfold runSimulation. cbn [numServers].
  destruct (new_Array_fill ns Num.zero) as [servers|]; [|done].
  destruct (sim_loop Math_log Math_random fuel1 _ _) as [sf1|] eqn:E1;
    [|done].
  destruct (sim_loop Math_log Math_random fuel2 _ _) as [sf2|] eqn:E2;
    [|done].
  cbn. intros [= <-] [= <-]. rewrite !computeResults_customers.
  apply sim_loop_final in E1 as (n1 & s1 & Hs1 & ->).
  apply sim_loop_last in E2 as (n2 & s2 & Hs2 & -> & Hnone).
  apply (sim_state_at_longer lam mu ns d1 d2 n1 _ s1 Hd) in Hs1.
  destruct (decide (n1 ≤ n2)%nat) as [Hle|Hgt].
  - destruct (sim_state_at_le Math_log Math_random _ n2 n1 _ _ Hle Hs2)
      as (s & Hs & Hpre).
    rewrite Hs1 in Hs. by injection Hs as <-.
  - destruct (sim_state_at_le Math_log Math_random _ n1 (S n2) _ _
                ltac:(lia) Hs1) as (s & Hs & _).
    by rewrite Hnone in Hs.
Qed.

End LongerHorizon.

Lemma longer_horizon_appends_entities_witness :
  ∃ res1 res2,
    runSimulation log_standin half_quarter 10 (params 1 1 1 1)
      = Some (Normal res1)
    ∧ runSimulation log_standin half_quarter 10 (params 1 1 1 2)
      = Some (Normal res2)
    ∧ totalCustomers res1 = 2%nat ∧ totalCustomers res2 = 4%nat
    ∧ customers res1 `prefix_of` customers res2.
Proof.
  eexists _, _. split; [vm_compute; reflexivity|].
  split; [vm_compute; reflexivity|].
  split; [vm_compute; reflexivity|]. split; [vm_compute; reflexivity|].
  apply (longer_horizon_appends_entities log_standin half_quarter 10 10
           (Fin 1) (Fin 1) (Num.of_nat 1) 1 2).
  - lra.
  - vm_compute; reflexivity.
  - vm_compute; reflexivity.
Defined.

(** * The number of servers of the dataset path *)

Lemma Q_is_int_spec (q : Q) :
  Q_is_int q = true ↔ q == inject_Z (Qnum q / Zpos (Qden q)).
Proof.
  unfold Q_is_int, Qeq. cbn [Qnum Qden inject_Z]. rewrite Z.eqb_eq.
  rewrite Z.mul_1_r. split.
  - intros H. apply Z.div_exact in H; [|done]. lia.
  - intros H. rewrite H. apply Z.mod_mul. done.
Qed.

(** X26.  The dataset has no part in the RangeError of the array
    constructor: whatever the rows are, [runSimulationFromDataset] throws
    it when the number of servers is no integer from 0 to 2^32 - 1, as a
    negative number, a fraction, NaN or an infinity are. *)
Theorem dataset_run_throws (dataset : list DatasetRow) (numServers : number) :
  (¬ ∃ c : nat, (Z.of_nat c < 2 ^ 32)%Z ∧ numServers ≡ Num.of_nat c) →
  runSimulationFromDataset dataset numServers = RangeError.
Proof.
  intros Hno. unfold runSimulationFromDataset, new_Array_fill.
  destruct numServers as [| | |q]; try done.
  destruct (Q_is_int q) eqn:Ei; cbn [andb]; [|done].
  apply Q_is_int_spec in Ei.
  destruct (Qle_bool 0 q) eqn:E0; cbn [andb]; [|done].
  destruct (Qle_bool q (inject_Z (2 ^ 32 - 1))) eqn:E1; [|done].
  destruct Hno. q_props.
  exists (Z.to_nat (Qnum q / Z.pos (Qden q))).
  assert (0 <= Qnum q / Z.pos (Qden q))%Z as Hpos.
  { rewrite Zle_Qle. change (inject_Z 0) with 0%Q. lra. }
  assert (Qnum q / Z.pos (Qden q) <= 2 ^ 32 - 1)%Z as Hmax.
  { rewrite Zle_Qle. lra. }
  split; [lia|]. unfold Num.of_nat, Num.of_Z.
  rewrite Z2Nat.id by done. exact Ei.
Qed.

(** Two and a half servers. *)
Lemma dataset_run_throws_witness :
  (¬ ∃ c : nat, (Z.of_nat c < 2 ^ 32)%Z ∧ Fin (5 # 2) ≡ Num.of_nat c)
  ∧ runSimulationFromDataset two_rows (Fin (5 # 2)) = RangeError.
Proof.
  assert (¬ ∃ c : nat, (Z.of_nat c < 2 ^ 32)%Z ∧ Fin (5 # 2) ≡ Num.of_nat c)
    as Hno.
  { intros (c & _ & E). unfold equiv, number_equiv in E. cbn in E.
    unfold Qeq in E. cbn in E. lia. }
  split; [exact Hno|]. exact (dataset_run_throws two_rows (Fin (5 # 2)) Hno).
Defined.

(** Two servers given as the fraction 4/2, and two and a half servers. *)
Example dataset_run_on_a_fraction :
  (∃ res, runSimulationFromDataset two_rows (Fin (4 # 2)) = Normal res)
  ∧ runSimulationFromDataset two_rows (Fin (5 # 2)) = RangeError
  ∧ runSimulationFromDataset two_rows (Fin (-1)) = RangeError
  ∧ runSimulationFromDataset two_rows NaN = RangeError.
Proof. split; [by eexists|]. by repeat split. Qed.

(** ** No server *)

Lemma stepper_no_server (t s : number) :
  stepper [] t s
  = {| asg_servers := []; asg_serverIndex := (-1)%Z; asg_waitTime := NaN;
       asg_startServiceTime := NaN; asg_endServiceTime := NaN |}.
Proof. unfold stepper. cbn. by destruct t, s. Qed.

Lemma dataset_state_no_server (dataset : list DatasetRow) (i : nat) :
  (i ≤ length dataset)%nat →
  ls_servers (dataset_state dataset 0 i) = []
  ∧ Forall (λ e, serverAssigned e = 0%Z ∧ waitTime e = NaN
                 ∧ startServiceTime e = NaN ∧ endServiceTime e = NaN)
      (ls_customers (dataset_state dataset 0 i)).
Proof.
  apply (dataset_state_ind
           (λ i s, ls_servers s = []
                   ∧ Forall (λ e, serverAssigned e = 0%Z ∧ waitTime e = NaN
                                  ∧ startServiceTime e = NaN
                                  ∧ endServiceTime e = NaN)
                       (ls_customers s))).
  - by split.
  - intros j r s _ [Hsrv Hall].
    cbn [dataset_body ls_servers ls_customers]. rewrite Hsrv.
    rewrite stepper_no_server. cbn [asg_servers asg_serverIndex asg_waitTime
      asg_startServiceTime asg_endServiceTime].
    split; [done|]. apply Forall_app. split; [done|]. by repeat constructor.
Qed.

Lemma foldl_add_NaN {A} (f : A → number) (xs : list A) :
  foldl (λ sum x, sum + f x)%num NaN xs = NaN.
Proof. induction xs as [|x xs IH]; [done|]. cbn. exact IH. Qed.

Lemma foldl_max2_NaN (xs : list number) : foldl Num.max2 NaN xs = NaN.
Proof. induction xs as [|x xs IH]; [done|]. cbn. exact IH. Qed.

(** X27.  No server is no error: when the run on a number of servers of
    0 returns, every entity is recorded with server 0 and with NaN for its
    wait, its start and its end of service, and for a dataset that is not
    empty the average and the longest wait of the summary are NaN and its
    utilization is 0. *)
Theorem no_server_gives_NaN (dataset : list DatasetRow)
    (res : SimulationResult) :
  runSimulationFromDataset dataset (Num.of_nat 0) = Normal res →
  length (customers res) = length dataset
  ∧ Forall (λ e, serverAssigned e = 0%Z ∧ waitTime e = NaN
                 ∧ startServiceTime e = NaN ∧ endServiceTime e = NaN)
      (customers res)
  ∧ (dataset ≠ [] →
     avgWaitTime res = NaN ∧ maxWaitTime res = NaN
     ∧ serverUtilization res = Fin 0).
Proof.
  intros Hres.
  destruct (dataset_state_no_server dataset (length dataset) (le_n _))
    as [_ Hall].
  destruct (dataset_state_mirror dataset 0 (length dataset) (le_n _))
    as [Hlen _].
  unfold runSimulationFromDataset in Hres.
  rewrite new_Array_fill_of_nat in Hres.
  destruct (Z.of_nat 0 <? 2 ^ 32)%Z; [|done].
  rewrite <- dataset_state_all in Hres. injection Hres as <-.
  set (cs := ls_customers (dataset_state dataset 0 (length dataset))) in *.
  rewrite computeResults_customers.
  split; [done|]. split; [done|]. intros Hne.
  unfold computeResults.
  destruct (Nat.eqb (length cs) 0) eqn:En.
  { apply Nat.eqb_eq in En. rewrite Hlen in En. by destruct dataset. }
  cbn [avgWaitTime maxWaitTime serverUtilization].
  destruct cs as [|e cs0] eqn:Ecs; [done|].
  inversion Hall as [|? ? (_ & Hw & _ & _) Hall']; subst.
  assert (∀ e', last (e :: cs0) = Some e' → endServiceTime e' = NaN) as Hlast.
  { intros e' He'%last_Some_elem_of.
    rewrite Forall_forall in Hall. by destruct (Hall e' He') as (_ & _ & _ & ?). }
  destruct (last (e :: cs0)) as [e'|] eqn:El; [|by apply last_None in El].
  rewrite (Hlast e' eq_refl).
  cbn [foldl map]. rewrite Hw. cbn [Num.add Num.zero].
  rewrite foldl_add_NaN. unfold Num.Math_max. cbn [foldl Num.max2].
  rewrite foldl_max2_NaN. by repeat split.
Qed.

(** The round trip without a server. *)
Lemma no_server_gives_NaN_witness :
  ∃ res,
    runSimulationFromDataset two_rows (Num.of_nat 0) = Normal res
    ∧ length (customers res) = 2%nat
    ∧ Forall (λ e, serverAssigned e = 0%Z ∧ waitTime e = NaN
                   ∧ startServiceTime e = NaN ∧ endServiceTime e = NaN)
        (customers res)
    ∧ (two_rows ≠ [] →
       avgWaitTime res = NaN ∧ maxWaitTime res = NaN
       ∧ serverUtilization res = Fin 0).
Proof.
  eexists. split; [vm_compute; reflexivity|].
  apply (no_server_gives_NaN two_rows). vm_compute; reflexivity.
Defined.

(** * The cards of the results *)

Lemma getWaitStatus_mono (x y : number) :
  (x <= y)%num →
  (severity (App.getWaitStatus x) ≤ severity (App.getWaitStatus y))%nat.
Proof.
  intros Hle. unfold App.getWaitStatus, Num.gtb.
  destruct x as [| | |a], y as [| | |b]; try done; cbn;
    repeat match goal with
    | |- context [Qle_bool ?u ?v] => destruct (Qle_bool u v) eqn:?
    end; cbn; try lia; exfalso; num_props; q_props; lra.
Qed.

(** X28.  The card of the average wait is never more alarming than the
    card of the longest wait: for entities with finite waits, the status
    that the page gives to the average wait of the summary (danger above
    10, warning above 5, good otherwise) is at most as severe as the one
    it gives to the longest wait.  A wait of NaN, which no comparison
    finds large, has the status good. *)
Theorem wait_cards_are_consistent (cs : list CustomerRecord)
    (n d r : number) :
  Forall (λ e, Num.finite (waitTime e)) cs →
  (severity (App.getWaitStatus (avgWaitTime (computeResults cs n d r)))
   ≤ severity (App.getWaitStatus (maxWaitTime (computeResults cs n d r))))%nat
  ∧ App.getWaitStatus NaN = App.good.
Proof.
  intros Hfin. split; [|done].
  by apply getWaitStatus_mono, computeResults_avg_le_max.
Qed.

Lemma wait_cards_are_consistent_witness :
  ∃ res,
    runSimulationFromDataset two_long_services (Num.of_nat 1) = Normal res
    ∧ App.getWaitStatus (avgWaitTime res) = App.good
    ∧ (severity (App.getWaitStatus
                   (avgWaitTime (computeResults (customers res) (Fin 1)
                                   (Fin 10) (Fin 1))))
       ≤ severity (App.getWaitStatus
                     (maxWaitTime (computeResults (customers res) (Fin 1)
                                     (Fin 10) (Fin 1)))))%nat
    ∧ App.getWaitStatus NaN = App.good.
Proof.
  eexists. split; [vm_compute; reflexivity|].
  split; [vm_compute; reflexivity|].
  apply wait_cards_are_consistent. repeat constructor.
Defined.

(** * Lines that are too short *)

Lemma cell_outside (cols : list string) (i : Z) :
  (Z.of_nat (length cols) ≤ i)%Z → Str.cell cols i = "undefined"%string.
Proof.
  intros Hi. unfold Str.cell.
  destruct (i <? 0)%Z; [done|].
  rewrite lookup_ge_None_2; [done|]. lia.
Qed.

(** X29.  A data line without one of the selected columns is dropped: when
    a line has fewer cells than the index of the inter-arrival column or
    of the service column asks for, the cell that is read is [undefined],
    which is no number, and [parseCSV] goes on to the next line with the
    rows that it had. *)
Theorem short_lines_are_dropped (iatCol stCol : Z) (rows : list DatasetRow)
    (line : string) :
  (Z.of_nat (length (Str.split_cells line)) ≤ iatCol
   ∨ Z.of_nat (length (Str.split_cells line)) ≤ stCol)%Z →
  parse_line iatCol stCol rows line = rows.
Proof.
  intros [Hi|Hi]; unfold parse_line; rewrite (cell_outside _ _ Hi).
  - done.
  - change (Str.parseFloat "undefined") with NaN. cbn [Num.isNaN negb].
    by rewrite andb_false_r.
Qed.

Lemma short_lines_are_dropped_witness :
  parse_line 0 2 two_rows "7,8" = two_rows
  ∧ parseCSV ("iat,x,service" ++ LF ++ "7,8" ++ LF ++ "2,0,3")%string
    = [row 2 3].
Proof.
  split; [|vm_compute; reflexivity].
  apply (short_lines_are_dropped 0 2 two_rows "7,8"). right. cbn. lia.
Defined.

(** * The statements outside the finite numbers *)

(** ** The dataset path on rows without NaN *)

(** The entity of the output at index [i] is the one that iteration [i]
    appends, whatever the rows are. *)
Lemma dataset_entity_at (dataset : list DatasetRow) (c i : nat)
    (r : DatasetRow) (e : CustomerRecord) :
  dataset !! i = Some r →
  ls_customers (dataset_state dataset c (length dataset)) !! i = Some e →
  ls_customers (dataset_state dataset c (S i)) =
    ls_customers (dataset_state dataset c i) ++ [e].
Proof.
  intros Hr He.
  pose proof (lookup_lt_Some _ _ _ Hr) as Hi.
  destruct (dataset_state_mirror dataset c i) as (Hlen & _); [lia|].
  pose proof (dataset_state_customers_prefix dataset c (S i) (length dataset))
    as Hpre.
  rewrite (dataset_state_S _ _ _ _ Hr) in Hpre |- *. cbn in Hpre |- *.
  f_equal. f_equal.
  eapply (prefix_lookup_Some _ _ i) in Hpre; [| |lia|lia].
  - rewrite He in Hpre. by injection Hpre.
  - by rewrite lookup_app_r, Hlen, Nat.sub_diag by lia.
Qed.

Lemma dataset_entity_assigned_open (dataset : list DatasetRow) (c i : nat)
    (e : CustomerRecord) :
  (1 ≤ c)%nat → Forall open_row dataset →
  ls_customers (dataset_state dataset c (length dataset)) !! i = Some e →
  assigned (ls_servers (dataset_state dataset c i)) e
    (ls_servers (dataset_state dataset c (S i))).
Proof.
  intros Hc Hrows He.
  assert (i < length dataset)%nat as Hi.
  { apply lookup_lt_Some in He.
    destruct (dataset_state_mirror dataset c (length dataset)) as (Hlen & _);
      [done|]. by rewrite Hlen in He. }
  destruct (lookup_lt_is_Some_2 dataset i Hi) as [r Hr].
  pose proof (dataset_entity_at dataset c i r e Hr He) as Hcs.
  destruct (dataset_state_open dataset c i Hc Hrows) as (Hlen & Hsrv & Ht & _);
    [lia|].
  assert (open_row r) as [Hiat Hst].
  { rewrite Forall_forall in Hrows. by eapply Hrows, list_elem_of_lookup_2. }
  rewrite (dataset_state_S _ _ _ _ Hr) in Hcs |- *.
  cbn [dataset_body ls_customers] in Hcs. apply app_inv_head in Hcs.
  injection Hcs as <-. cbn [dataset_body ls_servers].
  apply stepper_assigned; try done.
  - apply nonempty_length. lia.
  - by apply Forall_is_num_not_low.
  - apply is_num_not_low. cbn. apply add_not_low; [done|].
    by destruct (Nat.eqb i 0).
Qed.

(** ** The output sequence when a time may be +Infinity *)

Lemma add_zero_le_not_low (x : number) :
  not_low x → (x <= x + Num.zero)%num.
Proof. destruct x; num_solve. Qed.

(** The wait of one assignment on servers without NaN: not negative for
    an arrival at a finite time, NaN for an arrival at +Infinity. *)
Lemma stepper_wait_open (servers : list number) (t s : number) :
  servers ≠ [] → Forall not_low servers → not_low t →
  let a := stepper servers t s in
  asg_endServiceTime a = (asg_startServiceTime a + s)%num
  ∧ (Num.finite t → (Fin 0 <= asg_waitTime a)%num)
  ∧ (t = PInf → asg_waitTime a = NaN).
Proof.
  intros Hne Hsrv Ht a; subst a.
  destruct (stepper_spec servers t s Hne (Forall_is_num_not_low _ Hsrv)
              (is_num_not_low _ Ht)) as (k & next & Hk & _ & -> & -> & -> & _).
  destruct Hk as (Hk & _).
  assert (not_low next) as Hn.
  { rewrite Forall_forall in Hsrv. eapply Hsrv, list_elem_of_lookup_2, Hk. }
  split; [done|]. split.
  - intros Hfin. destruct t as [| | |t]; try done.
    destruct next as [| | |y]; try done.
    unfold Num.max2. destruct (Fin t <? Fin y)%num eqn:E; num_solve.
  - intros ->. by destruct next.
Qed.

Lemma sequence_open_inv_nil (now : number) : sequence_open_inv now [].
Proof. by repeat split. Qed.

Lemma sequence_open_inv_snoc (now now' : number) (cs : list CustomerRecord)
    (e : CustomerRecord) :
  sequence_open_inv now cs →
  (now <= now')%num →
  id e = S (length cs) →
  arrivalTime e = now' →
  endServiceTime e = (startServiceTime e + serviceTime e)%num →
  (Num.finite now' → (Fin 0 <= waitTime e)%num) →
  (now' = PInf → waitTime e = NaN) →
  sequence_open_inv now' (cs ++ [e]).
Proof.
  intros ((Hids & Hsort & Hall) & Hnow) Hle Hid Harr Hend Hw Hinf.
  pose proof (num_le_is_num_r _ _ Hle) as Hnum.
  assert (∀ x, (arrivalTime x <= now)%num → (arrivalTime x <= now')%num) as Hup.
  { intros x Hx. by eapply num_le_trans. }
  split; [split; [|split]|].
  - rewrite map_app, length_app, Hids. cbn. rewrite Hid.
    replace (length cs + 1)%nat with (S (length cs)) by lia.
    by rewrite seq_S.
  - intros i j x y Hij Hx Hy.
    destruct (decide (j < length cs)%nat) as [Hj|Hj].
    + rewrite lookup_app_l in Hx, Hy by lia. exact (Hsort i j x y Hij Hx Hy).
    + rewrite lookup_app_r in Hy by lia.
      destruct (j - length cs)%nat eqn:Ej; [|by destruct n].
      injection Hy as <-. rewrite Harr.
      destruct (decide (i < length cs)%nat) as [Hi|Hi].
      * rewrite lookup_app_l in Hx by lia. apply Hup.
        rewrite Forall_forall in Hnow. by eapply Hnow, list_elem_of_lookup_2.
      * rewrite lookup_app_r in Hx by lia.
        destruct (i - length cs)%nat eqn:Ei; [|by destruct n].
        injection Hx as <-. rewrite Harr. by apply num_le_refl.
  - apply Forall_app. split; [done|]. repeat constructor; try done.
    all: by rewrite Harr.
  - apply Forall_app. split.
    + eapply Forall_impl; [apply Hnow|]. apply Hup.
    + repeat constructor. rewrite Harr. by apply num_le_refl.
Qed.

Lemma dataset_body_sequence_open (c i : nat) (r : DatasetRow)
    (s : LoopState) :
  (1 ≤ c)%nat → accepted_row r →
  open_inv c i s →
  sequence_open_inv (ls_currentTime s) (ls_customers s) →
  sequence_open_inv (ls_currentTime (dataset_body i r s))
    (ls_customers (dataset_body i r s)).
Proof.
  intros Hc Hr (Hlen & Hsrv & Ht & Hn & _) Hseq.
  apply accepted_row_not_low in Hr as (Hiat & Hst & Hpos & _).
  assert (not_low (ls_currentTime (dataset_body i r s))) as Ht'.
  { cbn. apply add_not_low; [done|]. by destruct (Nat.eqb i 0). }
  destruct (stepper_wait_open (ls_servers s)
              (ls_currentTime (dataset_body i r s)) (row_serviceTime r))
    as (Hend & Hw & Hinf); try done.
  { apply nonempty_length. lia. }
  cbn [dataset_body ls_customers ls_currentTime] in *.
  eapply sequence_open_inv_snoc; try done; cbn.
  - destruct (Nat.eqb i 0);
      [by apply add_zero_le_not_low|by apply add_nonneg_le_not_low].
  - lia.
Qed.

Lemma dataset_state_sequence_open (dataset : list DatasetRow) (c i : nat) :
  (1 ≤ c)%nat → Forall accepted_row dataset → (i ≤ length dataset)%nat →
  sequence_open_inv (ls_currentTime (dataset_state dataset c i))
    (ls_customers (dataset_state dataset c i)).
Proof.
  intros Hc Hrows Hi.
  cut (open_inv c i (dataset_state dataset c i)
       ∧ sequence_open_inv (ls_currentTime (dataset_state dataset c i))
           (ls_customers (dataset_state dataset c i))); [by intros []|].
  revert i Hi.
  apply (dataset_state_ind
           (λ i s, open_inv c i s
                   ∧ sequence_open_inv (ls_currentTime s) (ls_customers s))).
  - split; [|apply sequence_open_inv_nil].
    rewrite <- (dataset_state_0 dataset c).
    apply dataset_state_open; [done| |lia].
    by apply Forall_accepted_row_open.
  - intros i r s Hr [Hinv Hseq].
    rewrite Forall_forall in Hrows.
    pose proof (Hrows r (list_elem_of_lookup_2 _ _ _ Hr)) as Hacc.
    split; [apply dataset_body_open; auto using accepted_row_open|].
    eapply dataset_body_sequence_open; eauto.
Qed.

(** ** The random-draw path at finite rates of any sign *)

Lemma not_high_is_num (x : number) : not_high x → is_num x.
Proof. by destruct x. Qed.

Lemma sample_class_is_num (rate : Q) (x : number) :
  sample_class rate x → is_num x.
Proof.
  unfold sample_class.
  destruct (Qle_bool 0 rate); [apply is_num_not_low|apply not_high_is_num].
Qed.

Lemma sample_class_Fin (rate q : Q) : sample_class rate (Fin q).
Proof. unfold sample_class. by destruct (Qle_bool 0 rate). Qed.

Lemma sample_class_add (rate : Q) (x y : number) :
  sample_class rate x → sample_class rate y → sample_class rate (x + y)%num.
Proof.
  unfold sample_class. destruct (Qle_bool 0 rate); by destruct x, y.
Qed.

(** The start of a service at a time that is not +Infinity, on a server
    whose next-available time is a value of the samples. *)
Lemma sample_class_max2 (rate : Q) (t y : number) :
  is_num t → t ≠ PInf → sample_class rate y →
  sample_class rate (Num.max2 t y).
Proof.
  unfold sample_class. intros Ht Hinf.
  destruct (Qle_bool 0 rate); destruct t as [| | |t], y as [| | |y];
    try done; cbn; by destruct (negb _).
Qed.

Section AnyRate.

Variable Math_log : number → number.
Variable Math_random : nat → Q.

(** [Math.log] is negative on [0, 1), where -Infinity is negative, and
    [Math.random] draws from [0, 1). *)
Hypothesis log_negative :
  ∀ q : Q, 0 <= q → q < 1 → (Math_log (Fin q) < Fin 0)%num.
Hypothesis random_range : ∀ n : nat, 0 <= Math_random n ∧ Math_random n < 1.

(** A sample at a finite rate is never NaN: at a rate of 0 it is
    +Infinity, and at a negative rate it is negative or -Infinity. *)
Lemma sample_in_class (rate : Q) (calls : nat) :
  sample_class rate
    (value (exponentialRandom Math_log Math_random (Fin rate) calls).1).
Proof.
  cbn. destruct (random_range calls) as [H0 H1].
  pose proof (log_negative _ H0 H1) as Hlog.
  unfold sample_class.
  destruct (Math_log (Fin (Math_random calls))) as [| | |l]; try done; cbn.
  - destruct (Qcompare_cases rate 0) as [[E ?]|[[E ?]|[E ?]]]; rewrite E;
      destruct (Qle_bool 0 rate) eqn:Er; try done; q_props; lra.
  - assert (l < 0) as Hl by num_solve.
    destruct (Qcompare_cases rate 0) as [[E ?]|[[E ?]|[E ?]]]; rewrite E;
      try by destruct (Qle_bool 0 rate).
    destruct (Qcompare_cases (- l) 0) as [[E' ?]|[[E' ?]|[E' ?]]]; rewrite E';
      try lra.
    destruct (Qle_bool 0 rate) eqn:Er; [done|]. q_props. lra.
Qed.

Lemma sim_body_rates (lam mu d : Q) (c n : nat) (s s' : SimState) :
  (1 ≤ c)%nat →
  sim_body Math_log Math_random (params lam mu c d) s = Continue s' →
  rates_inv lam mu c n s →
  rates_inv lam mu c (S n) s'
  ∧ ∃ e, sim_customers s' = sim_customers s ++ [e]
      ∧ assigned (sim_servers s) e (sim_servers s').
Proof.
  intros Hc Hb (Hlen & Hsrv & Ht & Hn & Hall).
  apply sim_body_Continue in Hb
    as (e & Hcs & _ & _ & Harr & Hnow & Hge & Hst & Hsrv' & Hw & Hstart & Hend
        & Hidx).
  cbn [arrivalRate serviceRate duration params] in *.
  assert (sample_class lam (sim_currentTime s')) as Ht'.
  { rewrite Hnow. apply sample_class_add; [done|].
    destruct (Nat.eqb _ 1); [apply sample_class_Fin|apply sample_in_class]. }
  assert (sim_currentTime s' ≠ PInf) as Hinf.
  { intros E. by rewrite E in Hge. }
  pose proof (sample_class_is_num _ _ Ht') as Hnum.
  assert (sim_servers s ≠ []) as Hne by (apply nonempty_length; lia).
  assert (Forall is_num (sim_servers s)) as Hnums.
  { eapply Forall_impl; [apply Hsrv|]. apply sample_class_is_num. }
  rewrite <- Harr in Hnum, Hinf.
  destruct (stepper_spec (sim_servers s) (arrivalTime e) (serviceTime e)
              Hne Hnums Hnum)
    as (k & next & Hk & Hi & _ & _ & _ & Hs).
  pose proof (earliest_lt_length _ _ _ Hk) as Hlt.
  assert (sample_class mu next) as Hnext.
  { destruct Hk as (Hlook & _). rewrite Forall_forall in Hsrv.
    eapply Hsrv, list_elem_of_lookup_2, Hlook. }
  split.
  - unfold rates_inv. rewrite Hsrv', Hcs. repeat split.
    + by rewrite stepper_length.
    + rewrite Hs. apply Forall_insert; [done|].
      apply sample_class_add; [by apply sample_class_max2|].
      rewrite Hst. apply sample_in_class.
    + done.
    + rewrite length_app. cbn. lia.
    + apply Forall_app. split; [done|]. repeat constructor; lia.
  - exists e. split; [done|]. rewrite Hsrv'.
    by apply stepper_assigned.
Qed.

Lemma sim_state_at_rates (lam mu d : Q) (c n : nat) (s : SimState) :
  (1 ≤ c)%nat →
  sim_state_at Math_log Math_random (params lam mu c d) n
    (sim_init (replicate c Num.zero)) = Some s →
  rates_inv lam mu c n s.
Proof.
  intros Hc. apply (sim_state_at_ind Math_log Math_random (rates_inv lam mu c)).
  - repeat split; cbn; try done.
    + by rewrite length_replicate.
    + apply Forall_replicate. apply sample_class_Fin.
    + apply sample_class_Fin.
  - intros m s1 s2 Hinv _ Hb.
    by destruct (sim_body_rates lam mu d c m s1 s2 Hc Hb Hinv).
Qed.

(** Every entity of the output was assigned by the stepper, in the
    iteration that appended it. *)
Lemma sim_entity_assigned_rates (fuel : nat) (lam mu d : Q) (c i : nat)
    (res : SimulationResult) (e : CustomerRecord) :
  (1 ≤ c)%nat →
  runSimulation Math_log Math_random fuel (params lam mu c d)
    = Some (Normal res) →
  customers res !! i = Some e →
  ∃ s s',
    sim_state_at Math_log Math_random (params lam mu c d) i
      (sim_init (replicate c Num.zero)) = Some s
    ∧ sim_state_at Math_log Math_random (params lam mu c d) (S i)
        (sim_init (replicate c Num.zero)) = Some s'
    ∧ length (sim_servers s) = c
    ∧ assigned (sim_servers s) e (sim_servers s').
Proof.
  intros Hc Hrun He.
  apply runSimulation_Normal in Hrun as (_ & n & sn & Hsn & Hcs).
  rewrite Hcs in He.
  destruct (sim_entity_at Math_log Math_random _ _ _ _ _ _ Hsn He)
    as (s & s' & Hs & Hs' & Hb & Hcs').
  pose proof (sim_state_at_rates lam mu d c i s Hc Hs) as Hinv.
  destruct (sim_body_rates lam mu d c i s s' Hc Hb Hinv)
    as (_ & e' & Hcs'' & Ha).
  rewrite Hcs' in Hcs''. apply app_inv_head in Hcs''. injection Hcs'' as <-.
  exists s, s'. repeat split; try done. apply Hinv.
Qed.

End AnyRate.

(** ** The assignment of every entity *)

Lemma log_standin_negative (q : Q) :
  0 <= q → q < 1 → (log_standin (Fin q) < Fin 0)%num.
Proof.
  intros H0 H1. unfold log_standin.
  destruct (Qeq_bool q 0); [done|]. num_solve.
Qed.

Lemma arriving_row_open (r : DatasetRow) : arriving_row r → open_row r.
Proof.
  intros [Hiat Hst]. split; [|done]. by destruct (row_interArrivalTime r).
Qed.

Lemma Forall_arriving_row_open (dataset : list DatasetRow) :
  Forall arriving_row dataset → Forall open_row dataset.
Proof. intros H. eapply Forall_impl; [done|apply arriving_row_open]. Qed.

Section Assignment.

Variable Math_log : number → number.
Variable Math_random : nat → Q.

Hypothesis log_negative :
  ∀ q : Q, 0 <= q → q < 1 → (Math_log (Fin q) < Fin 0)%num.
Hypothesis random_range : ∀ n : nat, 0 <= Math_random n ∧ Math_random n < 1.

(** C1, amended.  On an integer number of servers that is 1 at least,
    every entity of the output of [runSimulationFromDataset] on rows whose
    inter-arrival time is 0 at least and whose service time is no NaN and
    not -Infinity (both may be +Infinity, as in the rows of [parseCSV]),
    and of [runSimulation] at finite rates of any sign, 0 included, and a
    finite duration, was assigned by the stepper: in the
    iteration that processed it, the server chosen is the first one whose
    next-available time is the minimum over all servers; the service
    starts at the larger of the arrival time and that time, the wait is the
    start minus the arrival, the service ends at the start plus the service
    time, the chosen server's next-available time becomes that end, and the
    entity records the server's index counted from 1. *)
Theorem every_entity_assigned_to_earliest_server :
  (∀ (dataset : list DatasetRow) (c i : nat) (res : SimulationResult)
     (e : CustomerRecord),
     (1 ≤ c)%nat → Forall arriving_row dataset →
     runSimulationFromDataset dataset (Num.of_nat c) = Normal res →
     customers res !! i = Some e →
     assigned (ls_servers (dataset_state dataset c i)) e
       (ls_servers (dataset_state dataset c (S i))))
  ∧
  (∀ (fuel : nat) (lam mu d : Q) (c i : nat) (res : SimulationResult)
     (e : CustomerRecord),
     (1 ≤ c)%nat →
     runSimulation Math_log Math_random fuel (params lam mu c d)
       = Some (Normal res) →
     customers res !! i = Some e →
     ∃ s s',
       sim_state_at Math_log Math_random (params lam mu c d) i
         (sim_init (replicate c Num.zero)) = Some s
       ∧ sim_state_at Math_log Math_random (params lam mu c d) (S i)
           (sim_init (replicate c Num.zero)) = Some s'
       ∧ assigned (sim_servers s) e (sim_servers s')).
Proof.
  split.
  - intros dataset c i res e Hc Hrows Hrun He.
    apply runSimulationFromDataset_Normal in Hrun as (_ & Hcs).
    rewrite Hcs in He.
    by apply dataset_entity_assigned_open; [|apply Forall_arriving_row_open|].
  - intros fuel lam mu d c i res e Hc Hrun He.
    destruct (sim_entity_assigned_rates Math_log Math_random log_negative
                random_range fuel lam mu d c i res e Hc Hrun He)
      as (s & s' & Hs & Hs' & _ & Ha).
    by exists s, s'.
Qed.

(** C10, amended.  With an integer number of servers that is 1 at least,
    every entity of the output of [runSimulationFromDataset] on rows whose
    inter-arrival time is 0 at least and whose service time is no NaN and
    not -Infinity (both may be +Infinity), and of [runSimulation] at finite
    rates of any sign, 0 included, and a finite duration, records a server
    of 1..numServers: the search for the earliest server finds an index of
    the array. *)
Theorem server_assigned_in_range :
  (∀ (dataset : list DatasetRow) (c : nat) (res : SimulationResult),
     (1 ≤ c)%nat → Forall arriving_row dataset →
     runSimulationFromDataset dataset (Num.of_nat c) = Normal res →
     Forall (λ e, (1 ≤ serverAssigned e ≤ Z.of_nat c)%Z) (customers res))
  ∧
  (∀ (fuel : nat) (lam mu d : Q) (c : nat) (res : SimulationResult),
     (1 ≤ c)%nat →
     runSimulation Math_log Math_random fuel (params lam mu c d)
       = Some (Normal res) →
     Forall (λ e, (1 ≤ serverAssigned e ≤ Z.of_nat c)%Z) (customers res)).
Proof.
  split.
  - intros dataset c res Hc Hrows Hrun.
    apply runSimulationFromDataset_Normal in Hrun as (_ & ->).
    by destruct (dataset_state_open dataset c (length dataset) Hc
                   (Forall_arriving_row_open _ Hrows) (le_n _))
      as (_ & _ & _ & _ & ?).
  - intros fuel lam mu d c res Hc Hrun.
    apply runSimulation_Normal in Hrun as (_ & n & sn & Hsn & ->).
    by destruct (sim_state_at_rates Math_log Math_random log_negative
                   random_range lam mu d c n sn Hc Hsn)
      as (_ & _ & _ & _ & ?).
Qed.

End Assignment.

(** Two servers.  Of three customers who arrive at once the third waits
    for server 1, which is free before server 2; at a service rate of 0 the
    first service never ends and the second customer takes server 2. *)
Lemma every_entity_assigned_to_earliest_server_witness :
  (∃ res e,
     runSimulationFromDataset three_at_once (Num.of_nat 2) = Normal res
     ∧ customers res !! 2%nat = Some e
     ∧ serverAssigned e = 1%Z
     ∧ waitTime e ≡ Fin 1
     ∧ assigned (ls_servers (dataset_state three_at_once 2 2)) e
         (ls_servers (dataset_state three_at_once 2 3)))
  ∧
  (∃ res e,
     runSimulation log_standin half_quarter 10 (params 1 0 2 2)
       = Some (Normal res)
     ∧ customers res !! 1%nat = Some e
     ∧ serverAssigned e = 2%Z
     ∧ ∃ s s',
         sim_state_at log_standin half_quarter (params 1 0 2 2) 1
           (sim_init (replicate 2 Num.zero)) = Some s
         ∧ sim_state_at log_standin half_quarter (params 1 0 2 2) 2
             (sim_init (replicate 2 Num.zero)) = Some s'
         ∧ assigned (sim_servers s) e (sim_servers s')).
Proof.
  destruct (every_entity_assigned_to_earliest_server log_standin half_quarter
              log_standin_negative half_quarter_range) as [Hdata Hrand].
  split.
  - eexists _, _. split; [vm_compute; reflexivity|].
    split; [vm_compute; reflexivity|].
    split; [reflexivity|]. split; [vm_compute; reflexivity|].
    eapply (Hdata three_at_once 2%nat 2%nat).
    + lia.
    + repeat constructor.
    + vm_compute; reflexivity.
    + vm_compute; reflexivity.
  - eexists _, _. split; [vm_compute; reflexivity|].
    split; [vm_compute; reflexivity|]. split; [reflexivity|].
    eapply (Hrand 10%nat 1 0 2 2%nat 1%nat).
    + lia.
    + vm_compute; reflexivity.
    + vm_compute; reflexivity.
Defined.

(** C1 as stated fails where the search for the earliest server finds
    none.  After a service time of NaN on two servers the minimum of the
    next-available times is NaN, [indexOf] answers -1 and the next entity
    records server 0; and without a server every entity records
    server 0. *)
Lemma entity_without_a_server :
  (∃ res e,
     runSimulationFromDataset nan_service (Num.of_nat 2) = Normal res
     ∧ customers res !! 1%nat = Some e
     ∧ serverAssigned e = 0%Z
     ∧ ¬ assigned (ls_servers (dataset_state nan_service 2 1)) e
           (ls_servers (dataset_state nan_service 2 2)))
  ∧ (∃ res e,
       runSimulationFromDataset two_rows (Num.of_nat 0) = Normal res
       ∧ customers res !! 0%nat = Some e
       ∧ serverAssigned e = 0%Z
       ∧ ¬ assigned (ls_servers (dataset_state two_rows 0 0)) e
             (ls_servers (dataset_state two_rows 0 1))).
Proof.
  split.
  - eexists _, _. split; [vm_compute; reflexivity|].
    split; [vm_compute; reflexivity|]. split; [reflexivity|].
    intros (k & next & _ & _ & _ & _ & _ & Hi). cbn in Hi. lia.
  - eexists _, _. split; [vm_compute; reflexivity|].
    split; [vm_compute; reflexivity|]. split; [reflexivity|].
    intros (k & next & _ & _ & _ & _ & _ & Hi). cbn in Hi. lia.
Qed.

(** Two servers: a customer who arrives at +Infinity is assigned to the
    free one; and at a service rate of 0, where no service ends, the first
    two customers take the two servers and the later ones the first of the
    two, both being next available at +Infinity. *)
Lemma server_assigned_in_range_witness :
  (∃ res,
     runSimulationFromDataset never_arrives (Num.of_nat 2) = Normal res
     ∧ map serverAssigned (customers res) = [1; 2]%Z
     ∧ Forall (λ e, (1 ≤ serverAssigned e ≤ 2)%Z) (customers res))
  ∧
  (∃ res,
     runSimulation log_standin half_quarter 10 (params 1 0 2 2)
       = Some (Normal res)
     ∧ map serverAssigned (customers res) = [1; 2; 1; 1]%Z
     ∧ Forall (λ e, (1 ≤ serverAssigned e ≤ 2)%Z) (customers res)).
Proof.
  destruct (server_assigned_in_range log_standin half_quarter
              log_standin_negative half_quarter_range) as [Hdata Hrand].
  split.
  - eexists. split; [vm_compute; reflexivity|].
    split; [vm_compute; reflexivity|].
    apply (Hdata never_arrives 2%nat).
    + lia.
    + repeat constructor.
    + vm_compute; reflexivity.
  - eexists. split; [vm_compute; reflexivity|].
    split; [vm_compute; reflexivity|].
    apply (Hrand 10%nat 1 0 2 2%nat).
    + lia.
    + vm_compute; reflexivity.
Defined.

(** C10 as stated fails on a row that holds NaN: on two servers the
    entity after a service time of NaN records server 0. *)
Lemma server_zero_after_NaN :
  ∃ res,
    runSimulationFromDataset nan_service (Num.of_nat 2) = Normal res
    ∧ map serverAssigned (customers res) = [1; 0]%Z
    ∧ ¬ Forall (λ e, (1 ≤ serverAssigned e ≤ Z.of_nat 2)%Z) (customers res).
Proof.
  eexists. split; [vm_compute; reflexivity|].
  split; [vm_compute; reflexivity|].
  intros H. apply Forall_cons in H as [_ H]. apply Forall_cons in H as [H _].
  cbn in H. lia.
Qed.

(** ** The invariants of the output sequence *)

Section OutputSequence.

Variable Math_log : number → number.
Variable Math_random : nat → Q.

Hypothesis log_sign :
  ∀ q : Q, 0 <= q → q < 1 → (Math_log (Fin q) <= Fin 0)%num.
Hypothesis random_range : ∀ n : nat, 0 <= Math_random n ∧ Math_random n < 1.

(** C2, amended.  The output sequence of [runSimulationFromDataset] on
    rows whose inter-arrival time is 0 at least and whose service time is
    more than 0, +Infinity included, and of [runSimulation] at positive
    rates and a positive duration, on an integer number of servers that is
    1 at least: the ids are exactly 1..N in order, the arrival times never
    decrease, every service ends at its start plus the service time, and
    right after the iteration that assigned an entity the server it records
    is next available at the end of its service.  The wait of every entity
    that arrives at a finite time is 0 at least, which every entity of
    [runSimulation] does; the wait of an entity that arrives at +Infinity
    is NaN. *)
Theorem output_sequence_invariants :
  (∀ (dataset : list DatasetRow) (c : nat) (res : SimulationResult),
     (1 ≤ c)%nat → Forall accepted_row dataset →
     runSimulationFromDataset dataset (Num.of_nat c) = Normal res →
     sequence_open (customers res)
     ∧ ∀ i e, customers res !! i = Some e →
         ls_servers (dataset_state dataset c (S i))
           !! Z.to_nat (serverAssigned e - 1)
         = Some (endServiceTime e))
  ∧
  (∀ (fuel : nat) (lam mu d : Q) (c : nat) (res : SimulationResult),
     0 < lam → 0 < mu → (1 ≤ c)%nat → 0 < d →
     runSimulation Math_log Math_random fuel (params lam mu c d)
       = Some (Normal res) →
     sequence_ok (customers res)
     ∧ Forall (λ e, Num.finite (arrivalTime e)) (customers res)
     ∧ ∀ i e, customers res !! i = Some e →
         ∃ s',
           sim_state_at Math_log Math_random (params lam mu c d) (S i)
             (sim_init (replicate c Num.zero)) = Some s'
           ∧ sim_servers s' !! Z.to_nat (serverAssigned e - 1)
             = Some (endServiceTime e)).
Proof.
  split.
  - intros dataset c res Hc Hrows Hrun.
    apply runSimulationFromDataset_Normal in Hrun as (_ & Hcs).
    rewrite Hcs. split.
    + by apply (dataset_state_sequence_open dataset c (length dataset) Hc
                  Hrows).
    + intros i e He.
      by apply (assigned_server_range _ _ _
                  (dataset_entity_assigned_open dataset c i e Hc
                     (Forall_accepted_row_open _ Hrows) He)).
  - intros fuel lam mu d c res Hlam Hmu Hc _ Hrun. split; [|split].
    + apply runSimulation_Normal in Hrun as (_ & n & s & Hs & ->).
      by apply (sim_state_at_sequence Math_log Math_random log_sign
                  random_range lam mu d c n s).
    + apply Forall_lookup. intros i e He.
      destruct (sim_output_entity Math_log Math_random log_sign random_range
                  fuel lam mu d c i res e Hlam Hmu Hc Hrun He)
        as (s & s' & _ & Hs' & _ & Hb & Hcs).
      destruct (sim_body_Continue Math_log Math_random _ _ _ Hb)
        as (e' & Hcs' & _ & _ & Harr & _).
      rewrite Hcs in Hcs'. apply app_inv_head in Hcs'. injection Hcs' as <-.
      rewrite Harr.
      by destruct (sim_state_at_inv Math_log Math_random log_sign
                     random_range lam mu d c (S i) s' Hlam Hmu Hc Hs')
        as (_ & _ & ? & _).
    + intros i e He.
      destruct (sim_entity_assigned Math_log Math_random log_sign
                  random_range fuel lam mu d c i res e Hlam Hmu Hc Hrun He)
        as (s & s' & Hs & Hs' & Hlen & Ha).
      exists s'. split; [done|]. by apply (assigned_server_range _ _ _ Ha).
Qed.

End OutputSequence.

(** One server: the second customer waits for the first, and the wait of
    the third, who arrives at +Infinity, is NaN. *)
Lemma output_sequence_invariants_witness :
  (∃ res,
     runSimulationFromDataset late_arrival (Num.of_nat 1) = Normal res
     ∧ map id (customers res) = [1; 2; 3]%nat
     ∧ Forall2 equiv (map waitTime (customers res)) [Fin 0; Fin 4; NaN]
     ∧ sequence_open (customers res)
     ∧ ∀ i e, customers res !! i = Some e →
         ls_servers (dataset_state late_arrival 1 (S i))
           !! Z.to_nat (serverAssigned e - 1)
         = Some (endServiceTime e))
  ∧
  (∃ res,
     runSimulation log_standin half_quarter 10 (params 1 1 1 2)
       = Some (Normal res)
     ∧ map id (customers res) = [1; 2; 3; 4]%nat
     ∧ sequence_ok (customers res)
     ∧ Forall (λ e, Num.finite (arrivalTime e)) (customers res)
     ∧ ∀ i e, customers res !! i = Some e →
         ∃ s',
           sim_state_at log_standin half_quarter (params 1 1 1 2) (S i)
             (sim_init (replicate 1 Num.zero)) = Some s'
           ∧ sim_servers s' !! Z.to_nat (serverAssigned e - 1)
             = Some (endServiceTime e)).
Proof.
  destruct (output_sequence_invariants log_standin half_quarter
              log_standin_sign half_quarter_range) as [Hdata Hrand].
  split.
  - eexists. split; [vm_compute; reflexivity|].
    split; [vm_compute; reflexivity|].
    split; [by repeat constructor|].
    apply (Hdata late_arrival 1%nat).
    + lia.
    + repeat constructor.
    + vm_compute; reflexivity.
  - eexists. split; [vm_compute; reflexivity|].
    split; [vm_compute; reflexivity|].
    apply (Hrand 10%nat 1 1 2 1%nat).
    + lra.
    + lra.
    + lia.
    + lra.
    + vm_compute; reflexivity.
Defined.

(** C2 as stated fails on a row that it admits: an inter-arrival time of
    +Infinity is 0 at least, [parseCSV] accepts it, and the entity then
    arrives at +Infinity and waits Infinity - Infinity, which is NaN and
    not 0 at least. *)
Lemma wait_NaN_on_infinite_arrival :
  parseCSV infinite_blob = never_arrives
  ∧ Forall accepted_row never_arrives
  ∧ ∃ res e,
      runSimulationFromDataset never_arrives (Num.of_nat 1) = Normal res
      ∧ customers res !! 1%nat = Some e
      ∧ arrivalTime e = PInf
      ∧ waitTime e = NaN
      ∧ ¬ (Fin 0 <= waitTime e)%num.
Proof.
  split; [vm_compute; reflexivity|]. split; [by repeat constructor|].
  eexists _, _. split; [vm_compute; reflexivity|].
  split; [vm_compute; reflexivity|]. by repeat split.
Qed.

(** ** More servers and a lighter load *)

Lemma max2_mono (t t' x y : number) :
  is_num t → is_num t' → is_num x → is_num y →
  (t <= t')%num → (x <= y)%num → (Num.max2 t x <= Num.max2 t' y)%num.
Proof. intros. by apply max2_mono_both. Qed.

Lemma max2_Fin (a y : Q) :
  (a < y ∧ Num.max2 (Fin a) (Fin y) = Fin y)
  ∨ (y <= a ∧ Num.max2 (Fin a) (Fin y) = Fin a).
Proof.
  unfold Num.max2. destruct (Fin a <? Fin y)%num eqn:E; [left|right];
    (split; [num_solve|done]).
Qed.

(** The times of two assignments at the same finite time, the second on
    a server that is available no later and for a service that is no
    longer. *)
Lemma stepper_times (a b : Q) (n1 n2 s1 s2 : number) :
  a == b → not_low n1 → not_low n2 → not_low s1 → not_low s2 →
  (s2 <= s1)%num → (n2 <= n1)%num →
  not_low (Num.max2 (Fin a) n1 + s1)%num
  ∧ not_low (Num.max2 (Fin b) n2 + s2)%num
  ∧ (Num.max2 (Fin b) n2 + s2 <= Num.max2 (Fin a) n1 + s1)%num
  ∧ (Fin 0 <= Num.max2 (Fin b) n2 - Fin b)%num
  ∧ (Num.max2 (Fin b) n2 - Fin b <= Num.max2 (Fin a) n1 - Fin a)%num.
Proof.
  intros Hab Hn1 Hn2 Hs1 Hs2 Hs Hn.
  destruct n1 as [| | |y1]; try done; destruct n2 as [| | |y2]; try done.
  - change (Num.max2 (Fin a) PInf) with PInf.
    change (Num.max2 (Fin b) PInf) with PInf.
    destruct s1 as [| | |u1]; try done; destruct s2 as [| | |u2]; try done.
  - change (Num.max2 (Fin a) PInf) with PInf.
    destruct (max2_Fin b y2) as [[? ->]|[? ->]];
      destruct s1 as [| | |u1]; try done; destruct s2 as [| | |u2];
      try done; repeat split; num_solve.
  - destruct (max2_Fin a y1) as [[? ->]|[? ->]];
      destruct (max2_Fin b y2) as [[? ->]|[? ->]];
      destruct s1 as [| | |u1]; try done; destruct s2 as [| | |u2];
      try done; repeat split; num_solve.
Qed.

(** The stepper on servers that are at least as available, at the same
    finite time and for a service that is no longer, leaves them so, and
    the entity waits no longer.  The servers and the services may be
    +Infinity. *)
Lemma stepper_dominates (xs ys : list number) (a b : Q) (s1 s2 : number) :
  xs ≠ [] → Forall not_low xs → Forall not_low ys →
  a == b → not_low s1 → not_low s2 → (s2 <= s1)%num →
  dominates xs ys →
  dominates (asg_servers (stepper xs (Fin a) s1))
    (asg_servers (stepper ys (Fin b) s2))
  ∧ Forall not_low (asg_servers (stepper xs (Fin a) s1))
  ∧ Forall not_low (asg_servers (stepper ys (Fin b) s2))
  ∧ (Fin 0 <= asg_waitTime (stepper ys (Fin b) s2))%num
  ∧ (asg_waitTime (stepper ys (Fin b) s2)
     <= asg_waitTime (stepper xs (Fin a) s1))%num.
Proof.
  intros Hne Hxs Hys Hab Hs1 Hs2 Hs Hdom.
  assert (ys ≠ []) as Hne'.
  { destruct xs as [|x xs]; [done|]. intros ->.
    specialize (Hdom x). cbn in Hdom.
    inversion Hxs as [|? ? Hx _]; subst.
    rewrite (num_le_refl x (is_num_not_low _ Hx)) in Hdom. lia. }
  destruct (stepper_spec xs (Fin a) s1 Hne (Forall_is_num_not_low _ Hxs) I)
    as (k1 & n1 & (Hk1 & Hmin1 & _) & _ & _ & -> & _ & ->).
  destruct (stepper_spec ys (Fin b) s2 Hne' (Forall_is_num_not_low _ Hys) I)
    as (k2 & n2 & (Hk2 & Hmin2 & _) & _ & _ & -> & _ & ->).
  assert (not_low n1) as Hn1.
  { rewrite Forall_forall in Hxs. eapply Hxs, list_elem_of_lookup_2, Hk1. }
  assert (not_low n2) as Hn2.
  { rewrite Forall_forall in Hys. eapply Hys, list_elem_of_lookup_2, Hk2. }
  assert (n2 <= n1)%num as Hn.
  { destruct (free_at_pos n1 ys) as (y & Hy & Hle).
    - etrans; [|apply Hdom]. eapply free_at_elem.
      + eapply list_elem_of_lookup_2, Hk1.
      + apply num_le_refl. by apply is_num_not_low.
    - apply list_elem_of_lookup_1 in Hy as [j Hj].
      eapply num_le_trans; [by eapply Hmin2|done]. }
  set (e1 := (Num.max2 (Fin a) n1 + s1)%num).
  set (e2 := (Num.max2 (Fin b) n2 + s2)%num).
  assert (not_low e1 ∧ not_low e2 ∧ (e2 <= e1)%num
          ∧ (Fin 0 <= Num.max2 (Fin b) n2 - Fin b)%num
          ∧ (Num.max2 (Fin b) n2 - Fin b <= Num.max2 (Fin a) n1 - Fin a)%num)
    as (He1 & He2 & He & Hw0 & Hw).
  { by apply stepper_times. }
  clearbody e1 e2.
  split; [|repeat split; try done; by apply Forall_insert].
  intros t0.
  pose proof (free_at_insert t0 n1 e1 xs k1 Hk1) as H1.
  pose proof (free_at_insert t0 n2 e2 ys k2 Hk2) as H2.
  specialize (Hdom t0).
  assert (Num.leb e1 t0 = true → Num.leb e2 t0 = true) as Hb.
  { intros H. by eapply num_le_trans. }
  destruct (Num.leb n1 t0) eqn:E1.
  - assert (Num.leb n2 t0 = true) as E2 by (by eapply num_le_trans).
    rewrite E2 in H2.
    destruct (Num.leb e1 t0); [rewrite Hb in H2 by done; lia|].
    destruct (Num.leb e2 t0); lia.
  - rewrite (free_at_none t0 n1 xs) in H1.
    + destruct (Num.leb e1 t0) eqn:E; [|lia].
      assert (1 ≤ free_at t0 (<[k2:=e2]> ys))%nat; [|lia].
      apply (free_at_elem t0 e2); [|by apply Hb].
      eapply list_elem_of_lookup_2, list_lookup_insert_eq.
      by eapply lookup_lt_Some.
    + apply Forall_forall. intros x Hx.
      apply list_elem_of_lookup_1 in Hx as [j Hj]. by eapply Hmin1.
    + done.
Qed.

Lemma lighter_refl (dataset : list DatasetRow) :
  Forall open_row dataset → Forall2 lighter dataset dataset.
Proof.
  intros H. apply Forall_Forall2_diag. eapply Forall_impl; [done|].
  intros r [Hiat Hst]. split.
  - by destruct (row_interArrivalTime r).
  - apply num_le_refl. by apply is_num_not_low.
Qed.

(** The runs of two datasets, the second one lighter, on [c1] and on as
    many or more servers [c2], side by side, as long as the entities arrive
    at finite times. *)
Lemma lighter_states_dominate (d1 d2 : list DatasetRow) (c1 c2 i : nat) :
  (1 ≤ c1)%nat → (c1 ≤ c2)%nat →
  Forall open_row d1 → Forall open_row d2 → Forall2 lighter d1 d2 →
  (i ≤ length d1)%nat →
  finite_arrivals (ls_customers (dataset_state d1 c1 i)) →
  (∃ a b, ls_currentTime (dataset_state d1 c1 i) = Fin a
          ∧ ls_currentTime (dataset_state d2 c2 i) = Fin b ∧ a == b)
  ∧ Forall not_low (ls_servers (dataset_state d1 c1 i))
  ∧ Forall not_low (ls_servers (dataset_state d2 c2 i))
  ∧ dominates (ls_servers (dataset_state d1 c1 i))
      (ls_servers (dataset_state d2 c2 i))
  ∧ Forall2 waits_at_most (ls_customers (dataset_state d1 c1 i))
      (ls_customers (dataset_state d2 c2 i)).
Proof.
  intros Hc1 Hc Hrows1 Hrows2 Hl.
  pose proof (Forall2_length _ _ _ Hl) as Hlen.
  induction i as [|i IH]; intros Hi Hfin.
  - rewrite !dataset_state_0. cbn. split; [by exists 0, 0|].
    split; [by apply Forall_replicate|]. split; [by apply Forall_replicate|].
    split; [|constructor].
    intros t. rewrite !free_at_replicate. destruct (Num.leb _ _); lia.
  - destruct (lookup_lt_is_Some_2 d1 i) as [r1 Hr1]; [lia|].
    destruct (lookup_lt_is_Some_2 d2 i) as [r2 Hr2]; [lia|].
    destruct (Forall2_lookup_lr _ _ _ _ _ _ Hl Hr1 Hr2) as [Hiat Hst].
    assert (open_row r1) as [_ Hst1].
    { rewrite Forall_forall in Hrows1.
      by eapply Hrows1, list_elem_of_lookup_2. }
    assert (open_row r2) as [_ Hst2].
    { rewrite Forall_forall in Hrows2.
      by eapply Hrows2, list_elem_of_lookup_2. }
    rewrite (dataset_state_S _ _ _ _ Hr1) in Hfin.
    cbn [dataset_body ls_customers] in Hfin.
    apply Forall_app in Hfin as [Hfin Hnew].
    apply Forall_cons in Hnew as [Hnew _]. cbn [arrivalTime] in Hnew.
    destruct IH as ((a & b & Ha & Hb & Hab) & Hnl1 & Hnl2 & Hdom & Hw);
      [lia|done|].
    assert (length (ls_servers (dataset_state d1 c1 i)) = c1) as Hlen1.
    { clear. unfold dataset_state.
      generalize (take i d1). intros rows.
      cut (∀ j s, length (ls_servers (dataset_loop j rows s))
                  = length (ls_servers s)).
      { intros H. by rewrite H; cbn; rewrite length_replicate. }
      induction rows as [|r rows IH]; intros j s; [done|]. cbn [dataset_loop].
      rewrite IH. cbn. apply stepper_length. }
    rewrite (dataset_state_S _ _ _ _ Hr1), (dataset_state_S _ _ _ _ Hr2).
    cbn [dataset_body ls_currentTime ls_servers ls_customers] in *.
    rewrite Ha, Hb in *.
    assert (∃ u v,
              (if Nat.eqb i 0 then Num.zero else row_interArrivalTime r1)
                = Fin u
              ∧ (if Nat.eqb i 0 then Num.zero else row_interArrivalTime r2)
                = Fin v
              ∧ u == v) as (u & v & -> & -> & Huv).
    { destruct (Nat.eqb i 0); [by exists 0, 0|].
      destruct (row_interArrivalTime r1) as [| | |u]; try (by cbn in Hnew).
      destruct (row_interArrivalTime r2) as [| | |v]; try done.
      by exists u, v. }
    cbn [Num.add].
    destruct (stepper_dominates (ls_servers (dataset_state d1 c1 i))
                (ls_servers (dataset_state d2 c2 i))
                (a + u) (b + v) (row_serviceTime r1) (row_serviceTime r2))
      as (Hdom' & Hnl1' & Hnl2' & Hw0 & Hle); try done.
    { apply nonempty_length. lia. }
    { by rewrite Hab, Huv. }
    split; [exists (a + u), (b + v); repeat split; by rewrite Hab, Huv|].
    repeat split; try done.
    apply Forall2_app; [done|]. by repeat constructor.
Qed.

(** The sums of waits that are entity by entity no longer. *)
Lemma foldl_waits_at_most (cs1 cs2 : list CustomerRecord) (a1 a2 : number) :
  Forall2 waits_at_most cs1 cs2 →
  (Fin 0 <= a2)%num → (a2 <= a1)%num →
  (Fin 0 <= foldl (λ sum c, sum + waitTime c)%num a2 cs2)%num
  ∧ (foldl (λ sum c, sum + waitTime c)%num a2 cs2
     <= foldl (λ sum c, sum + waitTime c)%num a1 cs1)%num.
Proof.
  intros Hall. revert a1 a2.
  induction Hall as [|e1 e2 cs1 cs2 (H0 & Hle) Hall IH]; intros a1 a2 Ha0 Ha;
    [done|].
  cbn. apply IH.
  - destruct a2, (waitTime e2); num_solve.
  - destruct a1, a2, (waitTime e1), (waitTime e2); num_solve.
Qed.

Lemma foldl_max2_at_most (cs1 cs2 : list CustomerRecord) (a1 a2 : number) :
  Forall2 waits_at_most cs1 cs2 →
  is_num a1 → is_num a2 → (a2 <= a1)%num →
  (foldl Num.max2 a2 (map waitTime cs2)
   <= foldl Num.max2 a1 (map waitTime cs1))%num.
Proof.
  intros Hall. revert a1 a2.
  induction Hall as [|e1 e2 cs1 cs2 (H0 & Hle) Hall IH]; intros a1 a2 H1 H2 Ha;
    [done|].
  pose proof (num_le_is_num_l _ _ Hle) as Hw2.
  pose proof (num_le_is_num_r _ _ Hle) as Hw1.
  cbn. apply IH.
  - by apply max2_spec.
  - by apply max2_spec.
  - by apply max2_mono.
Qed.

Lemma div_of_nat_mono (x y : number) (n : nat) :
  (1 ≤ n)%nat → (Fin 0 <= y)%num → (y <= x)%num →
  (y / Num.of_nat n <= x / Num.of_nat n)%num.
Proof.
  intros Hn Hy Hle. pose proof (inject_Z_pos n Hn) as Hpos.
  unfold Num.of_nat, Num.of_Z.
  destruct x as [| | |x], y as [| | |y]; try done; cbn;
    rewrite (Qcompare_Gt _ Hpos); try done.
  num_props. unfold Qdiv. apply Qmult_le_compat_r; [done|].
  apply Qinv_le_0_compat. lra.
Qed.

(** The average and the longest wait of two sequences of which the second
    waits entity by entity no longer. *)
Lemma computeResults_waits_at_most (cs1 cs2 : list CustomerRecord)
    (n1 n2 d1 d2 r1 r2 : number) :
  Forall2 waits_at_most cs1 cs2 →
  (avgWaitTime (computeResults cs2 n2 d2 r2)
   <= avgWaitTime (computeResults cs1 n1 d1 r1))%num
  ∧ (maxWaitTime (computeResults cs2 n2 d2 r2)
     <= maxWaitTime (computeResults cs1 n1 d1 r1))%num.
Proof.
  intros Hw. pose proof (Forall2_length _ _ _ Hw) as Hlen.
  unfold computeResults. rewrite <- Hlen.
  destruct (Nat.eqb (length cs1) 0) eqn:En; cbn [avgWaitTime maxWaitTime];
    [done|].
  apply Nat.eqb_neq in En. split.
  - destruct (foldl_waits_at_most cs1 cs2 Num.zero Num.zero Hw) as [H0 Hle];
      [done|done|].
    apply div_of_nat_mono; [lia|done|done].
  - unfold Num.Math_max. by apply foldl_max2_at_most.
Qed.

Lemma lighter_runs (d1 d2 : list DatasetRow) (c1 c2 : nat)
    (r1 r2 : SimulationResult) :
  Forall open_row d1 → Forall open_row d2 → Forall2 lighter d1 d2 →
  (1 ≤ c1)%nat → (c1 ≤ c2)%nat →
  runSimulationFromDataset d1 (Num.of_nat c1) = Normal r1 →
  runSimulationFromDataset d2 (Num.of_nat c2) = Normal r2 →
  finite_arrivals (customers r1) →
  Forall2 waits_at_most (customers r1) (customers r2)
  ∧ (avgWaitTime r2 <= avgWaitTime r1)%num
  ∧ (maxWaitTime r2 <= maxWaitTime r1)%num.
Proof.
  intros Hrows1 Hrows2 Hl Hc1 Hc Hr1 Hr2 Hfin.
  pose proof (Forall2_length _ _ _ Hl) as Hlen.
  pose proof (runSimulationFromDataset_Normal _ _ _ Hr1) as [_ Hcs1].
  rewrite Hcs1 in Hfin.
  destruct (lighter_states_dominate d1 d2 c1 c2 (length d1))
    as (_ & _ & _ & _ & Hw); try done.
  revert Hr1 Hr2. unfold runSimulationFromDataset.
  rewrite !new_Array_fill_of_nat.
  destruct (Z.of_nat c1 <? 2 ^ 32)%Z; [|done].
  destruct (Z.of_nat c2 <? 2 ^ 32)%Z; [|done].
  rewrite <- !dataset_state_all. rewrite <- Hlen. intros [= <-] [= <-].
  rewrite !computeResults_customers. split; [done|].
  by apply computeResults_waits_at_most.
Qed.

(** C3, amended.  For a dataset of pairs that hold no NaN and no
    -Infinity, run on integers [1 <= c1 < c2] of servers, when every entity
    arrives at a finite time the average wait that
    [runSimulationFromDataset] returns on [c2] servers is at most the one
    it returns on [c1] servers.  The arrival times are those that the run
    computes, the same on [c1] and on [c2] servers; a service time may be
    +Infinity. *)
Theorem more_servers_never_increase_average_wait
    (dataset : list DatasetRow) (c1 c2 : nat) (r1 r2 : SimulationResult) :
  Forall open_row dataset →
  (1 ≤ c1)%nat → (c1 < c2)%nat →
  runSimulationFromDataset dataset (Num.of_nat c1) = Normal r1 →
  runSimulationFromDataset dataset (Num.of_nat c2) = Normal r2 →
  finite_arrivals (customers r1) →
  (avgWaitTime r2 <= avgWaitTime r1)%num.
Proof.
  intros Hrows Hc1 Hc Hr1 Hr2 Hfin.
  by destruct (lighter_runs dataset dataset c1 c2 r1 r2 Hrows Hrows
                 (lighter_refl _ Hrows) Hc1 ltac:(lia) Hr1 Hr2 Hfin)
    as (_ & ? & _).
Qed.

(** On one server the second customer waits 4 and the average wait is 2;
    on two servers nobody waits. *)
Lemma more_servers_never_increase_average_wait_witness :
  ∃ r1 r2,
    runSimulationFromDataset two_long_services (Num.of_nat 1) = Normal r1
    ∧ runSimulationFromDataset two_long_services (Num.of_nat 2) = Normal r2
    ∧ avgWaitTime r1 ≡ Fin 2
    ∧ avgWaitTime r2 ≡ Fin 0
    ∧ (avgWaitTime r2 <= avgWaitTime r1)%num.
Proof.
  eexists _, _. split; [vm_compute; reflexivity|].
  split; [vm_compute; reflexivity|].
  split; [vm_compute; reflexivity|].
  split; [vm_compute; reflexivity|].
  apply (more_servers_never_increase_average_wait two_long_services 1 2).
  - repeat constructor.
  - lia.
  - lia.
  - vm_compute; reflexivity.
  - vm_compute; reflexivity.
  - repeat constructor.
Defined.

(** C3 as stated fails on a dataset that it admits: when the second
    customer arrives at +Infinity, an inter-arrival time that [parseCSV]
    accepts, its wait is NaN on any number of servers, so are both average
    waits, and no comparison with NaN holds. *)
Lemma average_wait_NaN_on_infinite_arrival :
  parseCSV infinite_blob = never_arrives
  ∧ ∃ r1 r2,
      runSimulationFromDataset never_arrives (Num.of_nat 1) = Normal r1
      ∧ runSimulationFromDataset never_arrives (Num.of_nat 2) = Normal r2
      ∧ avgWaitTime r1 = NaN
      ∧ avgWaitTime r2 = NaN
      ∧ ¬ (avgWaitTime r2 <= avgWaitTime r1)%num.
Proof.
  split; [vm_compute; reflexivity|].
  eexists _, _. split; [vm_compute; reflexivity|].
  split; [vm_compute; reflexivity|]. by repeat split.
Qed.

(** X7.  More servers help every entity: for a dataset of rows that hold
    no NaN and no -Infinity, run on integers [1 <= c1 <= c2] of servers,
    when every entity arrives at a finite time each entity waits on [c2]
    servers no longer than the same entity on [c1] servers, and the longest
    wait of the summary on [c2] servers is at most the one on [c1]
    servers. *)
Theorem more_servers_shorten_every_wait
    (dataset : list DatasetRow) (c1 c2 : nat) (r1 r2 : SimulationResult) :
  Forall open_row dataset →
  (1 ≤ c1)%nat → (c1 ≤ c2)%nat →
  runSimulationFromDataset dataset (Num.of_nat c1) = Normal r1 →
  runSimulationFromDataset dataset (Num.of_nat c2) = Normal r2 →
  finite_arrivals (customers r1) →
  Forall2 (λ e1 e2, (waitTime e2 <= waitTime e1)%num)
    (customers r1) (customers r2)
  ∧ (maxWaitTime r2 <= maxWaitTime r1)%num.
Proof.
  intros Hrows Hc1 Hc Hr1 Hr2 Hfin.
  destruct (lighter_runs dataset dataset c1 c2 r1 r2 Hrows Hrows
              (lighter_refl _ Hrows) Hc1 Hc Hr1 Hr2 Hfin) as (Hw & _ & Hmax).
  split; [|done]. eapply Forall2_impl; [done|]. by intros e1 e2 [_ ?].
Qed.

(** Three customers at once: on one server they wait 0, 1 and 4, on two
    servers 0, 0 and 1. *)
Lemma more_servers_shorten_every_wait_witness :
  ∃ r1 r2,
    runSimulationFromDataset three_at_once (Num.of_nat 1) = Normal r1
    ∧ runSimulationFromDataset three_at_once (Num.of_nat 2) = Normal r2
    ∧ maxWaitTime r1 ≡ Fin 4
    ∧ maxWaitTime r2 ≡ Fin 1
    ∧ Forall2 (λ e1 e2, (waitTime e2 <= waitTime e1)%num)
        (customers r1) (customers r2)
    ∧ (maxWaitTime r2 <= maxWaitTime r1)%num.
Proof.
  eexists _, _. split; [vm_compute; reflexivity|].
  split; [vm_compute; reflexivity|].
  split; [vm_compute; reflexivity|].
  split; [vm_compute; reflexivity|].
  apply (more_servers_shorten_every_wait three_at_once 1 2).
  - repeat constructor.
  - lia.
  - lia.
  - vm_compute; reflexivity.
  - vm_compute; reflexivity.
  - repeat constructor.
Defined.

(** X21.  A lighter load shortens every wait: of two datasets of rows
    that hold no NaN and no -Infinity, with the same inter-arrival times,
    row by row, the second with service times that are no longer, run on
    [c1 >= 1] servers and on as many or more servers [c2], when every
    entity arrives at a finite time every entity of the second run waits no
    longer than the same entity of the first, and the average and the
    longest wait of the second summary are at most those of the first. *)
Theorem lighter_load_shortens_waits (d1 d2 : list DatasetRow) (c1 c2 : nat)
    (r1 r2 : SimulationResult) :
  Forall open_row d1 → Forall open_row d2 → Forall2 lighter d1 d2 →
  (1 ≤ c1)%nat → (c1 ≤ c2)%nat →
  runSimulationFromDataset d1 (Num.of_nat c1) = Normal r1 →
  runSimulationFromDataset d2 (Num.of_nat c2) = Normal r2 →
  finite_arrivals (customers r1) →
  Forall2 (λ e1 e2, (waitTime e2 <= waitTime e1)%num)
    (customers r1) (customers r2)
  ∧ (avgWaitTime r2 <= avgWaitTime r1)%num
  ∧ (maxWaitTime r2 <= maxWaitTime r1)%num.
Proof.
  intros Hrows1 Hrows2 Hl Hc1 Hc Hr1 Hr2 Hfin.
  destruct (lighter_runs d1 d2 c1 c2 r1 r2 Hrows1 Hrows2 Hl Hc1 Hc Hr1 Hr2
              Hfin) as (Hw & Havg & Hmax).
  split; [|done]. eapply Forall2_impl; [done|]. by intros e1 e2 [_ ?].
Qed.

(** The second customer comes half a minute after the first, written as
    1/2 in one dataset and as 5/10 in the other, where the first service
    is shorter. *)
Lemma lighter_load_shortens_waits_witness :
  ∃ r1 r2,
    runSimulationFromDataset [row 0 5; row (1 # 2) 5] (Num.of_nat 1)
      = Normal r1
    ∧ runSimulationFromDataset [row 0 2; row (5 # 10) 5] (Num.of_nat 1)
        = Normal r2
    ∧ maxWaitTime r1 ≡ Fin (9 # 2)
    ∧ maxWaitTime r2 ≡ Fin (3 # 2)
    ∧ Forall2 (λ e1 e2, (waitTime e2 <= waitTime e1)%num)
        (customers r1) (customers r2)
    ∧ (avgWaitTime r2 <= avgWaitTime r1)%num
    ∧ (maxWaitTime r2 <= maxWaitTime r1)%num.
Proof.
  eexists _, _. split; [vm_compute; reflexivity|].
  split; [vm_compute; reflexivity|].
  split; [vm_compute; reflexivity|].
  split; [vm_compute; reflexivity|].
  apply (lighter_load_shortens_waits [row 0 5; row (1 # 2) 5]
           [row 0 2; row (5 # 10) 5] 1 1).
  - repeat constructor.
  - repeat constructor.
  - repeat constructor.
  - lia.
  - lia.
  - vm_compute; reflexivity.
  - vm_compute; reflexivity.
  - repeat constructor.
Defined.

(** ** The range of the utilization *)







Section Utilization.

Variable Math_log : number → number.
Variable Math_random : nat → Q.

Hypothesis log_sign :
  ∀ q : Q, 0 <= q → q < 1 → (Math_log (Fin q) <= Fin 0)%num.
Hypothesis random_range : ∀ n : nat, 0 <= Math_random n ∧ Math_random n < 1.


End Utilization.



(** ** The parameters that [runSimulation] accepts *)

(** C7, amended.  [runSimulation] has no validation and no
    InvalidParameter error.  A number of servers that is negative, no
    integer, NaN or infinite makes the array constructor throw a RangeError
    before the loop; with a number of servers for which the array is
    created, 0 included, and a duration that is not more than 0 (zero,
    negative or NaN) the run returns the summary of no entity, whatever the
    rates are, zero and negative ones included. *)
Theorem runSimulation_validates_nothing
    (Math_log : number → number) (Math_random : nat → Q) (fuel : nat)
    (lam mu ns d : number) :
  let p := {| arrivalRate := lam; serviceRate := mu;
              numServers := ns; duration := d |} in
  ((ns <? Fin 0)%num = true ∨ ¬ Num.finite ns
   ∨ (∃ q, ns = Fin q ∧ Q_is_int q = false) →
   runSimulation Math_log Math_random fuel p = Some RangeError)
  ∧ ((∃ servers, new_Array_fill ns Num.zero = Normal servers) →
     (Fin 0 <? d)%num = false →
     runSimulation Math_log Math_random fuel p = Some (Normal zero_summary))
  ∧ new_Array_fill (Num.of_nat 0) Num.zero = Normal [].
Proof.
  intros p. split.
  - unfold runSimulation. cbn [numServers p].
    intros [Hns|[Hns|(q & -> & Hq)]].
    + destruct ns as [| | |q]; try done. unfold new_Array_fill.
      assert (Qle_bool 0 q = false) as ->; [num_props; q_props; lra|].
      by rewrite andb_false_r.
    + by destruct ns.
    + unfold new_Array_fill. by rewrite Hq.
  - split; [|done]. intros [servers Hs] Hd. unfold runSimulation.
    cbn [numServers p]. rewrite Hs.
    destruct fuel; cbn -[Num.ltb]; unfold Num.zero; by rewrite Hd.
Qed.

(** ** As many servers as entities *)

(** A server that is free at a finite arrival time means no wait. *)
Lemma stepper_free_no_wait (servers : list number) (t s y : number) :
  servers ≠ [] → Forall not_low servers → Num.finite t →
  y ∈ servers → (y <= t)%num →
  asg_waitTime (stepper servers t s) ≡ Fin 0.
Proof.
  intros Hne Hsrv Ht Hy Hle.
  destruct (stepper_spec servers t s Hne (Forall_is_num_not_low _ Hsrv)
              (is_num_finite _ Ht)) as (k & next & Hk & _ & _ & -> & _).
  destruct Hk as (Hlook & Hmin & _).
  assert (not_low next) as Hn.
  { rewrite Forall_forall in Hsrv. eapply Hsrv, list_elem_of_lookup_2, Hlook. }
  apply list_elem_of_lookup_1 in Hy as [j Hj].
  pose proof (num_le_trans _ _ _ (Hmin j y Hj) Hle) as Hnt.
  destruct t as [| | |t]; try done. destruct next as [| | |n]; try done.
  destruct (max2_Fin t n) as [[? ->]|[? ->]];
    unfold equiv, number_equiv; cbn; num_props; lra.
Qed.

Lemma dataset_body_idle (c i : nat) (r : DatasetRow) (s : LoopState) :
  (i < c)%nat → arriving_row r →
  open_inv c i s → idle_inv c i s →
  idle_inv c (S i) (dataset_body i r s).
Proof.
  intros Hi [Hiat Hst] (Hlen & Hsrv & Ht & _) (Hpos & Hfree & Hall).
  assert (not_low (row_interArrivalTime r)) as Hiat'
    by (by destruct (row_interArrivalTime r)).
  assert (not_low (ls_currentTime (dataset_body i r s))) as Ht'.
  { cbn. apply add_not_low; [done|]. by destruct (Nat.eqb i 0). }
  assert (ls_currentTime s <= ls_currentTime (dataset_body i r s))%num as Hle.
  { cbn. destruct (Nat.eqb i 0);
      [by apply add_zero_le_not_low|by apply add_nonneg_le_not_low]. }
  pose proof (num_le_trans _ _ _ Hpos Hle) as Hpos'.
  assert (ls_servers s ≠ []) as Hne by (apply nonempty_length; lia).
  destruct (free_at_pos (Fin 0) (ls_servers s)) as (y & Hy & Hy0); [lia|].
  pose proof (num_le_trans _ _ _ Hy0 Hpos') as Hyt.
  destruct (stepper_spec (ls_servers s) (ls_currentTime (dataset_body i r s))
              (row_serviceTime r) Hne (Forall_is_num_not_low _ Hsrv)
              (is_num_not_low _ Ht'))
    as (k & next & (Hlook & _) & _ & _ & _ & _ & Hsrv').
  unfold idle_inv.
  cbn [dataset_body ls_customers ls_currentTime ls_servers] in *.
  repeat split; [done| |].
  - rewrite Hsrv'.
    pose proof (free_at_insert (Fin 0) next
                  (Num.max2 (ls_currentTime s
                             + (if Nat.eqb i 0 then Num.zero
                                else row_interArrivalTime r)) next
                   + row_serviceTime r)%num (ls_servers s) k Hlook) as Hins.
    destruct (Num.leb next (Fin 0)), (Num.leb _ (Fin 0)) in Hins; lia.
  - apply Forall_app. split; [done|]. repeat constructor.
    cbn [arrivalTime waitTime]. intros Hfin.
    by apply (stepper_free_no_wait _ _ _ y).
Qed.

Lemma dataset_state_idle (dataset : list DatasetRow) (c i : nat) :
  (length dataset ≤ c)%nat → Forall arriving_row dataset →
  (i ≤ length dataset)%nat →
  idle_inv c i (dataset_state dataset c i).
Proof.
  intros Hc Hrows Hi.
  destruct (decide (c = 0)%nat) as [->|Hc0].
  { assert (i = 0)%nat as -> by lia. rewrite dataset_state_0.
    repeat split; cbn; first [done | lia | constructor]. }
  cut (open_inv c i (dataset_state dataset c i)
       ∧ idle_inv c i (dataset_state dataset c i)); [by intros []|].
  revert i Hi.
  apply (dataset_state_ind (λ i s, open_inv c i s ∧ idle_inv c i s)).
  - split.
    + rewrite <- (dataset_state_0 dataset c).
      apply dataset_state_open; [lia| |lia].
      by apply Forall_arriving_row_open.
    + repeat split; cbn [dataset_init ls_currentTime ls_servers ls_customers];
        try done.
      rewrite free_at_replicate.
      change (Num.leb Num.zero (Fin 0)) with true. lia.
  - intros i r s Hr [Hinv Hidle].
    rewrite Forall_forall in Hrows.
    pose proof (Hrows r (list_elem_of_lookup_2 _ _ _ Hr)) as Hrow.
    pose proof (lookup_lt_Some _ _ _ Hr) as Hlt.
    split; [apply dataset_body_open; auto using arriving_row_open; lia|].
    apply dataset_body_idle; auto. lia.
Qed.

(** X5.  With at least as many servers as rows nobody waits: on a dataset
    of rows whose inter-arrival time is 0 at least and whose service time
    is no NaN and not -Infinity, every entity that arrives at a finite time
    waits 0; and when every entity arrives at a finite time the average
    wait and the longest wait of the summary are 0. *)
Theorem enough_servers_nobody_waits (dataset : list DatasetRow) (c : nat)
    (res : SimulationResult) :
  (length dataset ≤ c)%nat → Forall arriving_row dataset →
  runSimulationFromDataset dataset (Num.of_nat c) = Normal res →
  Forall (λ e, Num.finite (arrivalTime e) → waitTime e ≡ Fin 0)
    (customers res)
  ∧ (finite_arrivals (customers res) →
     avgWaitTime res ≡ Fin 0 ∧ maxWaitTime res ≡ Fin 0).
Proof.
  intros Hc Hrows Hrun.
  destruct (dataset_state_idle dataset c (length dataset) Hc Hrows (le_n _))
    as (_ & _ & Hall).
  apply runSimulationFromDataset_summary in Hrun as [r ->].
  set (cs := ls_customers (dataset_state dataset c (length dataset))) in *.
  rewrite computeResults_customers. split; [done|]. intros Hfin.
  assert (Forall (λ e, waitTime e ≡ Fin 0) cs) as Hzero.
  { unfold finite_arrivals in Hfin. rewrite Forall_forall in Hall, Hfin |- *.
    intros e He. by apply Hall, Hfin. }
  unfold computeResults.
  destruct (Nat.eqb (length cs) 0) eqn:En; [by split|].
  apply Nat.eqb_neq in En. cbn [avgWaitTime maxWaitTime].
  destruct (foldl_waits_zero cs 0 Hzero) as (b & Hsum & Hb); [done|].
  change (Fin 0) with Num.zero in Hsum. rewrite Hsum.
  rewrite div_of_nat_finite by lia. split.
  - change (b / inject_Z (Z.of_nat (length cs)) == 0).
    unfold Qdiv. rewrite Hb. apply Qmult_0_l.
  - apply Math_max_zero.
    + destruct cs; [done|]. done.
    + by apply Forall_map.
Qed.

(** Three customers and three servers: the third customer arrives at
    +Infinity, and the first two wait 0. *)
Lemma enough_servers_nobody_waits_witness :
  (∃ res,
     runSimulationFromDataset late_arrival (Num.of_nat 3) = Normal res
     ∧ Forall2 equiv (map waitTime (customers res)) [Fin 0; Fin 0; NaN]
     ∧ Forall (λ e, Num.finite (arrivalTime e) → waitTime e ≡ Fin 0)
         (customers res))
  ∧ ∃ res,
      runSimulationFromDataset two_long_services (Num.of_nat 2) = Normal res
      ∧ finite_arrivals (customers res)
      ∧ avgWaitTime res ≡ Fin 0
      ∧ maxWaitTime res ≡ Fin 0.
Proof.
  split.
  - eexists. split; [vm_compute; reflexivity|].
    split; [by repeat constructor|].
    apply (enough_servers_nobody_waits late_arrival 3).
    + cbn. lia.
    + repeat constructor.
    + vm_compute; reflexivity.
  - eexists. split; [vm_compute; reflexivity|].
    split; [by repeat constructor|].
    apply (enough_servers_nobody_waits two_long_services 2).
    + cbn. lia.
    + repeat constructor.
    + vm_compute; reflexivity.
    + by repeat constructor.
Defined.

(** ** From the blob to the run *)

(** X10.  A blob can be run as it is parsed: for every text and every
    integer number of servers from 1 on, when [runSimulationFromDataset]
    returns on the rows that [parseCSV] gives, its output has one entity
    per row, each assigned to one of the servers, also when a cell reads
    Infinity; the ids are 1..N, the arrival times never decrease, every
    service ends at its start plus the service time, and the wait of every
    entity that arrives at a finite time is 0 at least. *)
Theorem parsed_dataset_runs (csvText : string) (c : nat)
    (res : SimulationResult) :
  (1 ≤ c)%nat →
  runSimulationFromDataset (parseCSV csvText) (Num.of_nat c) = Normal res →
  length (customers res) = length (parseCSV csvText)
  ∧ Forall (λ e, (1 ≤ serverAssigned e ≤ Z.of_nat c)%Z) (customers res)
  ∧ sequence_open (customers res).
Proof.
  intros Hc Hres.
  apply runSimulationFromDataset_Normal in Hres as [_ ->].
  pose proof (parseCSV_accepted csvText) as Hacc.
  destruct (dataset_state_open (parseCSV csvText) c
              (length (parseCSV csvText)) Hc
              (Forall_accepted_row_open _ Hacc) (le_n _))
    as (_ & _ & _ & Hlen & Hall).
  split; [done|]. split; [done|].
  by destruct (dataset_state_sequence_open (parseCSV csvText) c
                 (length (parseCSV csvText)) Hc Hacc (le_n _)).
Qed.

(** The round trip on one server, and a blob with an inter-arrival time
    of Infinity on two servers. *)
Lemma parsed_dataset_runs_witness :
  (∃ res,
     runSimulationFromDataset (parseCSV round_trip_blob) (Num.of_nat 1)
       = Normal res
     ∧ length (customers res) = 2%nat
     ∧ Forall (λ e, (1 ≤ serverAssigned e ≤ Z.of_nat 1)%Z) (customers res)
     ∧ sequence_open (customers res))
  ∧ ∃ res,
      runSimulationFromDataset (parseCSV infinite_blob) (Num.of_nat 2)
        = Normal res
      ∧ map serverAssigned (customers res) = [1; 2]%Z
      ∧ length (customers res) = length (parseCSV infinite_blob)
      ∧ Forall (λ e, (1 ≤ serverAssigned e ≤ Z.of_nat 2)%Z) (customers res)
      ∧ sequence_open (customers res).
Proof.
  split.
  - eexists. split; [vm_compute; reflexivity|].
    apply (parsed_dataset_runs round_trip_blob 1); [lia|].
    vm_compute; reflexivity.
  - eexists. split; [vm_compute; reflexivity|].
    split; [vm_compute; reflexivity|].
    apply (parsed_dataset_runs infinite_blob 2); [lia|].
    vm_compute; reflexivity.
Defined.
